(** * The AI enrichment pipeline of the CSV/Excel URL finder (src/index.tsx)

    A shallow embedding of the batched URL-finding run
    ([handleFindUrlsWithAi]), of its pre-run estimator
    ([handleEstimateFullAiRunCost]), of the dossier run
    ([handleGenerateFullDescriptions]) and of the pure helpers they use
    ([isPlausibleUrl], [normalizeUrlForComparison],
    [cleanAiNotFoundResponses], [calculateOperationCost]); and of the
    sheet-level steps that run without the service: reading and writing CSV
    ([parseCSV], [stringifyCSV]), the correction of the contacts sheet
    ([correctContactSheetAccountAssignments], [extractDomainFromEmail]), the
    URL pre-fill ([prefillUrlsFromContacts]), the two row deletions
    ([performPlaceholderDescRowDeletionLogic],
    [performMostlyEmptyRowsLogic]) and the merge of duplicate organizations
    ([performMergeDuplicatesLogic]).

    Conventions of the embedding.
    - A JavaScript string is a Rocq [string], each character standing for
      one UTF-16 code unit below 256, so that [String.length] is the
      JavaScript length.  On these strings [trim] and [toLowerCase] are the
      JavaScript functions: [trim] strips TAB, LF, VT, FF, CR, SPACE and the
      no-break space U+00A0, [toLowerCase] maps [A-Z] and the capital
      letters of U+00C0 to U+00DE.  Code units from 256 on (other Unicode
      spaces, the byte order mark, letters of other scripts) have no
      counterpart in the embedding.
    - A [string[][]] value is a [list (list string)]; reading a cell with
      [String(row[j] ?? '')] is [cellOr row j].
    - A value coming out of [JSON.parse] is a [JsVal]; a JavaScript
      exception is [None] in an [option] result.
    - JavaScript numbers that count things are [nat]; money is an exact
      rational [Q] (the source computes it in IEEE doubles).
    - The generation service is an oracle [gen batch attempt]; waiting
      (back-off delays) has no effect on the state and is left out, as are
      the texts of log and progress messages. *)

From Stdlib Require Import String Ascii List Bool Arith Lia ZArith QArith.
Import ListNotations.

Open Scope string_scope.
Open Scope nat_scope.
Open Scope list_scope.

(** ** JavaScript string primitives *)
Module Js.

(** White space removed by [String.prototype.trim], among the code units
    below 256: TAB, LF, VT, FF, CR, SPACE and NO-BREAK SPACE (U+00A0). *)
Definition isWhiteSpace (c : ascii) : bool :=
  let n := nat_of_ascii c in
  ((9 <=? n) && (n <=? 13)) || (n =? 32) || (n =? 160).

Fixpoint trimStart (s : string) : string :=
  match s with
  | EmptyString => EmptyString
  | String c rest => if isWhiteSpace c then trimStart rest else s
  end.

Fixpoint trimEnd (s : string) : string :=
  match s with
  | EmptyString => EmptyString
  | String c rest =>
      let t := trimEnd rest in
      if isWhiteSpace c && (t =? "")%string then EmptyString else String c t
  end.

Definition trim (s : string) : string := trimEnd (trimStart s).

(** [toLowerCase] on one code unit below 256: the letters [A-Z] and the
    capital letters U+00C0 to U+00DE, the multiplication sign U+00D7 apart,
    are moved up by 32. *)
Definition lowerChar (c : ascii) : ascii :=
  let n := nat_of_ascii c in
  if ((65 <=? n) && (n <=? 90))
     || ((192 <=? n) && (n <=? 222) && negb (n =? 215))
  then ascii_of_nat (n + 32) else c.

Fixpoint toLowerCase (s : string) : string :=
  match s with
  | EmptyString => EmptyString
  | String c rest => String (lowerChar c) (toLowerCase rest)
  end.

(** [s.startsWith(p)] *)
Definition startsWith (s p : string) : bool := String.prefix p s.

(** [s.substring(n)]: the string without its first [n] characters. *)
Definition substringFrom (n : nat) (s : string) : string :=
  String.substring n (String.length s - n) s.

(** [s.endsWith(p)] *)
Definition endsWith (s p : string) : bool :=
  (String.length p <=? String.length s) &&
  (substringFrom (String.length s - String.length p) s =? p)%string.

(** [s.slice(0, -1)] *)
Definition dropLast (s : string) : string :=
  String.substring 0 (String.length s - 1) s.

(** [s.includes(c)] for a one-character needle. *)
Fixpoint includesChar (s : string) (c : ascii) : bool :=
  match s with
  | EmptyString => false
  | String d rest => Ascii.eqb d c || includesChar rest c
  end.

(** [arr.includes(x)] on an array of strings. *)
Definition includes (arr : list string) (x : string) : bool :=
  existsb (fun y => (y =? x)%string) arr.

End Js.

(** ** URL plausibility classifier *)

Definition GENERIC_EMAIL_DOMAINS : list string :=
  map Js.toLowerCase
    [ "gmail.com"; "yahoo.com"; "outlook.com"; "aol.com"; "hotmail.com";
      "icloud.com"; "live.com"; "msn.com"; "protonmail.com"; "zoho.com";
      "gmx.com"; "mail.com"; "yandex.com"; "comcast.net"; "verizon.net";
      "att.net"; "sbcglobal.net"; "bellsouth.net"; "cox.net"; "charter.net" ].

Definition normalizeUrlForComparison (url : string) : string :=
  let normalized := Js.toLowerCase (Js.trim url) in
  let normalized :=
    if Js.startsWith normalized "http://" then Js.substringFrom 7 normalized
    else if Js.startsWith normalized "https://" then Js.substringFrom 8 normalized
    else normalized in
  let normalized :=
    if Js.startsWith normalized "www." then Js.substringFrom 4 normalized
    else normalized in
  if Js.endsWith normalized "/" then Js.dropLast normalized else normalized.

Definition isPlausibleUrl (url : string) : bool :=
  let trimmedUrl := Js.trim url in
  if (trimmedUrl =? "")%string then false
  else if negb (Js.includesChar trimmedUrl ".") then false
  else if Js.includesChar trimmedUrl "@"
          && existsb (fun domain => Js.endsWith trimmedUrl domain) GENERIC_EMAIL_DOMAINS
       then false
  else if existsb (fun domain => (normalizeUrlForComparison trimmedUrl =? domain)%string)
            GENERIC_EMAIL_DOMAINS
       then false
  else true.

(** ** Rows and datasets *)

Definition Row := list string.
Definition Dataset := list Row.

(** [String(row[j] ?? '')] on a row of strings. *)
Definition cellOr (row : Row) (j : nat) : string := nth j row "".

(** [while (row.length < n) row.push('')] *)
Definition padTo (n : nat) (row : Row) : Row :=
  row ++ repeat "" (n - length row).

(** [row[j] = v].  Every use in the source comes after a length test or a
    padding loop, so the index is in range; past the end JavaScript would
    extend the array, which is written out here with empty cells. *)
Fixpoint assignCell (j : nat) (v : string) (row : Row) : Row :=
  match j, row with
  | 0, [] => [v]
  | 0, _ :: rest => v :: rest
  | S j', [] => "" :: assignCell j' v []
  | S j', c :: rest => c :: assignCell j' v rest
  end.

(** [arr[k] = f(arr[k])] on an array of rows, for an index in range. *)
Fixpoint updateRow (k : nat) (f : Row -> Row) (rows : list Row) : list Row :=
  match k, rows with
  | _, [] => []
  | 0, r :: rest => f r :: rest
  | S k', r :: rest => r :: updateRow k' f rest
  end.

(** [arr.slice(from, to)] for [0 <= from <= to]. *)
Definition slice {A : Type} (from to : nat) (arr : list A) : list A :=
  firstn (to - from) (skipn from arr).

(** ** Values produced by [JSON.parse] *)

(** A number is carried by the text [String] gives for it: the program
    only ever stringifies numbers or tests them for being falsy, and a JSON
    number is falsy exactly when that text is "0". *)
#[warnings="-register-all"]
Inductive JsVal : Type :=
| JNull
| JBool (b : bool)
| JNum (shown : string)
| JStr (s : string)
| JArr (items : list JsVal)
| JObj (fields : list (string * JsVal)).

(** [String(v)]; an array is joined with commas, [null] elements giving the
    empty string. *)
Fixpoint JsString (v : JsVal) : string :=
  match v with
  | JNull => "null"
  | JBool true => "true"
  | JBool false => "false"
  | JNum shown => shown
  | JStr s => s
  | JArr items =>
      (fix join (l : list JsVal) : string :=
         match l with
         | [] => ""
         | x :: rest =>
             let shown := match x with JNull => "" | _ => JsString x end in
             match rest with
             | [] => shown
             | _ :: _ => (shown ++ "," ++ join rest)%string
             end
         end) items
  | JObj _ => "[object Object]"
  end.

(** [String(cell ?? '')] *)
Definition stringOfCell (cell : JsVal) : string :=
  match cell with
  | JNull => ""
  | _ => JsString cell
  end.

(** Truthiness, as tested by [!data]. *)
Definition truthy (v : JsVal) : bool :=
  match v with
  | JNull => false
  | JBool b => b
  | JNum shown => negb (shown =? "0")%string
  | JStr s => negb (s =? "")%string
  | JArr _ | JObj _ => true
  end.

(** [Array.isArray(v)] *)
Definition isArray (v : JsVal) : bool :=
  match v with
  | JArr _ => true
  | _ => false
  end.

(** Own property lookup on a parsed JSON object (the last binding of a
    repeated key wins, as in [JSON.parse]). *)
Fixpoint getField (key : string) (fields : list (string * JsVal)) : option JsVal :=
  match fields with
  | [] => None
  | (k, v) :: rest =>
      match getField key rest with
      | Some later => Some later
      | None => if (k =? key)%string then Some v else None
      end
  end.

(** [data.length === 0] *)
Definition lengthIsZero (data : JsVal) : bool :=
  match data with
  | JStr s => String.length s =? 0
  | JArr items => length items =? 0
  | JObj fields =>
      match getField "length" fields with
      | Some (JNum shown) => (shown =? "0")%string
      | _ => false
      end
  | _ => false
  end.

(** A [string[][]] seen as a JSON value. *)
Definition ofRow (row : Row) : JsVal := JArr (map JStr row).
Definition ofRows (data : list Row) : JsVal := JArr (map ofRow data).

(** [arr.map(f)] for an [f] that may throw. *)
Fixpoint mapThrowing {A B : Type} (f : A -> option B) (arr : list A) : option (list B) :=
  match arr with
  | [] => Some []
  | x :: rest =>
      match f x with
      | None => None
      | Some y =>
          match mapThrowing f rest with
          | None => None
          | Some ys => Some (y :: ys)
          end
      end
  end.

(** ** Response cleaner *)

Definition notFoundPlaceholders : list string :=
  map Js.toLowerCase
    [ "url_not_found";
      "no official website found";
      "not found";
      "n/a";
      "null";
      "undefined";
      "insufficient specific information available on the website to generate a detailed analytical profile for referral matchmaking." ].

(** [[...row.map(cell => String(cell ?? ''))]]; [row.map] throws a
    TypeError when [row] is not an array. *)
Definition copyRowAsStrings (row : JsVal) : option Row :=
  match row with
  | JArr cells => Some (map stringOfCell cells)
  | _ => None
  end.

(** The body of the [for] loop of [cleanAiNotFoundResponses] on one row. *)
Definition cleanRow (row : Row) : Row :=
  if 2 <? length row then
    let cellValue := cellOr row 2 in
    if negb (Js.trim cellValue =? "")%string then
      if Js.includes notFoundPlaceholders (Js.toLowerCase (Js.trim cellValue))
      then assignCell 2 "" row
      else row
    else row
  else row.

(** [for (let i = 1; i < cleanedData.length; i++) ...]: the header row is
    skipped. *)
Definition cleanDataRows (cleanedData : list Row) : list Row :=
  match cleanedData with
  | [] => []
  | header :: dataRows => header :: map cleanRow dataRows
  end.

(** [cleanAiNotFoundResponses], as it runs on whatever [JSON.parse]
    returned; [None] is a thrown TypeError. *)
Definition cleanAiNotFoundResponses (data : JsVal) : option JsVal :=
  if negb (truthy data) || lengthIsZero data then Some data
  else
    match data with
    | JArr rows =>
        match mapThrowing copyRowAsStrings rows with
        | Some cleanedData => Some (ofRows (cleanDataRows cleanedData))
        | None => None
        end
    | _ => None
    end.

(** A cell of a [string[][]] by row and column, [None] outside it. *)
Definition cellAt (data : list Row) (i j : nat) : option string :=
  match nth_error data i with
  | Some row => nth_error row j
  | None => None
  end.

(** ** Cost accountant *)

Inductive ModelType : Type := flash | pro.

Definition FLASH_PRICE_INPUT_PER_MILLION_TOKENS : Q := 15 # 100.
Definition FLASH_PRICE_OUTPUT_THINKING_PER_MILLION_TOKENS : Q := 350 # 100.
Definition FLASH_PRICE_GROUNDING_PER_THOUSAND_REQUESTS_AFTER_FREE_TIER : Q := 35 # 1.
Definition FLASH_FREE_GROUNDING_REQUESTS_PER_DAY : nat := 1500.
Definition PRO_PRICE_INPUT_PER_MILLION_TOKENS : Q := 125 # 100.
Definition PRO_PRICE_OUTPUT_PER_MILLION_TOKENS : Q := 10 # 1.

(** A counter used as a number in a price computation. *)
Definition num (n : nat) : Q := inject_Z (Z.of_nat n).

Definition calculateOperationCost
  (inputTokens outputTokens apiRequests : nat) (modelType : ModelType) : Q :=
  let inputCost :=
    match modelType with
    | flash => (num inputTokens / 1000000) * FLASH_PRICE_INPUT_PER_MILLION_TOKENS
    | pro => (num inputTokens / 1000000) * PRO_PRICE_INPUT_PER_MILLION_TOKENS
    end%Q in
  let outputCost :=
    match modelType with
    | flash => (num outputTokens / 1000000) * FLASH_PRICE_OUTPUT_THINKING_PER_MILLION_TOKENS
    | pro => (num outputTokens / 1000000) * PRO_PRICE_OUTPUT_PER_MILLION_TOKENS
    end%Q in
  (* Grounding cost is handled cumulatively for now, as it's per day. *)
  (inputCost + outputCost)%Q.

(** The grounding term of the specification's formula:
    [max(0, apiRequests - freeGroundingRequestsPerDay) / 1000 * groundingPrice];
    on [nat], subtraction is already cut off at zero. *)
Definition groundingTerm (apiRequests : nat) : Q :=
  (num (apiRequests - FLASH_FREE_GROUNDING_REQUESTS_PER_DAY) / 1000
   * FLASH_PRICE_GROUNDING_PER_THOUSAND_REQUESTS_AFTER_FREE_TIER)%Q.

(** The cost formula in the words of the specification (section 4.5), for
    the URL-finding model: input cost, output cost and a grounding cost taken
    from the operation's own request count. *)
Definition specEstimateCostFlash (inputTokens outputTokens apiRequests : nat) : Q :=
  (num inputTokens / 1000000 * (15 # 100)
   + num outputTokens / 1000000 * (350 # 100)
   + groundingTerm apiRequests)%Q.

(** ** Operation statistics *)

Inductive OperationType : Type := test_url | full_url | test_dossier | full_dossier.
Inductive Status : Type := idle | estimating_input | running | completed | error.

Record CurrentOperationStats : Type := mkStats {
  operationType : option OperationType;
  status : Status;
  inputTokens : nat;
  outputTokens : nat;
  apiRequests : nat;
  estimatedCost : Q;
  modelUsed : option ModelType
}.

Definition initialCurrentOperationStats : CurrentOperationStats :=
  mkStats None idle 0 0 0 0%Q None.

Definition setStatus (s : Status) (prev : CurrentOperationStats) : CurrentOperationStats :=
  mkStats (operationType prev) s (inputTokens prev) (outputTokens prev)
          (apiRequests prev) (estimatedCost prev) (modelUsed prev).

(** ** The generation service *)

(** What one awaited [genAI.models.generateContent] call gives back.
    [Text] stands for a response whose [text] is a string; it carries the
    token count obtained for that text, the result of the parsing steps
    applied to it (fence removal or bracket extraction, then [JSON.parse];
    [None] when [JSON.parse] throws) and, for each grounding chunk, the URI
    of its [web] part when it has one.  The grounding metadata is taken to
    have the shape the SDK declares for it, so that reading it after the
    merge does not throw. *)
Inductive GenerateContentResult : Type :=
| Rejected
| NoText
| Text (outputTokenCount : nat) (parsed : option JsVal) (groundingChunks : list (option string)).

(** [groundingChunks.filter(c => c.web && c.web.uri)] *)
Definition webChunks (groundingChunks : list (option string)) : list string :=
  flat_map (fun c => match c with
                     | Some uri => if (uri =? "")%string then [] else [uri]
                     | None => []
                     end) groundingChunks.

(** ** URL-finding run: state *)

Definition BATCH_SIZE : nat := 20.
Definition MAX_RETRIES : nat := 3.

(** [{ originalIndexInChunk, rowData }] *)
Record LookupItem : Type := mkItem {
  originalIndexInChunk : nat;
  rowData : Row
}.

(** The variables of [handleFindUrlsWithAi] that live across batches.
    [generateContentCalls] is the record of the calls made to
    [generateContent], each as (batch number, value of [retries]). *)
Record RunState : Type := mkRun {
  currentRunOpInputTokens : nat;
  currentRunOpOutputTokens : nat;
  currentRunOpApiRequests : nat;
  runSkippedBatchNumbersLocal : list nat;
  allProcessedDataRows : list Row;
  accumulatedGroundingSourcesFromBatches : list string;
  currentOperationStats : CurrentOperationStats;
  generateContentCalls : list (nat * nat)
}.

(** The variables of one batch's retry loop. *)
Record LoopVars : Type := mkLoop {
  retries : nat;
  batchSuccess : bool;
  batchApiRequestMadeThisAttempt : bool;
  runState : RunState
}.

Definition initialRunState : RunState :=
  mkRun 0 0 0 [] [] []
        (mkStats (Some full_url) running 0 0 0 0%Q (Some flash)) [].

Definition recordCall (call : nat * nat) (st : RunState) : RunState :=
  mkRun (currentRunOpInputTokens st) (currentRunOpOutputTokens st)
        (currentRunOpApiRequests st) (runSkippedBatchNumbersLocal st)
        (allProcessedDataRows st) (accumulatedGroundingSourcesFromBatches st)
        (currentOperationStats st) (generateContentCalls st ++ [call]).

(** [currentRunOpApiRequests++] *)
Definition countApiRequest (st : RunState) : RunState :=
  mkRun (currentRunOpInputTokens st) (currentRunOpOutputTokens st)
        (S (currentRunOpApiRequests st)) (runSkippedBatchNumbersLocal st)
        (allProcessedDataRows st) (accumulatedGroundingSourcesFromBatches st)
        (currentOperationStats st) (generateContentCalls st).

(** [allProcessedDataRows.push(...rows)] *)
Definition pushProcessedRows (rows : list Row) (st : RunState) : RunState :=
  mkRun (currentRunOpInputTokens st) (currentRunOpOutputTokens st)
        (currentRunOpApiRequests st) (runSkippedBatchNumbersLocal st)
        (allProcessedDataRows st ++ rows) (accumulatedGroundingSourcesFromBatches st)
        (currentOperationStats st) (generateContentCalls st).

(** [runSkippedBatchNumbersLocal.push(batchDisplayNum)] *)
Definition pushSkippedBatch (batchDisplayNum : nat) (st : RunState) : RunState :=
  mkRun (currentRunOpInputTokens st) (currentRunOpOutputTokens st)
        (currentRunOpApiRequests st) (runSkippedBatchNumbersLocal st ++ [batchDisplayNum])
        (allProcessedDataRows st) (accumulatedGroundingSourcesFromBatches st)
        (currentOperationStats st) (generateContentCalls st).

(** [accumulatedGroundingSourcesFromBatches.push(...webChunks)] *)
Definition pushGroundingSources (sources : list string) (st : RunState) : RunState :=
  mkRun (currentRunOpInputTokens st) (currentRunOpOutputTokens st)
        (currentRunOpApiRequests st) (runSkippedBatchNumbersLocal st)
        (allProcessedDataRows st) (accumulatedGroundingSourcesFromBatches st ++ sources)
        (currentOperationStats st) (generateContentCalls st).

(** [currentRunOpInputTokens += batchInputTokens], then the statistics are
    refreshed with the cost estimated for one more request. *)
Definition addInputTokens (batchInputTokens : nat) (st : RunState) : RunState :=
  let total := currentRunOpInputTokens st + batchInputTokens in
  let prev := currentOperationStats st in
  mkRun total (currentRunOpOutputTokens st)
        (currentRunOpApiRequests st) (runSkippedBatchNumbersLocal st)
        (allProcessedDataRows st) (accumulatedGroundingSourcesFromBatches st)
        (mkStats (operationType prev) (status prev) total (outputTokens prev)
                 (apiRequests prev)
                 (calculateOperationCost total (currentRunOpOutputTokens st)
                    (currentRunOpApiRequests st + 1) flash)
                 (modelUsed prev))
        (generateContentCalls st).

(** [currentRunOpOutputTokens += batchOutputTokens], then the statistics
    take the run's output tokens, request count and cost.  The statistics
    are set through an updater that reads the run's variables when React
    runs it, at the next [await]; see [refreshApiRequests] for the one
    assignment that can come in between. *)
Definition addOutputTokens (batchOutputTokens : nat) (st : RunState) : RunState :=
  let total := currentRunOpOutputTokens st + batchOutputTokens in
  let prev := currentOperationStats st in
  mkRun (currentRunOpInputTokens st) total
        (currentRunOpApiRequests st) (runSkippedBatchNumbersLocal st)
        (allProcessedDataRows st) (accumulatedGroundingSourcesFromBatches st)
        (mkStats (operationType prev) (status prev) (inputTokens prev) total
                 (currentRunOpApiRequests st)
                 (calculateOperationCost (currentRunOpInputTokens st) total
                    (currentRunOpApiRequests st) flash)
                 (modelUsed prev))
        (generateContentCalls st).

(** The updater queued by [addOutputTokens] reads [currentRunOpApiRequests]
    when it is run.  Between the call and the next [await] the only
    assignment to the variables it reads is the increment made in the
    [catch] block when the retries are exhausted: the statistics then show
    the count after that increment.  (The cost does not depend on the
    count.) *)
Definition refreshApiRequests (st : RunState) : RunState :=
  let prev := currentOperationStats st in
  mkRun (currentRunOpInputTokens st) (currentRunOpOutputTokens st)
        (currentRunOpApiRequests st) (runSkippedBatchNumbersLocal st)
        (allProcessedDataRows st) (accumulatedGroundingSourcesFromBatches st)
        (mkStats (operationType prev) (status prev) (inputTokens prev) (outputTokens prev)
                 (currentRunOpApiRequests st) (estimatedCost prev) (modelUsed prev))
        (generateContentCalls st).

Definition setRunStatus (s : Status) (st : RunState) : RunState :=
  mkRun (currentRunOpInputTokens st) (currentRunOpOutputTokens st)
        (currentRunOpApiRequests st) (runSkippedBatchNumbersLocal st)
        (allProcessedDataRows st) (accumulatedGroundingSourcesFromBatches st)
        (setStatus s (currentOperationStats st)) (generateContentCalls st).

Definition withRunState (lv : LoopVars) (st : RunState) : LoopVars :=
  mkLoop (retries lv) (batchSuccess lv) (batchApiRequestMadeThisAttempt lv) st.

(** ** URL-finding run: partition *)

(** Whether a row is sent for lookup: [!isPlausibleUrl(String(row[2] ?? ''))]. *)
Definition needsLookup (row : Row) : bool := negb (isPlausibleUrl (cellOr row 2)).

(** The [forEach] that fills [itemsRequiringAiLookup], from position
    [index] of the chunk on. *)
Fixpoint itemsRequiringAiLookupFrom (index : nat) (chunk : list Row) : list LookupItem :=
  match chunk with
  | [] => []
  | row :: rest =>
      if needsLookup row
      then mkItem index row :: itemsRequiringAiLookupFrom (S index) rest
      else itemsRequiringAiLookupFrom (S index) rest
  end.

Definition itemsRequiringAiLookup (chunk : list Row) : list LookupItem :=
  itemsRequiringAiLookupFrom 0 chunk.

(** [Math.ceil(dataRows.length / BATCH_SIZE)] *)
Definition totalBatchesOf (dataRows : list Row) : nat :=
  (length dataRows + (BATCH_SIZE - 1)) / BATCH_SIZE.

(** [dataRows.slice(i * BATCH_SIZE, i * BATCH_SIZE + BATCH_SIZE)] *)
Definition chunkOf (dataRows : list Row) (i : nat) : list Row :=
  let batchStart := i * BATCH_SIZE in
  let batchEnd := batchStart + BATCH_SIZE in
  slice batchStart batchEnd dataRows.

(** ** URL-finding run: reading one response *)

(** [suggestedBatchDataFromAI.slice(1)]; only arrays and strings have a
    [slice] method, anything else is a TypeError. *)
Definition jsSliceFrom1 (v : JsVal) : option JsVal :=
  match v with
  | JArr items => Some (JArr (tl items))
  | JStr s => Some (JStr (Js.substringFrom 1 s))
  | _ => None
  end.

(** [String(aiRow[2] ?? "")] *)
Definition aiFoundUrlOf (aiRowCells : list JsVal) : string :=
  match nth_error aiRowCells 2 with
  | Some cell => stringOfCell cell
  | None => ""
  end.

(** Padding a row to three cells and storing the URL in column C. *)
Definition setUrl (aiFoundUrl : string) (row : Row) : Row :=
  assignCell 2 aiFoundUrl (padTo 3 row).

(** [aiProcessedRowsOnly.forEach((aiRow, idx) => ...)], from index [idx] on.
    A response row that is not an array is passed over; reading
    [itemsRequiringAiLookup[idx]] past the end would be a TypeError. *)
Fixpoint forEachAiRow (items : list LookupItem) (idx : nat) (aiRows : list JsVal)
  (finalProcessedChunkForThisBatch : list Row) : option (list Row) :=
  match aiRows with
  | [] => Some finalProcessedChunkForThisBatch
  | aiRow :: rest =>
      match aiRow with
      | JArr cells =>
          match nth_error items idx with
          | None => None
          | Some originalRowInfo =>
              forEachAiRow items (S idx) rest
                (updateRow (originalIndexInChunk originalRowInfo)
                   (setUrl (aiFoundUrlOf cells)) finalProcessedChunkForThisBatch)
          end
      | _ => forEachAiRow items (S idx) rest finalProcessedChunkForThisBatch
      end
  end.

(** From the parsed response text to the merged chunk: clean, drop the
    header, check the row count, scatter the URLs.  [None] is an exception
    thrown inside the [try] block. *)
Definition mergeAiResponse (headerRow : Row) (chunk : list Row)
  (items : list LookupItem) (parsed : option JsVal) : option (list Row) :=
  match parsed with
  | None => None
  | Some suggestedBatchDataFromAIUncleaned =>
      match cleanAiNotFoundResponses suggestedBatchDataFromAIUncleaned with
      | None => None
      | Some suggestedBatchDataFromAI =>
          let finalProcessedChunkForThisBatch := chunk in
          match (if 0 <? length headerRow
                 then jsSliceFrom1 suggestedBatchDataFromAI
                 else Some suggestedBatchDataFromAI) with
          | None => None
          | Some (JArr aiProcessedRowsOnly) =>
              if negb (length aiProcessedRowsOnly =? length items) then None
              else forEachAiRow items 0 aiProcessedRowsOnly finalProcessedChunkForThisBatch
          | Some _ => None
          end
      end
  end.

(** Whether a submit attempt ends in the [catch] block. *)
Definition attemptFails (headerRow : Row) (chunk : list Row)
  (result : GenerateContentResult) : bool :=
  match result with
  | Rejected => true
  | NoText => true
  | Text _ parsed _ =>
      match mergeAiResponse headerRow chunk (itemsRequiringAiLookup chunk) parsed with
      | None => true
      | Some _ => false
      end
  end.

(** ** URL-finding run: the orchestrator *)

(** How a handler ends: it returned before doing any work (invalid input),
    it ran to its end, or the bound of a loop of the model was reached. *)
Inductive HandlerResult (A : Type) : Type :=
| ReturnedEarly
| Finished (final : A)
| OutOfFuel.

Arguments ReturnedEarly {A}.
Arguments Finished {A} final.
Arguments OutOfFuel {A}.

Section UrlFinding.

(** The service: the result of the call made for batch number [b] when
    [retries] is [k].  Each such call is made at most once in a run. *)
Variable gen : nat -> nat -> GenerateContentResult.

(** [getTokenCountForModel] on the prompt built from the rows to send
    (header row first). *)
Variable countTokens : list Row -> nat.

(** The first statement after the awaited call: the request is counted
    when [retries] is 0. *)
Definition countFirstAttempt (lv : LoopVars) : LoopVars :=
  if negb (batchApiRequestMadeThisAttempt lv) && (retries lv =? 0)
  then mkLoop (retries lv) (batchSuccess lv) true (countApiRequest (runState lv))
  else lv.

(** The [try] block of one attempt.  The boolean tells whether the block
    ran to its end ([true]) or threw ([false]). *)
Definition tryBlock (headerRow : Row) (chunk : list Row) (items : list LookupItem)
  (batchDisplayNum : nat) (lv : LoopVars) : LoopVars * bool :=
  let called := withRunState lv (recordCall (batchDisplayNum, retries lv) (runState lv)) in
  match gen batchDisplayNum (retries lv) with
  | Rejected => (called, false)
  | NoText => (countFirstAttempt called, false)
  | Text batchOutputTokens parsed groundingChunks =>
      let counted := countFirstAttempt called in
      let received := withRunState counted (addOutputTokens batchOutputTokens (runState counted)) in
      match mergeAiResponse headerRow chunk items parsed with
      | None => (received, false)
      | Some finalProcessedChunkForThisBatch =>
          let st := pushGroundingSources (webChunks groundingChunks)
                      (pushProcessedRows finalProcessedChunkForThisBatch (runState received)) in
          (mkLoop (retries received) true (batchApiRequestMadeThisAttempt received) st, true)
      end
  end.

(** Whether the attempt that has just thrown had queued the statistics
    updater of [addOutputTokens]: it had when its call returned a text. *)
Definition statsUpdaterQueued (batchDisplayNum : nat) (lv : LoopVars) : bool :=
  match gen batchDisplayNum (retries lv) with
  | Text _ _ _ => true
  | _ => false
  end.

(** The [catch] block.  The boolean tells whether it ended in [break]. *)
Definition catchBlock (chunk : list Row) (batchDisplayNum : nat) (lv : LoopVars)
  : LoopVars * bool :=
  let retries' := retries lv + 1 in
  if MAX_RETRIES <? retries' then
    let st := pushSkippedBatch batchDisplayNum (pushProcessedRows chunk (runState lv)) in
    let st := if negb (batchApiRequestMadeThisAttempt lv) && (retries' =? MAX_RETRIES + 1)
              then
                let st := countApiRequest st in
                if statsUpdaterQueued batchDisplayNum lv then refreshApiRequests st else st
              else st in
    (mkLoop retries' (batchSuccess lv) (batchApiRequestMadeThisAttempt lv) st, true)
  else
    (mkLoop retries' (batchSuccess lv) (batchApiRequestMadeThisAttempt lv) (runState lv), false).

(** [while (retries <= MAX_RETRIES && !batchSuccess) { try ... catch ... }].
    [fuel] bounds the number of times the body runs; [None] means the bound
    was reached with the loop condition still true. *)
Fixpoint retryLoop (fuel : nat) (headerRow : Row) (chunk : list Row)
  (items : list LookupItem) (batchDisplayNum : nat) (lv : LoopVars) : option LoopVars :=
  if (retries lv <=? MAX_RETRIES) && negb (batchSuccess lv) then
    match fuel with
    | 0 => None
    | S fuel' =>
        let (tried, completedNormally) := tryBlock headerRow chunk items batchDisplayNum lv in
        if completedNormally
        then retryLoop fuel' headerRow chunk items batchDisplayNum tried
        else
          let (caught, broke) := catchBlock chunk batchDisplayNum tried in
          if broke then Some caught
          else retryLoop fuel' headerRow chunk items batchDisplayNum caught
    end
  else Some lv.

(** The body of the [for] loop over batches, for batch index [i]. *)
Definition processBatch (headerRow : Row) (dataRows : list Row) (i : nat)
  (st : RunState) : option RunState :=
  let currentChunkOfOriginalDataRows := chunkOf dataRows i in
  let batchDisplayNum := i + 1 in
  let items := itemsRequiringAiLookup currentChunkOfOriginalDataRows in
  if length items =? 0 then
    Some (pushProcessedRows currentChunkOfOriginalDataRows st)
  else
    let dataRowsForAISubmissionOnly := map rowData items in
    let dataToSendToAiForBatch := headerRow :: dataRowsForAISubmissionOnly in
    let batchInputTokens := countTokens dataToSendToAiForBatch in
    let st := addInputTokens batchInputTokens st in
    match retryLoop (MAX_RETRIES + 1) headerRow currentChunkOfOriginalDataRows items
            batchDisplayNum (mkLoop 0 false false st) with
    | Some lv => Some (runState lv)
    | None => None
    end.

(** [for (let i = 0; i < totalBatches; i++)], over the batch indices still
    to be processed. *)
Fixpoint forBatches (headerRow : Row) (dataRows : list Row) (batches : list nat)
  (st : RunState) : option RunState :=
  match batches with
  | [] => Some st
  | i :: rest =>
      match processBatch headerRow dataRows i st with
      | Some st' => forBatches headerRow dataRows rest st'
      | None => None
      end
  end.

(** The statistics at the end of the run: ['error'] when a batch was
    skipped, ['completed'] otherwise. *)
Definition finishRun (st : RunState) : RunState :=
  setRunStatus (if 0 <? length (runSkippedBatchNumbersLocal st) then error else completed) st.

Definition handleFindUrlsWithAi (initialDataForProcessing : Dataset)
  : HandlerResult RunState :=
  if length initialDataForProcessing <? 2 then ReturnedEarly
  else
    let headerRow := hd [] initialDataForProcessing in
    let dataRows := tl initialDataForProcessing in
    let totalBatches := totalBatchesOf dataRows in
    match forBatches headerRow dataRows (seq 0 totalBatches) initialRunState with
    | Some st => Finished (finishRun st)
    | None => OutOfFuel
    end.

(** The data shown after the run: [[headerRow, ...allProcessedDataRows]]. *)
Definition displayedData (headerRow : Row) (st : RunState) : Dataset :=
  headerRow :: allProcessedDataRows st.

End UrlFinding.

(** ** Pre-run cost estimator *)

Record PreRunEstimation : Type := mkEstimation {
  preRunInputTokens : nat;
  preRunApiRequests : nat;
  estimatedInputCost : Q
}.

Section Estimator.

Variable countTokens : list Row -> nat.

(** The body of the estimator's [for] loop for batch index [i], on the
    pair ([totalEstimatedInputTokens], [totalEstimatedApiRequests]). *)
Definition estimateBatch (headerRow : Row) (dataRows : list Row) (i : nat)
  (totals : nat * nat) : nat * nat :=
  let (totalEstimatedInputTokens, totalEstimatedApiRequests) := totals in
  let currentChunk := chunkOf dataRows i in
  let itemsRequiringAiLookup := filter needsLookup currentChunk in
  if 0 <? length itemsRequiringAiLookup then
    let totalEstimatedApiRequests := totalEstimatedApiRequests + 1 in
    let dataForAISubmission := headerRow :: itemsRequiringAiLookup in
    let batchTokens := countTokens dataForAISubmission in
    (totalEstimatedInputTokens + batchTokens, totalEstimatedApiRequests)
  else totals.

Definition estimateBatches (headerRow : Row) (dataRows : list Row)
  (batches : list nat) (totals : nat * nat) : nat * nat :=
  fold_left (fun acc i => estimateBatch headerRow dataRows i acc) batches totals.

(** The grounding cost of the estimate, computed on top of the session's
    request total [totalApiRequestsMade]. *)
Definition estimatedGroundingCost (totalApiRequestsMade totalEstimatedApiRequests : nat) : Q :=
  let potentialTotalRequests := totalApiRequestsMade + totalEstimatedApiRequests in
  if FLASH_FREE_GROUNDING_REQUESTS_PER_DAY <? potentialTotalRequests then
    let billableRequests :=
      (potentialTotalRequests - FLASH_FREE_GROUNDING_REQUESTS_PER_DAY)
      - (totalApiRequestsMade - FLASH_FREE_GROUNDING_REQUESTS_PER_DAY) in
    if 0 <? billableRequests
    then (num billableRequests / 1000
          * FLASH_PRICE_GROUNDING_PER_THOUSAND_REQUESTS_AFTER_FREE_TIER)%Q
    else 0%Q
  else 0%Q.

Definition handleEstimateFullAiRunCost (totalApiRequestsMade : nat)
  (dataForEstimation : Dataset) : option PreRunEstimation :=
  if length dataForEstimation <? 2 then None
  else
    let headerRow := hd [] dataForEstimation in
    let dataRows := tl dataForEstimation in
    let totalBatches := totalBatchesOf dataRows in
    let (totalEstimatedInputTokens, totalEstimatedApiRequests) :=
      estimateBatches headerRow dataRows (seq 0 totalBatches) (0, 0) in
    let inputCost :=
      (num totalEstimatedInputTokens / 1000000 * FLASH_PRICE_INPUT_PER_MILLION_TOKENS)%Q in
    let groundingCost := estimatedGroundingCost totalApiRequestsMade totalEstimatedApiRequests in
    Some (mkEstimation totalEstimatedInputTokens totalEstimatedApiRequests
            (inputCost + groundingCost)%Q).

End Estimator.

(** ** Dossier generation run *)

Definition MAX_PRO_RETRIES : nat := 1.
Definition DESCRIPTION_COL_INDEX : nat := 63.

(** What one awaited call to the "pro" model gives back; [ProText] carries
    the response text and the token count obtained for it. *)
Inductive ProResult : Type :=
| ProRejected
| ProNoText
| ProText (text : string) (outputTokenCount : nat).

(** The entries of the activity log written by the dossier run, by data-row
    index. *)
Inductive DossierLog : Type :=
| LogGenerating (i : nat)
| LogSkippingMissingName (i : nat)
| LogUpdatedDescription (i : nat)
| LogErrorForRow (i : nat).

Record DossierState : Type := mkDossier {
  dossierRows : list Row;
  dossierStats : CurrentOperationStats;
  activityLog : list DossierLog;
  proCalls : list (nat * nat)
}.

(** [updateOpStatsCallback(stats)]: the four counters of the statistics are
    increased. *)
Definition updateOpStats (input output requests : nat) (cost : Q)
  (st : DossierState) : DossierState :=
  let prev := dossierStats st in
  mkDossier (dossierRows st)
    (mkStats (operationType prev) (status prev)
       (inputTokens prev + input) (outputTokens prev + output)
       (apiRequests prev + requests) (estimatedCost prev + cost)%Q (modelUsed prev))
    (activityLog st) (proCalls st).

Definition addLog (entry : DossierLog) (st : DossierState) : DossierState :=
  mkDossier (dossierRows st) (dossierStats st) (activityLog st ++ [entry]) (proCalls st).

Definition recordProCall (call : nat * nat) (st : DossierState) : DossierState :=
  mkDossier (dossierRows st) (dossierStats st) (activityLog st) (proCalls st ++ [call]).

Section Dossier.

(** The "pro" service: the result of the call made for data row [i] when
    [retries] is [k]. *)
Variable genPro : nat -> nat -> ProResult.

(** [getTokenCountForModel] on the dossier prompt built from the
    organization name, URL and existing description. *)
Variable countPromptTokens : string -> string -> string -> nat.

(** The retry loop of [generateDetailedDescriptionForOrganization].  The
    result is the returned text, or [None] when the function throws. *)
Fixpoint dossierRetryLoop (fuel : nat) (i : nat) (inputTokensForCall : nat)
  (retries : nat) (st : DossierState) : option (option string * DossierState) :=
  if retries <=? MAX_PRO_RETRIES then
    match fuel with
    | 0 => None
    | S fuel' =>
        let st := recordProCall (i, retries) st in
        match genPro i retries with
        | ProText text outputTokensForCall =>
            let costForThisCall :=
              calculateOperationCost inputTokensForCall outputTokensForCall 1 pro in
            Some (Some text,
                  updateOpStats 0 outputTokensForCall 1
                    (costForThisCall - calculateOperationCost inputTokensForCall 0 1 pro)%Q st)
        | _ =>
            let retries' := retries + 1 in
            if MAX_PRO_RETRIES <? retries' then Some (None, st)
            else dossierRetryLoop fuel' i inputTokensForCall retries' st
        end
    end
  else Some (None, st).

Definition generateDetailedDescriptionForOrganization (i : nat)
  (orgName orgUrl existingDesc : string) (st : DossierState)
  : option (option string * DossierState) :=
  let inputTokensForCall := countPromptTokens orgName orgUrl existingDesc in
  let costForThisCall := calculateOperationCost inputTokensForCall 0 1 pro in
  let st := updateOpStats inputTokensForCall 0 0 costForThisCall st in
  dossierRetryLoop (MAX_PRO_RETRIES + 1) i inputTokensForCall 0 st.

(** The body of the [for] loop of [handleGenerateFullDescriptions] for data
    row [i]. *)
Definition processDossierRow (i : nat) (st : DossierState) : option DossierState :=
  let row := nth i (dossierRows st) [] in
  let orgName := Js.trim (cellOr row 0) in
  let orgUrl := Js.trim (cellOr row 2) in
  let existingDesc := Js.trim (cellOr row DESCRIPTION_COL_INDEX) in
  let st := addLog (LogGenerating i) st in
  if (orgName =? "")%string then Some (addLog (LogSkippingMissingName i) st)
  else
    match generateDetailedDescriptionForOrganization i orgName orgUrl existingDesc st with
    | None => None
    | Some (Some newDescription, st) =>
        let rows :=
          updateRow i
            (fun r => assignCell DESCRIPTION_COL_INDEX newDescription
                        (padTo (DESCRIPTION_COL_INDEX + 1) r))
            (dossierRows st) in
        Some (addLog (LogUpdatedDescription i)
                (mkDossier rows (dossierStats st) (activityLog st) (proCalls st)))
    | Some (None, st) => Some (addLog (LogErrorForRow i) st)
    end.

Fixpoint forDossierRows (indices : list nat) (st : DossierState) : option DossierState :=
  match indices with
  | [] => Some st
  | i :: rest =>
      match processDossierRow i st with
      | Some st' => forDossierRows rest st'
      | None => None
      end
  end.

Definition handleGenerateFullDescriptions (dataToProcess : Dataset)
  : HandlerResult DossierState :=
  if length dataToProcess <? 2 then ReturnedEarly
  else
    let dataRows := tl dataToProcess in
    let st := mkDossier dataRows
                (mkStats (Some full_dossier) running 0 0 0 0%Q (Some pro)) [] [] in
    match forDossierRows (seq 0 (length dataRows)) st with
    | Some st =>
        Finished (mkDossier (dossierRows st) (setStatus completed (dossierStats st))
                    (activityLog st) (proCalls st))
    | None => OutOfFuel
    end.

End Dossier.

(** ** Predicates and sample inputs used in the statements *)

(** What a step of the dossier run may change: it keeps the status, the
    number of rows and every row but its own, only adds calls made for its
    own row, and only adds to the log. *)
Definition dossierFrame (touched : nat -> Prop) (st st' : DossierState) : Prop :=
  status (dossierStats st') = status (dossierStats st)
  /\ (forall j, ~ touched j -> nth_error (dossierRows st') j = nth_error (dossierRows st) j)
  /\ (forall j k, In (j, k) (proCalls st') -> In (j, k) (proCalls st) \/ touched j)
  /\ (forall entry, In entry (activityLog st) -> In entry (activityLog st')).

(** A sheet whose first data row has no organization name. *)
Definition sheetWithUnnamedRow : Dataset :=
  [ ["Organization Name"; "Contact"; "Website URL"];
    [""; "x"; "acme.com"];
    ["Beta Corp"; "y"; "beta.io"] ].

(** A "pro" service that always answers, and a token counter. *)
Definition proAlwaysAnswers (i k : nat) : ProResult := ProText "Dossier" 10.
Definition promptTokens100 (orgName orgUrl existingDesc : string) : nat := 100.

(** Splitting a conjunction of four. *)
Ltac split4 := split; [| split; [| split]].

(** How an output row may differ from the input row at the same position:
    not at all, or, for a row that was sent for lookup, by its URL cell
    (the row being padded to three cells first). *)
Definition rowOrigin (row row' : Row) : Prop :=
  row' = row \/ (needsLookup row = true /\ exists aiFoundUrl, row' = setUrl aiFoundUrl row).

(** The merge written as one walk over the chunk: each row needing lookup
    takes the URL of the next response row, the other rows are kept. *)
Fixpoint scatterUrls (chunk : list Row) (aiRows : list Row) : list Row :=
  match chunk with
  | [] => []
  | row :: rest =>
      if needsLookup row then
        match aiRows with
        | aiRow :: more => setUrl (cellOr aiRow 2) row :: scatterUrls rest more
        | [] => row :: scatterUrls rest []
        end
      else row :: scatterUrls rest aiRows
  end.

(** The response rows that [mergeAiResponse] scatters: the cleaned response
    without its first row when the header row is not empty. *)
Definition aiProcessedRowsOnlyOf (headerRow : Row) (uncleaned : JsVal) : option JsVal :=
  match cleanAiNotFoundResponses uncleaned with
  | None => None
  | Some suggestedBatchDataFromAI =>
      if 0 <? length headerRow
      then jsSliceFrom1 suggestedBatchDataFromAI
      else Some suggestedBatchDataFromAI
  end.

(** The requests counted so far for the run, plus the one still owed to the
    current batch while its flag is not set. *)
Definition requestsDue (lv : LoopVars) : nat :=
  currentRunOpApiRequests (runState lv)
  + (if batchApiRequestMadeThisAttempt lv then 0 else 1).

(** The calls made for batch number [b] in attempts [from], ..., [from + n - 1]. *)
Definition callsOfBatch (b from n : nat) : list (nat * nat) :=
  map (fun k => (b, k)) (seq from n).

(** A sheet with one row to look up and one row that has its URL. *)
Definition sampleHeader : Row := ["Organization Name"; "Contact"; "Website URL"].
Definition sampleRows : list Row := [ ["Acme"; "a"; ""]; ["Beta"; "b"; "good.com"] ].
Definition sampleSheet : Dataset := sampleHeader :: sampleRows.

(** A sheet whose rows all have a plausible URL. *)
Definition completeSheet : Dataset :=
  [ sampleHeader; ["Beta"; "b"; "good.com"]; ["Gamma"; "c"; "https://gamma.org/"] ].

(** The response text of the service for [sampleSheet], parsed. *)
Definition sampleAnswer : JsVal :=
  JArr [ JArr [JStr "Organization Name"; JStr "Contact"; JStr "Website URL"];
         JArr [JStr "Acme"; JStr "changed"; JStr "acme.com"; JStr "extra"] ].

(** Three services: one that answers at once, one whose first call is
    rejected (a network error) and whose later calls answer, and one that
    rejects every call. *)
Definition genAnswers (b k : nat) : GenerateContentResult :=
  Text 40 (Some sampleAnswer) [Some "https://source.example/acme"].

Definition genRejectsFirst (b k : nat) : GenerateContentResult :=
  if k =? 0 then Rejected else genAnswers b k.

Definition genAlwaysRejects (b k : nat) : GenerateContentResult := Rejected.

Definition tokens70 (dataToSend : list Row) : nat := 70.

(** Whether a call for batch number [b] is in the record of calls. *)
Definition calledForBatch (b : nat) (calls : list (nat * nat)) : bool :=
  existsb (fun c => fst c =? b) calls.

(** The rank of position [p] among the rows of the chunk sent for lookup. *)
Definition lookupRank (chunk : list Row) (p : nat) : nat :=
  length (filter needsLookup (firstn p chunk)).

(** ** Accounting of a run, as functions of the service's behaviour *)

(** The token count added for the response of one call. *)
Definition responseTokens (result : GenerateContentResult) : nat :=
  match result with
  | Text outputTokenCount _ _ => outputTokenCount
  | _ => 0
  end.

(** Whether the awaited call itself was rejected. *)
Definition isRejected (result : GenerateContentResult) : bool :=
  match result with
  | Rejected => true
  | _ => false
  end.

(** The attempts [r], [r + 1], ... made for a batch when at most [n] are
    left: each failed attempt is followed by the next one. *)
Fixpoint attemptsMade (gen : nat -> nat -> GenerateContentResult) (headerRow : Row)
  (chunk : list Row) (b : nat) (n r : nat) : list nat :=
  match n with
  | 0 => []
  | S n' =>
      r :: (if attemptFails headerRow chunk (gen b r)
            then attemptsMade gen headerRow chunk b n' (S r)
            else [])
  end.

(** Whether all of the attempts [r], ..., [r + n - 1] fail. *)
Definition attemptsAllFail (gen : nat -> nat -> GenerateContentResult) (headerRow : Row)
  (chunk : list Row) (b : nat) (n r : nat) : bool :=
  forallb (fun k => attemptFails headerRow chunk (gen b k)) (seq r n).

(** Whether batch [i] needs the service and fails on each of its
    [MAX_RETRIES + 1] attempts. *)
Definition batchIsSkipped (gen : nat -> nat -> GenerateContentResult) (headerRow : Row)
  (dataRows : list Row) (i : nat) : bool :=
  existsb needsLookup (chunkOf dataRows i)
  && attemptsAllFail gen headerRow (chunkOf dataRows i) (i + 1) (MAX_RETRIES + 1) 0.

(** Whether batch [i] ends up in the request counter: it needs the service
    and either its first call returned, or every attempt failed. *)
Definition batchIsCounted (gen : nat -> nat -> GenerateContentResult) (headerRow : Row)
  (dataRows : list Row) (i : nat) : bool :=
  existsb needsLookup (chunkOf dataRows i)
  && (negb (isRejected (gen (i + 1) 0))
      || attemptsAllFail gen headerRow (chunkOf dataRows i) (i + 1) (MAX_RETRIES + 1) 0).

(** The prompt tokens of batch [i]: those of the header row and the rows to
    look up, nothing for a batch that is not sent. *)
Definition promptTokensOfBatch (countTokens : list Row -> nat) (headerRow : Row)
  (dataRows : list Row) (i : nat) : nat :=
  if existsb needsLookup (chunkOf dataRows i)
  then countTokens (headerRow :: filter needsLookup (chunkOf dataRows i))
  else 0.

(** The merged chunk an attempt produces, if it succeeds. *)
Definition mergedBy (headerRow : Row) (chunk : list Row)
  (result : GenerateContentResult) : option (list Row) :=
  match result with
  | Text _ parsed _ =>
      mergeAiResponse headerRow chunk (itemsRequiringAiLookup chunk) parsed
  | _ => None
  end.

(** The merged chunk of the first successful attempt among [r], ...,
    [r + n - 1], if there is one. *)
Fixpoint firstMerge (gen : nat -> nat -> GenerateContentResult) (headerRow : Row)
  (chunk : list Row) (b : nat) (n r : nat) : option (list Row) :=
  match n with
  | 0 => None
  | S n' =>
      match mergedBy headerRow chunk (gen b r) with
      | Some merged => Some merged
      | None => firstMerge gen headerRow chunk b n' (S r)
      end
  end.

(** What batch [i] contributes to the output: its rows as they are when it
    is not sent or when every attempt fails, the merged chunk of its first
    successful attempt otherwise. *)
Definition batchOutput (gen : nat -> nat -> GenerateContentResult) (headerRow : Row)
  (dataRows : list Row) (i : nat) : list Row :=
  let chunk := chunkOf dataRows i in
  if existsb needsLookup chunk then
    match firstMerge gen headerRow chunk (i + 1) (MAX_RETRIES + 1) 0 with
    | Some merged => merged
    | None => chunk
    end
  else chunk.

(** ** The dossier run as a function of the service's behaviour *)

(** The text and response tokens the dossier generator obtains for data row
    [i]: those of attempt 0 if it returns a text, else those of attempt 1. *)
Definition dossierAnswer (genPro : nat -> nat -> ProResult) (i : nat)
  : option (string * nat) :=
  match genPro i 0 with
  | ProText text outputTokenCount => Some (text, outputTokenCount)
  | _ =>
      match genPro i 1 with
      | ProText text outputTokenCount => Some (text, outputTokenCount)
      | _ => None
      end
  end.

(** The calls made for a named data row [i]. *)
Definition dossierCallsOf (genPro : nat -> nat -> ProResult) (i : nat) : list (nat * nat) :=
  match genPro i 0 with
  | ProText _ _ => [(i, 0)]
  | _ => [(i, 0); (i, 1)]
  end.

Definition hasOrgName (row : Row) : bool := negb (Js.trim (cellOr row 0) =? "")%string.

(** What becomes of data row [i]. *)
Definition dossierRowResult (genPro : nat -> nat -> ProResult) (i : nat) (row : Row) : Row :=
  if hasOrgName row then
    match dossierAnswer genPro i with
    | Some (newDescription, _) =>
        assignCell DESCRIPTION_COL_INDEX newDescription (padTo (DESCRIPTION_COL_INDEX + 1) row)
    | None => row
    end
  else row.

(** The prompt tokens, response tokens, requests and calls that data row
    [i] adds to the operation. *)
Definition dossierInputOf (countPromptTokens : string -> string -> string -> nat)
  (row : Row) : nat :=
  if hasOrgName row
  then countPromptTokens (Js.trim (cellOr row 0)) (Js.trim (cellOr row 2))
         (Js.trim (cellOr row DESCRIPTION_COL_INDEX))
  else 0.

Definition dossierOutputOf (genPro : nat -> nat -> ProResult) (i : nat) (row : Row) : nat :=
  if hasOrgName row
  then match dossierAnswer genPro i with Some (_, tokens) => tokens | None => 0 end
  else 0.

Definition dossierRequestsOf (genPro : nat -> nat -> ProResult) (i : nat) (row : Row) : nat :=
  if hasOrgName row
  then match dossierAnswer genPro i with Some _ => 1 | None => 0 end
  else 0.

Definition dossierCallsOfRow (genPro : nat -> nat -> ProResult) (i : nat) (row : Row)
  : list (nat * nat) :=
  if hasOrgName row then dossierCallsOf genPro i else [].

(** The data rows paired with their indices, from index [k] on. *)
Definition indexedFrom (k : nat) (rows : list Row) : list (nat * Row) :=
  combine (seq k (length rows)) rows.

(** A "pro" service that fails on every call. *)
Definition proAlwaysFails (i k : nat) : ProResult := ProRejected.

(** ** Further JavaScript string primitives *)
Module JsMore.

(** [s.lastIndexOf(c)] for a one-character needle; [None] is [-1]. *)
Fixpoint lastIndexOfChar (s : string) (c : ascii) : option nat :=
  match s with
  | EmptyString => None
  | String d rest =>
      match lastIndexOfChar rest c with
      | Some i => Some (S i)
      | None => if Ascii.eqb d c then Some 0 else None
      end
  end.

End JsMore.

(** ** Domain of an e-mail address *)

Definition extractDomainFromEmail (email : string) : option string :=
  if (email =? "")%string then None
  else
    match JsMore.lastIndexOfChar email "@" with
    | None => None
    | Some atIndex =>
        if atIndex =? String.length email - 1 then None
        else Some (Js.toLowerCase (Js.substringFrom (atIndex + 1) email))
    end.

(** ** Row deletion steps *)

Record DeletionResult : Type := mkDeletion {
  cleanedData : Dataset;
  rowsBefore : nat;
  rowsDeleted : nat
}.

Definition placeholderText : string :=
  Js.toLowerCase
    "Insufficient specific information available on the website to generate a detailed analytical profile for referral matchmaking.".

(** The callback of [dataRows.filter] in
    [performPlaceholderDescRowDeletionLogic]: [true] keeps the row. *)
Definition keptByPlaceholderCheck (row : Row) : bool :=
  let orgName := Js.trim (cellOr row 0) in
  if (orgName =? "")%string then true
  else
    let description :=
      Js.toLowerCase
        (Js.trim (if DESCRIPTION_COL_INDEX <? length row
                  then cellOr row DESCRIPTION_COL_INDEX else "")) in
    if (description =? placeholderText)%string then false else true.

Definition performPlaceholderDescRowDeletionLogic (inputData : Dataset) : DeletionResult :=
  if length inputData <? 2 then
    mkDeletion inputData (if 0 <? length inputData then length inputData - 1 else 0) 0
  else
    let headerRow := hd [] inputData in
    let dataRows := tl inputData in
    let rowsBefore := length dataRows in
    let keptRows := filter keptByPlaceholderCheck dataRows in
    mkDeletion (headerRow :: keptRows) rowsBefore (rowsBefore - length keptRows).

(** The loop that sets [allOtherCellsEmpty], from cell index [i] on: the
    name column and the description column are passed over. *)
Fixpoint allOtherCellsEmptyFrom (i : nat) (cells : list string) : bool :=
  match cells with
  | [] => true
  | cell :: rest =>
      if (i =? 0) || (i =? DESCRIPTION_COL_INDEX) then allOtherCellsEmptyFrom (S i) rest
      else if negb (Js.trim cell =? "")%string then false
      else allOtherCellsEmptyFrom (S i) rest
  end.

(** The callback of [dataRows.filter] in [performMostlyEmptyRowsLogic]. *)
Definition keptByMostlyEmptyCheck (row : Row) : bool :=
  let orgName := Js.trim (cellOr row 0) in
  if (orgName =? "")%string then true
  else if allOtherCellsEmptyFrom 0 row then false else true.

Definition performMostlyEmptyRowsLogic (inputData : Dataset) : DeletionResult :=
  if length inputData <? 2 then
    mkDeletion inputData (if 0 <? length inputData then length inputData - 1 else 0) 0
  else
    let headerRow := hd [] inputData in
    let dataRows := tl inputData in
    let rowsBefore := length dataRows in
    let keptRows := filter keptByMostlyEmptyCheck dataRows in
    mkDeletion (headerRow :: keptRows) rowsBefore (rowsBefore - length keptRows).

(** ** URL pre-fill from the contacts sheet *)

(** [accountCell.substring("accounts::::".length).trim()] *)
Definition orgNameOfAccountCell (accountCell : string) : string :=
  Js.trim (Js.substringFrom 12 accountCell).

(** The [for ... of contactsData.slice(1)] loop for one organization: the
    domain stored at the [break], if the loop reaches one. *)
Fixpoint domainFromContacts (orgName : string) (contacts : list Row) : option string :=
  match contacts with
  | [] => None
  | contactRow :: rest =>
      let accountCell := Js.trim (cellOr contactRow 9) in
      if negb (accountCell =? "")%string
         && Js.startsWith (Js.toLowerCase accountCell) "accounts::::" then
        let contactOrgName := Js.toLowerCase (orgNameOfAccountCell accountCell) in
        if (contactOrgName =? orgName)%string then
          let email := Js.trim (cellOr contactRow 3) in
          if negb (email =? "")%string then
            match extractDomainFromEmail email with
            | Some domain =>
                if (domain =? "")%string then domainFromContacts orgName rest
                else if Js.includes GENERIC_EMAIL_DOMAINS domain
                     then domainFromContacts orgName rest
                     else Some domain
            | None => domainFromContacts orgName rest
            end
          else domainFromContacts orgName rest
        else domainFromContacts orgName rest
      else domainFromContacts orgName rest
  end.

(** Whether the pre-fill leaves the row alone because it has a plausible
    URL that does not end with a generic domain. *)
Definition hasOwnUrl (orgRow : Row) : bool :=
  if isPlausibleUrl (cellOr orgRow 2) then
    let existingUrlDomain := normalizeUrlForComparison (cellOr orgRow 2) in
    negb (existingUrlDomain =? "")%string
    && negb (existsb (fun genDomain => Js.endsWith existingUrlDomain genDomain)
               GENERIC_EMAIL_DOMAINS)
  else false.

(** The body of the loop over the organization rows; the boolean tells
    whether [prefilledCount] is increased. *)
Definition prefillRow (contactsData : list Row) (orgRow : Row) : Row * bool :=
  let orgName := Js.toLowerCase (Js.trim (cellOr orgRow 0)) in
  if (orgName =? "")%string then (orgRow, false)
  else
    let orgRow := padTo 3 orgRow in
    if hasOwnUrl orgRow then (orgRow, false)
    else
      match domainFromContacts orgName (tl contactsData) with
      | Some domain => (assignCell 2 domain orgRow, true)
      | None => (orgRow, false)
      end.

(** The header row gets a third column named "Website URL" when it has
    none. *)
Definition prefillHeader (header : Row) : Row :=
  let header := padTo 3 header in
  if (Js.trim (cellOr header 2) =? "")%string then assignCell 2 "Website URL" header
  else header.

Definition prefillUrlsFromContacts (orgsData contactsData : list Row) : list Row * nat :=
  match orgsData with
  | [] => ([], 0)
  | header :: orgRows =>
      let results := map (prefillRow contactsData) orgRows in
      (prefillHeader header :: map fst results,
       length (filter (fun result => snd result) results))
  end.

(** ** Correction of the contacts sheet *)

(** A [Map<string, string>] from domain to organization name, in insertion
    order. *)
Definition DomainMap := list (string * string).

Fixpoint mapGet (domain : string) (m : DomainMap) : option string :=
  match m with
  | [] => None
  | (key, value) :: rest => if (key =? domain)%string then Some value else mapGet domain rest
  end.

Definition mapHas (domain : string) (m : DomainMap) : bool :=
  match mapGet domain m with
  | Some _ => true
  | None => false
  end.

(** [if (!map.has(domain)) map.set(domain, value)] *)
Definition mapSetIfAbsent (domain value : string) (m : DomainMap) : DomainMap :=
  if mapHas domain m then m else m ++ [(domain, value)].

(** The domain and organization name a contact row contributes in the
    first pass, if it contributes. *)
Definition contactEntry (contactRow : Row) : option (string * string) :=
  let email := Js.trim (cellOr contactRow 3) in
  let accountCell := Js.trim (cellOr contactRow 9) in
  if negb (email =? "")%string && negb (accountCell =? "")%string then
    match extractDomainFromEmail email with
    | Some domain =>
        if negb (domain =? "")%string && negb (Js.includes GENERIC_EMAIL_DOMAINS domain) then
          if Js.startsWith (Js.toLowerCase accountCell) "accounts::::" then
            let orgNameFromCell := orgNameOfAccountCell accountCell in
            if negb (orgNameFromCell =? "")%string then Some (domain, orgNameFromCell)
            else None
          else None
        else None
    | None => None
    end
  else None.

(** Pass 1: building the domain-to-organization map. *)
Definition buildDomainMap (contactsBody : list Row) : DomainMap :=
  fold_left
    (fun m contactRow =>
       match contactEntry contactRow with
       | Some (domain, orgNameFromCell) => mapSetIfAbsent domain orgNameFromCell m
       | None => m
       end)
    contactsBody [].

(** Pass 2 on one row; the boolean tells whether a correction was made. *)
Definition correctContactRow (m : DomainMap) (contactRowToCorrect : Row) : Row * bool :=
  let email := Js.trim (cellOr contactRowToCorrect 3) in
  if negb (email =? "")%string then
    match extractDomainFromEmail email with
    | Some domain =>
        if (domain =? "")%string then (contactRowToCorrect, false)
        else
          match mapGet domain m with
          | Some correctOrgName =>
              let expectedAccountCellValue := ("Accounts::::" ++ correctOrgName)%string in
              let row := padTo 10 contactRowToCorrect in
              let currentAccountCell := Js.trim (cellOr row 9) in
              if negb (Js.toLowerCase currentAccountCell
                       =? Js.toLowerCase expectedAccountCellValue)%string
              then (assignCell 9 expectedAccountCellValue row, true)
              else (row, false)
          | None => (contactRowToCorrect, false)
          end
    | None => (contactRowToCorrect, false)
    end
  else (contactRowToCorrect, false).

Definition correctContactSheetAccountAssignments (originalContactsData : list Row)
  : list Row :=
  if length originalContactsData <? 2 then originalContactsData
  else
    let contactsHeader := hd [] originalContactsData in
    let contactsBody := tl originalContactsData in
    let domainToOrgNameMap := buildDomainMap contactsBody in
    contactsHeader :: map (fun row => fst (correctContactRow domainToOrgNameMap row)) contactsBody.

(** The contact row from which the pre-fill takes a domain for the
    organization named [orgName] (lower case). *)
Definition contactGivesDomain (orgName : string) (contactRow : Row) (domain : string) : Prop :=
  let accountCell := Js.trim (cellOr contactRow 9) in
  Js.startsWith (Js.toLowerCase accountCell) "accounts::::" = true
  /\ Js.toLowerCase (orgNameOfAccountCell accountCell) = orgName
  /\ extractDomainFromEmail (Js.trim (cellOr contactRow 3)) = Some domain
  /\ ~ In domain GENERIC_EMAIL_DOMAINS.

(** The domain of the e-mail address of a contact row. *)
Definition emailDomainOf (contactRow : Row) : option string :=
  extractDomainFromEmail (Js.trim (cellOr contactRow 3)).

(** The organization name of the first contact row that contributes an
    entry for [domain] in the first pass. *)
Fixpoint firstEntry (domain : string) (contactsBody : list Row) : option string :=
  match contactsBody with
  | [] => None
  | contactRow :: rest =>
      match contactEntry contactRow with
      | Some (d, orgNameFromCell) =>
          if (d =? domain)%string then Some orgNameFromCell else firstEntry domain rest
      | None => firstEntry domain rest
      end
  end.

(** A contacts sheet with the e-mail address in column 3 and the account in
    column 9. *)
Definition contactRowOf (email account : string) : Row :=
  ["c"; "First"; "Last"; email; ""; ""; ""; ""; ""; account].

Definition sampleContacts : list Row :=
  [ contactRowOf "Email" "Account";
    contactRowOf "joe@gmail.com" "Accounts::::Acme";
    contactRowOf " Ann@Acme.ORG " "accounts:::: ACME ";
    contactRowOf "bob@acme.org" "Accounts::::Wrong";
    ["d"; "No"; "Mail"] ].

(** Valid entries: what the first pass stores. *)
Definition validEntry (domain o : string) : Prop :=
  ~ In domain GENERIC_EMAIL_DOMAINS /\ o <> "" /\ Js.trim o = o.

(** ** CSV reading and writing *)

Module Csv.

Definition quote : ascii := "034"%char.
Definition newline : ascii := "010"%char.
Definition comma : ascii := ","%char.

(** [text.split('\n')] *)
Fixpoint splitLines (text : string) : list string :=
  match text with
  | EmptyString => [EmptyString]
  | String c rest =>
      if Ascii.eqb c newline then EmptyString :: splitLines rest
      else
        match splitLines rest with
        | first :: others => String c first :: others
        | [] => [String c EmptyString]
        end
  end.

(** The character loop of [parseCSV] on what is left of a line, with the
    field read so far and the quoting state; the fields are returned in the
    order in which they are pushed. *)
Fixpoint parseFields (line : string) (currentField : string) (inQuotes : bool)
  : list string :=
  match line with
  | EmptyString => [Js.trim currentField]
  | String char rest =>
      if Ascii.eqb char quote then
        match rest with
        | String next rest' =>
            if inQuotes && Ascii.eqb next quote
            then parseFields rest' (currentField ++ String quote EmptyString) inQuotes
            else parseFields rest currentField (negb inQuotes)
        | EmptyString => parseFields rest currentField (negb inQuotes)
        end
      else if Ascii.eqb char comma && negb inQuotes then
        Js.trim currentField :: parseFields rest EmptyString inQuotes
      else parseFields rest (currentField ++ String char EmptyString) inQuotes
  end.

(** The [replace] of [stringifyCSV]: every double quote is doubled. *)
Fixpoint escapeQuotes (strField : string) : string :=
  match strField with
  | EmptyString => EmptyString
  | String c rest =>
      if Ascii.eqb c quote then String quote (String quote (escapeQuotes rest))
      else String c (escapeQuotes rest)
  end.

Definition stringifyField (strField : string) : string :=
  if Js.includesChar strField comma || Js.includesChar strField newline
     || Js.includesChar strField quote
  then String quote (escapeQuotes strField ++ String quote EmptyString)
  else strField.

(** [parts.join(sep)] *)
Fixpoint join (sep : string) (parts : list string) : string :=
  match parts with
  | [] => EmptyString
  | [part] => part
  | part :: rest => (part ++ sep ++ join sep rest)%string
  end.

End Csv.

Definition parseCSV (csvText : string) : list Row :=
  let lines :=
    filter (fun line => negb (Js.trim line =? "")%string) (Csv.splitLines csvText) in
  map (fun line => Csv.parseFields line "" false) lines.

Definition stringifyRow (row : Row) : string :=
  Csv.join "," (map Csv.stringifyField row).

Definition stringifyCSV (data : list Row) : string :=
  Csv.join (String Csv.newline "") (map stringifyRow data).

(** A row that [stringifyCSV] prints as a line [parseCSV] does not drop:
    it has two cells or more, or one cell that is not blank. *)
Definition printsVisibleLine (row : Row) : Prop :=
  2 <= length row \/ exists field, row = [field] /\ Js.trim field <> "".

(** What may follow a closing quote: the end of the line or a character
    that is not a quote. *)
Definition afterField (tail : string) : Prop :=
  match tail with
  | EmptyString => True
  | String c _ => Ascii.eqb c Csv.quote = false
  end.

(** ** Merging the rows of one organization *)

Module Merge.

Record Result : Type := mkResult {
  mergedData : Dataset;
  rowsBefore : nat;
  rowsAfter : nat
}.

End Merge.

Definition URL_COL_INDEX : nat := 2.
Definition ORG_NAME_COL_INDEX : nat := 0.

(** [String(row[0] ?? '').trim().toLowerCase()], the grouping key. *)
Definition orgNameLCOf (row : Row) : string :=
  Js.toLowerCase (Js.trim (cellOr row ORG_NAME_COL_INDEX)).

(** The [Map<string, string[][]>] of the groups, in insertion order. *)
Definition Groups := list (string * list Row).

(** [if (!map.has(k)) map.set(k, []); map.get(k).push(row)] *)
Fixpoint groupPush (orgNameLC : string) (row : Row) (groups : Groups) : Groups :=
  match groups with
  | [] => [(orgNameLC, [row])]
  | (key, group) :: rest =>
      if (key =? orgNameLC)%string then (key, group ++ [row]) :: rest
      else (key, group) :: groupPush orgNameLC row rest
  end.

Definition groupStep (groups : Groups) (row : Row) : Groups :=
  let orgNameLC := orgNameLCOf row in
  if (orgNameLC =? "")%string then groups else groupPush orgNameLC row groups.

Definition groupByOrgName (dataRows : list Row) : Groups :=
  fold_left groupStep dataRows [].

(** The trimmed URL and description cells the merge compares. *)
Definition urlCellTrimmed (currentRow : Row) : string :=
  Js.trim (if URL_COL_INDEX <? length currentRow
           then cellOr currentRow URL_COL_INDEX else "").

Definition descCellTrimmed (currentRow : Row) : string :=
  Js.trim (if DESCRIPTION_COL_INDEX <? length currentRow
           then cellOr currentRow DESCRIPTION_COL_INDEX else "").

(** The three variables of the loop that chooses the URL. *)
Record UrlChoice : Type := mkUrlChoice {
  bestRawUrl : string;
  longestUrlLength : Z;
  hasPlausibleUrl : bool
}.

Definition chooseUrlStep (st : UrlChoice) (currentRow : Row) : UrlChoice :=
  let currentRawUrlString := urlCellTrimmed currentRow in
  let len := Z.of_nat (String.length currentRawUrlString) in
  if isPlausibleUrl currentRawUrlString then
    if (len >? longestUrlLength st)%Z
    then mkUrlChoice currentRawUrlString len true
    else mkUrlChoice (bestRawUrl st) (longestUrlLength st) true
  else if negb (hasPlausibleUrl st) && (len >? longestUrlLength st)%Z
  then mkUrlChoice currentRawUrlString len (hasPlausibleUrl st)
  else st.

Definition bestUrlOf (group : list Row) : string :=
  bestRawUrl (fold_left chooseUrlStep group (mkUrlChoice "" (-1) false)).

(** The two variables of the loop that chooses the description. *)
Definition chooseDescStep (st : string * Z) (currentRow : Row) : string * Z :=
  let currentDesc := descCellTrimmed currentRow in
  let len := Z.of_nat (String.length currentDesc) in
  if (len >? snd st)%Z then (currentDesc, len) else st.

Definition bestDescriptionOf (group : list Row) : string :=
  fst (fold_left chooseDescStep group ("", (-1)%Z)).

(** The representative row: the first row that gave the best description,
    else the first row that gave the best URL, else the first row. *)
Definition representativeOf (group : list Row) (bestUrl bestDescription : string) : Row :=
  let byDescription :=
    if negb (bestDescription =? "")%string
    then find (fun currentRow => (descCellTrimmed currentRow =? bestDescription)%string) group
    else None in
  match byDescription with
  | Some currentRow => currentRow
  | None =>
      let byUrl :=
        if negb (bestUrl =? "")%string
        then find (fun currentRow => (urlCellTrimmed currentRow =? bestUrl)%string) group
        else None in
      match byUrl with
      | Some currentRow => currentRow
      | None => hd [] group
      end
  end.

(** The callback of [groupedByOrgNameLC.forEach]: the row pushed for one
    group. *)
Definition mergeGroup (headerRowOriginal : Row) (group : list Row) : Row :=
  match group with
  | [single] => single
  | _ =>
      let originalOrgNameFromFirstRow := Js.trim (cellOr (hd [] group) ORG_NAME_COL_INDEX) in
      let bestUrl := bestUrlOf group in
      let bestDescription := bestDescriptionOf group in
      let representativeRowData := representativeOf group bestUrl bestDescription in
      let requiredLength :=
        Nat.max (Nat.max (Nat.max (length headerRowOriginal) (DESCRIPTION_COL_INDEX + 1))
                   (URL_COL_INDEX + 1))
          (ORG_NAME_COL_INDEX + 1) in
      let mergedRowOutput := padTo requiredLength representativeRowData in
      assignCell DESCRIPTION_COL_INDEX bestDescription
        (assignCell URL_COL_INDEX bestUrl
           (assignCell ORG_NAME_COL_INDEX originalOrgNameFromFirstRow mergedRowOutput))
  end.

Definition maxColsOf (headerRowOriginal : Row) (finalMergedDataRows : list Row) : nat :=
  fold_left (fun maxCols row => Nat.max maxCols (length row)) finalMergedDataRows
    (length headerRowOriginal).

Definition performMergeDuplicatesLogic (inputData : Dataset) : Merge.Result :=
  if length inputData <? 2 then
    Merge.mkResult inputData
      (if 0 <? length inputData then length inputData - 1 else 0)
      (if 0 <? length inputData then length inputData - 1 else 0)
  else
    let headerRowOriginal := hd [] inputData in
    let dataRows := tl inputData in
    let finalMergedDataRows :=
      map (fun entry => mergeGroup headerRowOriginal (snd entry)) (groupByOrgName dataRows) in
    let maxCols := maxColsOf headerRowOriginal finalMergedDataRows in
    Merge.mkResult
      (padTo maxCols headerRowOriginal :: map (padTo maxCols) finalMergedDataRows)
      (length dataRows)
      (length finalMergedDataRows).

(** The rows of the sheet whose grouping key is [orgNameLC], in order. *)
Definition rowsNamed (orgNameLC : string) (dataRows : list Row) : list Row :=
  filter (fun row => (orgNameLCOf row =? orgNameLC)%string) dataRows.

(** The rows the map holds for a key ([[]] when the key is absent). *)
Definition groupOf (orgNameLC : string) (groups : Groups) : list Row :=
  match find (fun entry : string * list Row => (fst entry =? orgNameLC)%string) groups with
  | Some entry => snd entry
  | None => []
  end.

(** A sheet in which one organization has two rows. *)
Definition duplicateSheet : Dataset :=
  [ sampleHeader;
    ["Acme"; "a"; "acme.org"];
    ["Beta"; "b"; "good.com"];
    [" ACME "; "c"; "https://www.acme.org/about"] ].

(** The row the merge returns for it. *)
Definition mergedAcme : Row :=
  ["Acme"; "c"; "https://www.acme.org/about"] ++ repeat "" 61.

(** ** The partition into batches, as the specification words it *)

(** The rows cut into consecutive batches of [size] rows, the last batch
    possibly shorter; no batch is empty.  [fuel] bounds the number of
    batches. *)
Fixpoint contiguousBatchesFuel (fuel size : nat) (rows : list Row) : list (list Row) :=
  match fuel with
  | 0 => []
  | S fuel' =>
      match rows with
      | [] => []
      | _ :: _ => firstn size rows :: contiguousBatchesFuel fuel' size (skipn size rows)
      end
  end.

Definition contiguousBatches (size : nat) (rows : list Row) : list (list Row) :=
  contiguousBatchesFuel (length rows) size rows.

(** * Properties *)

(** ** Classifier *)

Example isPlausibleUrl_scheme_and_www :
  isPlausibleUrl "https://www.gmail.com/" = false
  /\ isPlausibleUrl "  http://www.Example.org/  " = true
  /\ isPlausibleUrl "localhost" = false
  /\ isPlausibleUrl "info@acme.io" = true.
Proof. repeat split; vm_compute; reflexivity. Qed.

(** C9: [isPlausibleUrl] is a total function of its string argument
    (it returns a boolean on every string, and nothing but the string enters
    the computation), and it rejects "gmail.com", accepts "example.com",
    rejects the empty string and rejects "user@gmail.com". *)
Theorem C9_isPlausibleUrl_classifier :
  (forall url : string, isPlausibleUrl url = true \/ isPlausibleUrl url = false)
  /\ isPlausibleUrl "gmail.com" = false
  /\ isPlausibleUrl "example.com" = true
  /\ isPlausibleUrl "" = false
  /\ isPlausibleUrl "user@gmail.com" = false.
Proof.
  split.
  - intro url. destruct (isPlausibleUrl url); [left | right]; reflexivity.
  - repeat split; vm_compute; reflexivity.
Qed.

(** ** Cells and rows *)

Lemma assignCell_length_in_range (j : nat) (v : string) (row : Row) :
  j < length row -> length (assignCell j v row) = length row.
Proof.
  revert row. induction j as [|j IH]; intros [|c rest] H; simpl in *; try lia.
  rewrite IH; lia.
Qed.

Lemma assignCell_same (j : nat) (v : string) (row : Row) :
  nth_error (assignCell j v row) j = Some v.
Proof.
  revert row. induction j as [|j IH]; intros [|c rest]; simpl; auto.
Qed.

Lemma assignCell_other (j k : nat) (v : string) (row : Row) :
  j < length row -> k <> j -> nth_error (assignCell j v row) k = nth_error row k.
Proof.
  revert k row. induction j as [|j IH]; intros k [|c rest] Hlt Hne; simpl in *; try lia.
  - destruct k; [lia | reflexivity].
  - destruct k; [reflexivity | simpl; apply IH; lia].
Qed.

Lemma cellOr_nth_error (row : Row) (j : nat) (c : string) :
  nth_error row j = Some c -> cellOr row j = c.
Proof. intro H. unfold cellOr. now apply nth_error_nth. Qed.

Lemma nth_error_cellOr (row : Row) (j : nat) :
  j < length row -> nth_error row j = Some (cellOr row j).
Proof. intro H. unfold cellOr. now apply nth_error_nth'. Qed.

Lemma trim_empty : Js.trim "" = "".
Proof. reflexivity. Qed.

Lemma includes_In (arr : list string) (x : string) :
  Js.includes arr x = true <-> In x arr.
Proof.
  unfold Js.includes. rewrite existsb_exists. split.
  - intros [y [Hin Heq]]. apply String.eqb_eq in Heq. now subst.
  - intro Hin. exists x. split; [assumption | apply String.eqb_refl].
Qed.

(** ** Response cleaner *)

(** What [cleanRow] does to each cell of a row. *)
Lemma cleanRow_cells (row : Row) (j : nat) :
  nth_error (cleanRow row) j = nth_error row j
  \/ (j = 2 /\ nth_error (cleanRow row) j = Some ""
      /\ exists c, nth_error row j = Some c
                   /\ In (Js.toLowerCase (Js.trim c)) notFoundPlaceholders).
Proof.
  unfold cleanRow.
  destruct (2 <? length row) eqn:Hlen; [| now left].
  apply Nat.ltb_lt in Hlen.
  destruct (negb (Js.trim (cellOr row 2) =? "")%string); [| now left].
  destruct (Js.includes notFoundPlaceholders (Js.toLowerCase (Js.trim (cellOr row 2))))
    eqn:Hinc; [| now left].
  destruct (Nat.eq_dec j 2) as [-> | Hne].
  - right. split; [reflexivity |]. split; [apply assignCell_same |].
    exists (cellOr row 2). split; [now apply nth_error_cellOr | now apply includes_In].
  - left. now apply assignCell_other.
Qed.

Lemma cleanRow_idempotent (row : Row) : cleanRow (cleanRow row) = cleanRow row.
Proof.
  assert (Hcases : cleanRow row = row
                   \/ (cleanRow row = assignCell 2 "" row /\ 2 < length row)).
  { unfold cleanRow. destruct (2 <? length row) eqn:Hlen; [| now left].
    destruct (negb (Js.trim (cellOr row 2) =? "")%string); [| now left].
    destruct (Js.includes notFoundPlaceholders (Js.toLowerCase (Js.trim (cellOr row 2))));
      [right | now left].
    split; [reflexivity | now apply Nat.ltb_lt]. }
  destruct Hcases as [Hsame | [Hblank Hlen]].
  - now rewrite !Hsame.
  - rewrite Hblank. unfold cleanRow.
    rewrite assignCell_length_in_range by assumption.
    apply Nat.ltb_lt in Hlen. rewrite Hlen.
    rewrite (cellOr_nth_error _ 2 "" (assignCell_same 2 "" row)).
    reflexivity.
Qed.

Lemma cleanDataRows_idempotent (data : list Row) :
  cleanDataRows (cleanDataRows data) = cleanDataRows data.
Proof.
  destruct data as [|header dataRows]; simpl; [reflexivity |].
  f_equal. rewrite map_map. apply map_ext. intro row. apply cleanRow_idempotent.
Qed.

Lemma cleanDataRows_length (data : list Row) :
  length (cleanDataRows data) = length data.
Proof. destruct data; simpl; [reflexivity | now rewrite length_map]. Qed.

Lemma cleanDataRows_cells (data : list Row) (i j : nat) :
  cellAt (cleanDataRows data) i j = cellAt data i j
  \/ (1 <= i /\ j = 2 /\ cellAt (cleanDataRows data) i j = Some ""
      /\ exists c, cellAt data i j = Some c
                   /\ In (Js.toLowerCase (Js.trim c)) notFoundPlaceholders).
Proof.
  unfold cellAt. destruct data as [|header dataRows]; [now left |].
  destruct i as [|i]; simpl; [now left |].
  rewrite nth_error_map.
  destruct (nth_error dataRows i) as [row|]; simpl; [| now left].
  destruct (cleanRow_cells row j) as [Heq | (Hj & Hblank & Hc)]; [now left |].
  right. repeat split; try assumption. lia.
Qed.

Lemma stringOfCell_JStr (row : Row) : map stringOfCell (map JStr row) = row.
Proof. rewrite map_map. simpl. apply map_id. Qed.

Lemma mapThrowing_copy_ofRows (data : list Row) :
  mapThrowing copyRowAsStrings (map ofRow data) = Some data.
Proof.
  induction data as [|row rest IH]; simpl; [reflexivity |].
  rewrite stringOfCell_JStr, IH. reflexivity.
Qed.

(** On a [string[][]] argument the cleaner does not throw and returns a
    [string[][]]. *)
Lemma cleanAiNotFoundResponses_ofRows (data : list Row) :
  cleanAiNotFoundResponses (ofRows data) = Some (ofRows (cleanDataRows data)).
Proof.
  destruct data as [|header dataRows]; [reflexivity |].
  unfold cleanAiNotFoundResponses, ofRows.
  cbn [truthy negb lengthIsZero orb map length Nat.eqb].
  rewrite <- (map_cons ofRow header dataRows), mapThrowing_copy_ofRows.
  reflexivity.
Qed.

(** Idempotence on any parsed JSON value: a result of the cleaner is left
    as it is by a second pass. *)
Lemma cleanAiNotFoundResponses_idempotent_any (data cleaned : JsVal) :
  cleanAiNotFoundResponses data = Some cleaned ->
  cleanAiNotFoundResponses cleaned = Some cleaned.
Proof.
  unfold cleanAiNotFoundResponses at 1.
  destruct (negb (truthy data) || lengthIsZero data) eqn:Hearly.
  - intro H. injection H as <-. unfold cleanAiNotFoundResponses. now rewrite Hearly.
  - destruct data as [| | | | rows |]; try discriminate.
    destruct (mapThrowing copyRowAsStrings rows) as [cleanedData|]; [| discriminate].
    intro H. injection H as <-.
    rewrite cleanAiNotFoundResponses_ofRows, cleanDataRows_idempotent. reflexivity.
Qed.

Example cleaner_exact_match_only :
  cleanAiNotFoundResponses
    (ofRows [ ["Name"; "Contact"; "Website URL"];
              ["A"; "x"; "  URL_NOT_FOUND "];
              ["B"; "n/a"; "url not found yet"];
              ["C"; "null"] ])
  = Some (ofRows [ ["Name"; "Contact"; "Website URL"];
                   ["A"; "x"; ""];
                   ["B"; "n/a"; "url not found yet"];
                   ["C"; "null"] ]).
Proof. vm_compute. reflexivity. Qed.

(** C8: the response cleaner is idempotent on every row array; a cell that
    it changes is the cell at index 2 of a data row (never the header, never
    another column), it is replaced by the empty string, and its trimmed,
    lower-cased value is equal to one of the placeholder strings. *)
Theorem C8_cleaner_idempotent_exact_frame :
  forall data : list Row,
  exists cleaned : list Row,
    cleanAiNotFoundResponses (ofRows data) = Some (ofRows cleaned)
    /\ cleanAiNotFoundResponses (ofRows cleaned) = Some (ofRows cleaned)
    /\ length cleaned = length data
    /\ (forall i j,
          cellAt cleaned i j = cellAt data i j
          \/ (1 <= i /\ j = 2 /\ cellAt cleaned i j = Some ""
              /\ exists c, cellAt data i j = Some c
                           /\ In (Js.toLowerCase (Js.trim c)) notFoundPlaceholders)).
Proof.
  intro data. exists (cleanDataRows data).
  split; [apply cleanAiNotFoundResponses_ofRows |].
  split; [rewrite cleanAiNotFoundResponses_ofRows, cleanDataRows_idempotent; reflexivity |].
  split; [apply cleanDataRows_length |].
  intros i j. apply cleanDataRows_cells.
Qed.

(** ** Cost accountant *)

Lemma num_sub (a b : nat) : b <= a -> (num (a - b) == num a - num b)%Q.
Proof.
  intro H. unfold num. rewrite Nat2Z.inj_sub by assumption.
  unfold Z.sub. rewrite inject_Z_plus, inject_Z_opp. reflexivity.
Qed.

Lemma groundingTerm_free_tier (apiRequests : nat) :
  apiRequests <= FLASH_FREE_GROUNDING_REQUESTS_PER_DAY ->
  (groundingTerm apiRequests == 0)%Q.
Proof.
  intro H. unfold groundingTerm.
  replace (apiRequests - FLASH_FREE_GROUNDING_REQUESTS_PER_DAY) with 0 by lia.
  reflexivity.
Qed.

(** The estimator prices grounding against the session's request total:
    it charges what the new requests add to the grounding bill of the day. *)
Lemma estimatedGroundingCost_session (totalApiRequestsMade totalEstimatedApiRequests : nat) :
  (estimatedGroundingCost totalApiRequestsMade totalEstimatedApiRequests
   == groundingTerm (totalApiRequestsMade + totalEstimatedApiRequests)
      - groundingTerm totalApiRequestsMade)%Q.
Proof.
  unfold estimatedGroundingCost.
  set (free := FLASH_FREE_GROUNDING_REQUESTS_PER_DAY).
  set (total := totalApiRequestsMade).
  set (potential := total + totalEstimatedApiRequests).
  assert (Hle : total - free <= potential - free) by (subst potential; lia).
  destruct (free <? potential) eqn:Hover.
  - destruct (0 <? potential - free - (total - free)) eqn:Hbill.
    + unfold groundingTerm. fold free. rewrite (num_sub _ _ Hle). field.
    + apply Nat.ltb_ge in Hbill.
      unfold groundingTerm. fold free.
      replace (potential - free) with (total - free) by lia. ring.
  - apply Nat.ltb_ge in Hover.
    rewrite !groundingTerm_free_tier by (unfold free in *; lia). ring.
Qed.

(** C6, as stated, fails: with 2500 requests and no tokens the formula of
    the specification gives 35 dollars of grounding, [calculateOperationCost]
    gives 0. *)
Lemma C6_grounding_not_in_operation_cost :
  (calculateOperationCost 0 0 2500 flash == 0)%Q
  /\ (specEstimateCostFlash 0 0 2500 == 35)%Q
  /\ ~ (calculateOperationCost 0 0 2500 flash == specEstimateCostFlash 0 0 2500)%Q.
Proof.
  split; [vm_compute; reflexivity |].
  split; [vm_compute; reflexivity |].
  vm_compute. discriminate.
Qed.

(** C6, amended: for the flash model the operation cost is the input cost
    plus the output cost, [inputTokens/1e6 * 0.15 + outputTokens/1e6 * 3.50],
    whatever [apiRequests] is; the formula of the specification exceeds it
    by exactly the grounding term. *)
Theorem C6_operation_cost_flash :
  forall inputTokens outputTokens apiRequests : nat,
    (calculateOperationCost inputTokens outputTokens apiRequests flash
     == num inputTokens / 1000000 * (15 # 100)
        + num outputTokens / 1000000 * (350 # 100))%Q
    /\ (specEstimateCostFlash inputTokens outputTokens apiRequests
        == calculateOperationCost inputTokens outputTokens apiRequests flash
           + groundingTerm apiRequests)%Q.
Proof.
  intros inputTokens outputTokens apiRequests.
  unfold calculateOperationCost, specEstimateCostFlash,
    FLASH_PRICE_INPUT_PER_MILLION_TOKENS,
    FLASH_PRICE_OUTPUT_THINKING_PER_MILLION_TOKENS.
  split; reflexivity.
Qed.

(** ** Dossier generation run *)

Section DossierFacts.

Variable genPro : nat -> nat -> ProResult.
Variable countPromptTokens : string -> string -> string -> nat.

Lemma dossierFrame_refl (touched : nat -> Prop) (st : DossierState) :
  dossierFrame touched st st.
Proof. unfold dossierFrame. repeat split; auto. Qed.

Lemma dossierFrame_trans (t1 t2 t3 : nat -> Prop) (a b c : DossierState) :
  (forall j, t1 j -> t3 j) -> (forall j, t2 j -> t3 j) ->
  dossierFrame t1 a b -> dossierFrame t2 b c -> dossierFrame t3 a c.
Proof.
  intros H13 H23 (Hs1 & Hr1 & Hc1 & Hl1) (Hs2 & Hr2 & Hc2 & Hl2).
  unfold dossierFrame. repeat split.
  - congruence.
  - intros j Hj. rewrite Hr2, Hr1; auto.
  - intros j k Hin. destruct (Hc2 j k Hin) as [Hb | Ht]; [| auto].
    destruct (Hc1 j k Hb); auto.
  - auto.
Qed.

Lemma updateRow_other (k j : nat) (f : Row -> Row) (rows : list Row) :
  j <> k -> nth_error (updateRow k f rows) j = nth_error rows j.
Proof.
  revert j rows. induction k as [|k IH]; intros j [|r rest] Hne; simpl; auto.
  - destruct j; [lia | reflexivity].
  - destruct j; [reflexivity | simpl; apply IH; lia].
Qed.

(** The retry loop of the dossier generator ends within its two attempts,
    and touches nothing but the call record and the counters. *)
Lemma dossierRetryLoop_frame (i inputTokensForCall : nat) :
  forall fuel retries st,
    MAX_PRO_RETRIES + 1 <= fuel + retries ->
    exists result st',
      dossierRetryLoop genPro fuel i inputTokensForCall retries st = Some (result, st')
      /\ dossierRows st' = dossierRows st
      /\ activityLog st' = activityLog st
      /\ dossierFrame (fun j => j = i) st st'.
Proof.
  induction fuel as [|fuel IH]; intros retries st Hfuel.
  - simpl. destruct (retries <=? MAX_PRO_RETRIES) eqn:Hle.
    + apply Nat.leb_le in Hle. lia.
    + exists None, st. split4; auto using dossierFrame_refl.
  - simpl. destruct (retries <=? MAX_PRO_RETRIES) eqn:Hle.
    2:{ exists None, st. split4; auto using dossierFrame_refl. }
    assert (Hcalled : dossierFrame (fun j => j = i) st (recordProCall (i, retries) st)).
    { unfold dossierFrame, recordProCall; simpl. split4; auto.
      intros j k Hin. apply in_app_or in Hin. destruct Hin as [Hin | [Heq | []]]; auto.
      injection Heq as <- _. now right. }
    assert (Hfail :
      exists result st',
        (if MAX_PRO_RETRIES <? retries + 1
         then Some (None, recordProCall (i, retries) st)
         else dossierRetryLoop genPro fuel i inputTokensForCall (retries + 1)
                (recordProCall (i, retries) st)) = Some (result, st')
        /\ dossierRows st' = dossierRows st
        /\ activityLog st' = activityLog st
        /\ dossierFrame (fun j => j = i) st st').
    { destruct (MAX_PRO_RETRIES <? retries + 1) eqn:Hlast.
      - exists None, (recordProCall (i, retries) st). split4; auto.
      - destruct (IH (retries + 1) (recordProCall (i, retries) st)) as
          (result & st' & Hrun & Hrows & Hlog & Hframe); [lia |].
        exists result, st'. split4; auto.
        eapply dossierFrame_trans; [| | exact Hcalled | exact Hframe]; auto. }
    destruct (genPro i retries) as [| | text outputTokensForCall]; try exact Hfail.
    eexists _, _. split4; [reflexivity | reflexivity | reflexivity |].
    destruct Hcalled as (Hs & Hr & Hc & Hl). unfold dossierFrame. split4; auto.
Qed.

Lemma addLog_frame (touched : nat -> Prop) (entry : DossierLog) (st : DossierState) :
  dossierFrame touched st (addLog entry st).
Proof.
  unfold dossierFrame, addLog; simpl. split4; auto.
  intros e Hin. apply in_or_app. now left.
Qed.

Lemma updateOpStats_frame (touched : nat -> Prop) (input output requests : nat)
  (cost : Q) (st : DossierState) :
  dossierFrame touched st (updateOpStats input output requests cost st).
Proof. unfold dossierFrame, updateOpStats; simpl. split4; auto. Qed.

Lemma storeDescription_frame (i : nat) (f : Row -> Row) (st : DossierState) :
  dossierFrame (fun j => j = i) st
    (mkDossier (updateRow i f (dossierRows st)) (dossierStats st)
       (activityLog st) (proCalls st)).
Proof.
  unfold dossierFrame; simpl. split4; auto.
  intros j Hj. now apply updateRow_other.
Qed.

Lemma dossierFrame_step (touched : nat -> Prop) (a b c : DossierState) :
  dossierFrame touched a b -> dossierFrame touched b c -> dossierFrame touched a c.
Proof. apply dossierFrame_trans; auto. Qed.

Lemma processDossierRow_frame (i : nat) (st : DossierState) :
  exists st', processDossierRow genPro countPromptTokens i st = Some st'
              /\ dossierFrame (fun j => j = i) st st'.
Proof.
  unfold processDossierRow, generateDetailedDescriptionForOrganization. cbv zeta.
  set (row := nth i (dossierRows st) []).
  set (st0 := addLog (LogGenerating i) st).
  assert (F0 : dossierFrame (fun j => j = i) st st0) by apply addLog_frame.
  destruct (Js.trim (cellOr row 0) =? "")%string.
  - eexists. split; [reflexivity |].
    eapply dossierFrame_step; [exact F0 | apply addLog_frame].
  - set (tok := countPromptTokens _ _ _).
    set (st1 := updateOpStats tok 0 0 _ st0).
    assert (F1 : dossierFrame (fun j => j = i) st st1).
    { eapply dossierFrame_step; [exact F0 | apply updateOpStats_frame]. }
    destruct (dossierRetryLoop_frame i tok (MAX_PRO_RETRIES + 1) 0 st1) as
      (result & st2 & Hrun & _ & _ & F2); [lia |].
    rewrite Hrun.
    assert (F12 : dossierFrame (fun j => j = i) st st2).
    { eapply dossierFrame_step; [exact F1 | exact F2]. }
    destruct result as [newDescription |].
    + eexists. split; [reflexivity |].
      eapply dossierFrame_step; [exact F12 |].
      eapply dossierFrame_step; [apply storeDescription_frame | apply addLog_frame].
    + eexists. split; [reflexivity |].
      eapply dossierFrame_step; [exact F12 | apply addLog_frame].
Qed.

(** A row without organization name is passed over: a log entry, no call,
    no change to the data. *)
Lemma processDossierRow_missing_name (i : nat) (st : DossierState) :
  Js.trim (cellOr (nth i (dossierRows st) []) 0) = "" ->
  processDossierRow genPro countPromptTokens i st
  = Some (addLog (LogSkippingMissingName i) (addLog (LogGenerating i) st)).
Proof.
  intro Hname. unfold processDossierRow. simpl. rewrite Hname. reflexivity.
Qed.

Lemma nth_of_nth_error_eq (rows rows' : list Row) (i : nat) :
  nth_error rows' i = nth_error rows i -> nth i rows' [] = nth i rows [].
Proof.
  intro H. rewrite <- !nth_default_eq. unfold nth_default. now rewrite H.
Qed.

Lemma forDossierRows_frame :
  forall indices st,
    NoDup indices ->
    exists st',
      forDossierRows genPro countPromptTokens indices st = Some st'
      /\ dossierFrame (fun j => In j indices) st st'
      /\ (forall i,
            In i indices ->
            Js.trim (cellOr (nth i (dossierRows st) []) 0) = "" ->
            (forall k, In (i, k) (proCalls st') -> In (i, k) (proCalls st))
            /\ In (LogSkippingMissingName i) (activityLog st')
            /\ nth_error (dossierRows st') i = nth_error (dossierRows st) i).
Proof.
  induction indices as [|a rest IH]; intros st Hnodup.
  - exists st. simpl. split; [reflexivity |]. split; [apply dossierFrame_refl |].
    intros i [].
  - inversion Hnodup as [| ? ? Hnotin Hnodup']; subst.
    destruct (processDossierRow_frame a st) as (st1 & Hstep & Hframe1).
    destruct (IH st1 Hnodup') as (st' & Hrun & Hframe2 & Hskip).
    exists st'. simpl. rewrite Hstep. split; [exact Hrun |].
    split.
    { eapply dossierFrame_trans; [| | exact Hframe1 | exact Hframe2].
      - intros j ->. now left.
      - intros j Hj. now right. }
    intros i Hin Hname.
    destruct (Nat.eq_dec i a) as [-> | Hne].
    + rewrite (processDossierRow_missing_name a st Hname) in Hstep.
      injection Hstep as <-.
      destruct Hframe2 as (_ & Hr2 & Hc2 & Hl2).
      repeat split.
      * intros k Hk. destruct (Hc2 a k Hk) as [Hold | Hbad]; [exact Hold | contradiction].
      * apply Hl2. simpl. apply in_or_app. right. now left.
      * rewrite Hr2 by assumption. reflexivity.
    + destruct Hin as [Heq | Hin]; [congruence |].
      destruct Hframe1 as (_ & Hr1 & Hc1 & _).
      assert (Hrow : nth_error (dossierRows st1) i = nth_error (dossierRows st) i)
        by (apply Hr1; congruence).
      destruct (Hskip i Hin) as (Hcalls & Hlog & Hrows).
      { rewrite (nth_of_nth_error_eq _ _ _ Hrow). exact Hname. }
      repeat split.
      * intros k Hk. destruct (Hc1 i k (Hcalls k Hk)) as [Hold | Hbad];
          [exact Hold | congruence].
      * exact Hlog.
      * congruence.
Qed.

End DossierFacts.

(** C5, as stated, fails: on a sheet whose first data row has no
    organization name the dossier run ends with status ['completed'], not
    ['error'], and it went on to generate the dossier of the next row. *)
Lemma C5_missing_name_is_not_an_error :
  exists st,
    handleGenerateFullDescriptions proAlwaysAnswers promptTokens100 sheetWithUnnamedRow
    = Finished st
    /\ status (dossierStats st) = completed
    /\ status (dossierStats st) <> error
    /\ proCalls st = [(1, 0)]
    /\ activityLog st = [ LogGenerating 0; LogSkippingMissingName 0;
                          LogGenerating 1; LogUpdatedDescription 1 ].
Proof.
  eexists. split; [vm_compute; reflexivity |].
  cbn. repeat split. discriminate.
Qed.

(** C5, amended: a data row without organization name is skipped by the
    dossier run: no request is made for it (so nothing is retried), the skip
    is written to the activity log, the row is left as it was, the run goes
    on to its end and the operation status is then ['completed']. *)
Theorem C5_missing_name_row_skipped :
  forall (genPro : nat -> nat -> ProResult)
         (countPromptTokens : string -> string -> string -> nat)
         (dataToProcess : Dataset) (i : nat) (row : Row),
    2 <= length dataToProcess ->
    nth_error (tl dataToProcess) i = Some row ->
    Js.trim (cellOr row 0) = "" ->
    exists st,
      handleGenerateFullDescriptions genPro countPromptTokens dataToProcess = Finished st
      /\ status (dossierStats st) = completed
      /\ (forall k, ~ In (i, k) (proCalls st))
      /\ In (LogSkippingMissingName i) (activityLog st)
      /\ nth_error (dossierRows st) i = Some row.
Proof.
  intros genPro countPromptTokens dataToProcess i row Hlen Hrow Hname.
  unfold handleGenerateFullDescriptions.
  apply Nat.ltb_ge in Hlen. rewrite Hlen. cbv zeta.
  set (dataRows := tl dataToProcess) in *.
  set (st0 := mkDossier dataRows _ [] []).
  destruct (forDossierRows_frame genPro countPromptTokens
              (seq 0 (length dataRows)) st0 (seq_NoDup _ _))
    as (st & Hrun & _ & Hskip).
  rewrite Hrun. eexists. split; [reflexivity |]. simpl.
  assert (Hi : In i (seq 0 (length dataRows))).
  { apply in_seq. split; [lia |]. simpl. apply nth_error_Some. congruence. }
  destruct (Hskip i Hi) as (Hcalls & Hlog & Hrows).
  { simpl. rewrite (nth_error_nth _ _ _ Hrow). exact Hname. }
  split4; [reflexivity | | exact Hlog |].
  - intros k Hk. exact (Hcalls k Hk).
  - rewrite Hrows. exact Hrow.
Qed.

Lemma C5_missing_name_row_skipped_witness :
  exists st,
    handleGenerateFullDescriptions proAlwaysAnswers promptTokens100 sheetWithUnnamedRow
    = Finished st
    /\ status (dossierStats st) = completed
    /\ (forall k, ~ In (0, k) (proCalls st))
    /\ In (LogSkippingMissingName 0) (activityLog st)
    /\ nth_error (dossierRows st) 0 = Some [""; "x"; "acme.com"].
Proof.
  apply (C5_missing_name_row_skipped proAlwaysAnswers promptTokens100
           sheetWithUnnamedRow 0 [""; "x"; "acme.com"]).
  - simpl. lia.
  - reflexivity.
  - reflexivity.
Defined.

(** ** Merging a response into a chunk *)

Lemma padTo_length (n : nat) (row : Row) : n <= length (padTo n row).
Proof. unfold padTo. rewrite length_app, repeat_length. lia. Qed.

Lemma cellOr_padTo (n : nat) (row : Row) (j : nat) :
  cellOr (padTo n row) j = cellOr row j.
Proof.
  unfold cellOr, padTo.
  destruct (Nat.lt_ge_cases j (length row)) as [Hlt | Hge].
  - now rewrite app_nth1.
  - rewrite app_nth2 by assumption. rewrite (nth_overflow row) by assumption.
    destruct (Nat.lt_ge_cases (j - length row) (length (repeat "" (n - length row))))
      as [Hin | Hout].
    + apply (repeat_spec (n - length row) ""). now apply nth_In.
    + now apply nth_overflow.
Qed.

Lemma cellOr_setUrl_url (aiFoundUrl : string) (row : Row) :
  cellOr (setUrl aiFoundUrl row) 2 = aiFoundUrl.
Proof. apply cellOr_nth_error. apply assignCell_same. Qed.

Lemma cellOr_setUrl_other (aiFoundUrl : string) (row : Row) (j : nat) :
  j <> 2 -> cellOr (setUrl aiFoundUrl row) j = cellOr row j.
Proof.
  intro Hne. unfold setUrl.
  rewrite <- (cellOr_padTo 3 row j).
  unfold cellOr at 1 2. rewrite <- !nth_default_eq. unfold nth_default.
  rewrite assignCell_other; [reflexivity | | assumption].
  pose proof (padTo_length 3 row). lia.
Qed.

Lemma rowOrigin_cells (row row' : Row) (j : nat) :
  rowOrigin row row' -> j <> 2 -> cellOr row' j = cellOr row j.
Proof.
  intros [-> | [_ [u ->]]] Hne; [reflexivity | now apply cellOr_setUrl_other].
Qed.

Lemma rowOrigin_plausible (row row' : Row) :
  rowOrigin row row' -> isPlausibleUrl (cellOr row 2) = true -> row' = row.
Proof.
  intros [-> | [Hneeds _]] Hplausible; [reflexivity |].
  unfold needsLookup in Hneeds. rewrite Hplausible in Hneeds. discriminate.
Qed.

Lemma scatterUrls_nil (chunk : list Row) : scatterUrls chunk [] = chunk.
Proof.
  induction chunk as [|row rest IH]; simpl; [reflexivity |].
  destruct (needsLookup row); now rewrite IH.
Qed.

Lemma scatterUrls_length (chunk aiRows : list Row) :
  length (scatterUrls chunk aiRows) = length chunk.
Proof.
  revert aiRows. induction chunk as [|row rest IH]; intro aiRows; simpl; [reflexivity |].
  destruct (needsLookup row); [destruct aiRows |]; simpl; now rewrite IH.
Qed.

Lemma scatterUrls_rowOrigin (chunk aiRows : list Row) :
  Forall2 rowOrigin chunk (scatterUrls chunk aiRows).
Proof.
  revert aiRows. induction chunk as [|row rest IH]; intro aiRows; simpl; [constructor |].
  destruct (needsLookup row) eqn:Hneeds; [destruct aiRows as [|aiRow more] |];
    constructor; try apply IH; try (now left).
  right. split; [assumption | now exists (cellOr aiRow 2)].
Qed.

Lemma aiFoundUrlOf_strings (aiRow : Row) :
  aiFoundUrlOf (map JStr aiRow) = cellOr aiRow 2.
Proof.
  unfold aiFoundUrlOf, cellOr. rewrite nth_error_map.
  rewrite <- nth_default_eq. unfold nth_default.
  destruct (nth_error aiRow 2); reflexivity.
Qed.

Lemma updateRow_middle (f : Row -> Row) (pre : list Row) (row : Row) (rest : list Row) :
  updateRow (length pre) f (pre ++ row :: rest) = pre ++ f row :: rest.
Proof. induction pre as [|r pre IH]; simpl; [reflexivity | now rewrite IH]. Qed.

Lemma nth_error_middle {A : Type} (pre : list A) (x : A) (rest : list A) :
  nth_error (pre ++ x :: rest) (length pre) = Some x.
Proof. induction pre; simpl; auto. Qed.

(** The index-driven [forEach] of the source and the single walk over the
    chunk give the same merged chunk. *)
Lemma forEachAiRow_scatter :
  forall (chunk : list Row) (pre : list Row) (preItems : list LookupItem) (aiRows : list Row),
    length aiRows = length (itemsRequiringAiLookupFrom (length pre) chunk) ->
    forEachAiRow (preItems ++ itemsRequiringAiLookupFrom (length pre) chunk)
      (length preItems) (map ofRow aiRows) (pre ++ chunk)
    = Some (pre ++ scatterUrls chunk aiRows).
Proof.
  induction chunk as [|row rest IH]; intros pre preItems aiRows Hlen.
  - simpl in *. destruct aiRows; [reflexivity | discriminate].
  - simpl in *. destruct (needsLookup row) eqn:Hneeds.
    + destruct aiRows as [|aiRow more]; [discriminate |].
      simpl in Hlen. injection Hlen as Hlen.
      cbn [map forEachAiRow ofRow].
      rewrite nth_error_middle. cbn [originalIndexInChunk].
      rewrite updateRow_middle, aiFoundUrlOf_strings.
      specialize (IH (pre ++ [setUrl (cellOr aiRow 2) row])
                     (preItems ++ [mkItem (length pre) row]) more).
      rewrite !length_app in IH. simpl in IH.
      rewrite !Nat.add_1_r in IH. rewrite <- !app_assoc in IH. simpl in IH.
      apply IH. exact Hlen.
    + specialize (IH (pre ++ [row]) preItems aiRows).
      rewrite !length_app in IH. simpl in IH.
      rewrite !Nat.add_1_r in IH. rewrite <- !app_assoc in IH. simpl in IH.
      apply IH. exact Hlen.
Qed.

Lemma tl_map {A B : Type} (f : A -> B) (l : list A) : tl (map f l) = map f (tl l).
Proof. destruct l; reflexivity. Qed.

(** A cleaned response that is an array is an array of rows of strings. *)
Lemma cleaned_array_shape (uncleaned : JsVal) (rows : list JsVal) :
  cleanAiNotFoundResponses uncleaned = Some (JArr rows) ->
  exists cleanedData : list Row, rows = map ofRow cleanedData.
Proof.
  unfold cleanAiNotFoundResponses.
  destruct (negb (truthy uncleaned) || lengthIsZero uncleaned) eqn:Hearly.
  - intro H. injection H as ->. simpl in Hearly.
    destruct rows; [now exists [] | discriminate].
  - destruct uncleaned as [| | | | items |]; try discriminate.
    destruct (mapThrowing copyRowAsStrings items) as [cleanedData|]; [| discriminate].
    intro H. injection H as <-. now exists (cleanDataRows cleanedData).
Qed.

(** The rows sent for lookup are the rows of the chunk that fail the
    classifier, in order. *)
Lemma rowData_itemsRequiringAiLookupFrom (index : nat) (chunk : list Row) :
  map rowData (itemsRequiringAiLookupFrom index chunk) = filter needsLookup chunk.
Proof.
  revert index. induction chunk as [|row rest IH]; intro index; simpl; [reflexivity |].
  destruct (needsLookup row); simpl; now rewrite IH.
Qed.

Lemma length_itemsRequiringAiLookup (chunk : list Row) :
  length (itemsRequiringAiLookup chunk) = length (filter needsLookup chunk).
Proof.
  unfold itemsRequiringAiLookup.
  rewrite <- (rowData_itemsRequiringAiLookupFrom 0 chunk). now rewrite length_map.
Qed.

(** A successful merge is the scatter of the cleaned response rows. *)
Lemma mergeAiResponse_scatter (headerRow : Row) (chunk : list Row)
  (parsed : option JsVal) (merged : list Row) :
  mergeAiResponse headerRow chunk (itemsRequiringAiLookup chunk) parsed = Some merged ->
  exists (uncleaned : JsVal) (aiRows : list Row),
    parsed = Some uncleaned
    /\ aiProcessedRowsOnlyOf headerRow uncleaned = Some (ofRows aiRows)
    /\ length aiRows = length (filter needsLookup chunk)
    /\ merged = scatterUrls chunk aiRows.
Proof.
  unfold mergeAiResponse, aiProcessedRowsOnlyOf.
  destruct parsed as [uncleaned |]; [| discriminate].
  destruct (cleanAiNotFoundResponses uncleaned) as [suggested |] eqn:Hclean; [| discriminate].
  cbv zeta. intro Hmerge. exists uncleaned.
  assert (Hshape :
    exists aiRows : list Row,
      (if 0 <? length headerRow then jsSliceFrom1 suggested else Some suggested)
      = Some (ofRows aiRows)
      /\ (if negb (length (map ofRow aiRows) =? length (itemsRequiringAiLookup chunk))
          then None
          else forEachAiRow (itemsRequiringAiLookup chunk) 0 (map ofRow aiRows) chunk)
         = Some merged).
  { destruct suggested as [| | | s | rows |].
    1-4,6: destruct (0 <? length headerRow); simpl in Hmerge; discriminate.
    destruct (cleaned_array_shape _ _ Hclean) as [cleanedData ->].
    destruct (0 <? length headerRow); simpl in Hmerge.
    - rewrite tl_map in Hmerge. exists (tl cleanedData).
      split; [simpl; now rewrite tl_map | exact Hmerge].
    - exists cleanedData. split; [reflexivity | exact Hmerge]. }
  destruct Hshape as (aiRows & Hrows & Hforeach).
  exists aiRows. split; [reflexivity |]. split; [rewrite Hclean; exact Hrows |].
  rewrite length_map in Hforeach.
  destruct (length aiRows =? length (itemsRequiringAiLookup chunk)) eqn:Hlen;
    [| discriminate].
  apply Nat.eqb_eq in Hlen. simpl in Hforeach.
  split; [now rewrite Hlen, length_itemsRequiringAiLookup |].
  pose proof (forEachAiRow_scatter chunk [] [] aiRows Hlen) as Hscatter.
  simpl in Hscatter. unfold itemsRequiringAiLookup in Hforeach.
  rewrite Hscatter in Hforeach. now injection Hforeach.
Qed.

(** ** One batch of the URL-finding run *)

Section UrlFacts.

Variable gen : nat -> nat -> GenerateContentResult.
Variable countTokens : list Row -> nat.

(** What the [try] block of one attempt does to the variables of the loop. *)
Lemma tryBlock_spec (headerRow : Row) (chunk : list Row) (items : list LookupItem)
  (b : nat) (lv tried : LoopVars) (ok : bool) :
  tryBlock gen headerRow chunk items b lv = (tried, ok) ->
  retries tried = retries lv
  /\ generateContentCalls (runState tried)
     = generateContentCalls (runState lv) ++ [(b, retries lv)]
  /\ runSkippedBatchNumbersLocal (runState tried)
     = runSkippedBatchNumbersLocal (runState lv)
  /\ requestsDue tried = requestsDue lv
  /\ currentRunOpApiRequests (runState lv) <= currentRunOpApiRequests (runState tried)
  /\ (if ok
      then batchSuccess tried = true
           /\ exists tok parsed g merged,
                gen b (retries lv) = Text tok parsed g
                /\ mergeAiResponse headerRow chunk items parsed = Some merged
                /\ allProcessedDataRows (runState tried)
                   = allProcessedDataRows (runState lv) ++ merged
      else batchSuccess tried = batchSuccess lv
           /\ allProcessedDataRows (runState tried) = allProcessedDataRows (runState lv)).
Proof.
  destruct lv as [r s f st].
  unfold tryBlock, countFirstAttempt, requestsDue. simpl.
  destruct (gen b r) as [| | tok parsed g] eqn:Hgen.
  - intro H. injection H as <- <-. simpl. repeat split; auto.
  - intro H. injection H as <- <-.
    destruct f; destruct (r =? 0); simpl; repeat split; auto; lia.
  - destruct (mergeAiResponse headerRow chunk items parsed) as [merged |] eqn:Hmerge.
    + intro H. injection H as <- <-.
      destruct f; destruct (r =? 0); simpl; repeat split; auto; try lia;
        exists tok, parsed, g, merged; repeat split; auto.
    + intro H. injection H as <- <-.
      destruct f; destruct (r =? 0); simpl; repeat split; auto; lia.
Qed.

(** What the [catch] block does. *)
Lemma catchBlock_spec (chunk : list Row) (b : nat) (tried caught : LoopVars) (broke : bool) :
  retries tried <= MAX_RETRIES ->
  catchBlock gen chunk b tried = (caught, broke) ->
  retries caught = retries tried + 1
  /\ batchSuccess caught = batchSuccess tried
  /\ batchApiRequestMadeThisAttempt caught = batchApiRequestMadeThisAttempt tried
  /\ generateContentCalls (runState caught) = generateContentCalls (runState tried)
  /\ (if broke
      then retries tried = MAX_RETRIES
           /\ allProcessedDataRows (runState caught)
              = allProcessedDataRows (runState tried) ++ chunk
           /\ runSkippedBatchNumbersLocal (runState caught)
              = runSkippedBatchNumbersLocal (runState tried) ++ [b]
           /\ currentRunOpApiRequests (runState caught) = requestsDue tried
      else retries tried < MAX_RETRIES /\ runState caught = runState tried).
Proof.
  intro Hle. unfold catchBlock. cbv zeta.
  destruct (MAX_RETRIES <? retries tried + 1) eqn:Hlast.
  - apply Nat.ltb_lt in Hlast.
    assert (Heq : retries tried = MAX_RETRIES) by lia.
    intro H. injection H as <- <-. unfold requestsDue. rewrite Heq.
    destruct (batchApiRequestMadeThisAttempt tried);
      [| destruct (statsUpdaterQueued gen b tried)];
      simpl; repeat split; auto; lia.
  - apply Nat.ltb_ge in Hlast.
    intro H. injection H as <- <-. simpl. repeat split; auto. lia.
Qed.

Lemma retryLoop_done (fuel : nat) (headerRow : Row) (chunk : list Row)
  (items : list LookupItem) (b : nat) (lv : LoopVars) :
  batchSuccess lv = true ->
  retryLoop gen fuel headerRow chunk items b lv = Some lv.
Proof.
  intro H. destruct fuel; simpl; rewrite H, Bool.andb_false_r; reflexivity.
Qed.

Lemma callsOfBatch_cons (b from n : nat) :
  (b, from) :: callsOfBatch b (from + 1) n = callsOfBatch b from (S n).
Proof. unfold callsOfBatch. simpl. now rewrite Nat.add_1_r. Qed.

(** The retry loop ends within [MAX_RETRIES + 1] attempts.  It makes the
    attempts [retries], [retries + 1], ... in turn and appends either the
    merged chunk of the attempt that succeeded, or, after the last attempt
    failed, the original chunk, recording the batch as skipped.  The request
    counter grows by at most the request still due. *)
Lemma retryLoop_spec (headerRow : Row) (chunk : list Row) (items : list LookupItem) (b : nat) :
  forall fuel lv,
    batchSuccess lv = false ->
    retries lv <= MAX_RETRIES ->
    MAX_RETRIES + 1 <= fuel + retries lv ->
    exists lv' m out,
      retryLoop gen fuel headerRow chunk items b lv = Some lv'
      /\ 1 <= m /\ retries lv + m <= MAX_RETRIES + 1
      /\ generateContentCalls (runState lv')
         = generateContentCalls (runState lv) ++ callsOfBatch b (retries lv) m
      /\ allProcessedDataRows (runState lv') = allProcessedDataRows (runState lv) ++ out
      /\ currentRunOpApiRequests (runState lv) <= currentRunOpApiRequests (runState lv')
      /\ currentRunOpApiRequests (runState lv') <= requestsDue lv
      /\ ((out = chunk
           /\ runSkippedBatchNumbersLocal (runState lv')
              = runSkippedBatchNumbersLocal (runState lv) ++ [b]
           /\ retries lv + m = MAX_RETRIES + 1
           /\ currentRunOpApiRequests (runState lv') = requestsDue lv)
          \/ (runSkippedBatchNumbersLocal (runState lv')
              = runSkippedBatchNumbersLocal (runState lv)
              /\ exists tok parsed g,
                   gen b (retries lv + m - 1) = Text tok parsed g
                   /\ mergeAiResponse headerRow chunk items parsed = Some out)).
Proof.
  induction fuel as [|fuel IH]; intros lv Hnot Hle Hfuel; [lia |].
  cbn [retryLoop]. rewrite Hnot, (proj2 (Nat.leb_le _ _) Hle). cbn [andb negb].
  destruct (tryBlock gen headerRow chunk items b lv) as [tried ok] eqn:Htry.
  destruct (tryBlock_spec _ _ _ _ _ _ _ Htry) as (Hr & Hcalls & Hskip & Hdue & Hreq & Hok).
  destruct ok.
  - destruct Hok as (Hsucc & tok & parsed & g & merged & Hgen & Hmerge & Hall).
    rewrite retryLoop_done by assumption.
    exists tried, 1, merged. split; [reflexivity |].
    split; [lia |]. split; [lia |]. split; [exact Hcalls |]. split; [exact Hall |].
    split; [exact Hreq |].
    split; [rewrite <- Hdue; unfold requestsDue; lia |].
    right. split; [exact Hskip |].
    exists tok, parsed, g. replace (retries lv + 1 - 1) with (retries lv) by lia. auto.
  - destruct Hok as (Hsucc & Hall).
    destruct (catchBlock gen chunk b tried) as [caught broke] eqn:Hcatch.
    assert (Hle' : retries tried <= MAX_RETRIES) by lia.
    destruct (catchBlock_spec _ _ _ _ _ Hle' Hcatch)
      as (Hr' & Hsucc' & Hflag' & Hcalls' & Hbroke).
    destruct broke.
    + destruct Hbroke as (Hlast & Hall' & Hskip' & Hreq').
      exists caught, 1, chunk. split; [reflexivity |].
      split; [lia |]. split; [lia |].
      split; [rewrite Hcalls'; exact Hcalls |].
      split; [rewrite Hall', Hall; reflexivity |].
      split; [rewrite Hreq'; unfold requestsDue; lia |].
      split; [rewrite Hreq', Hdue; lia |].
      left. split; [reflexivity |]. split; [now rewrite Hskip', Hskip |].
      split; [lia | now rewrite Hreq', Hdue].
    + destruct Hbroke as (Hmore & Hstate).
      destruct (IH caught) as (lv' & m & out & Hrun & Hm1 & Hm2 & Hc & Ha & Hq1 & Hq2 & Hres);
        [congruence | lia | lia |].
      assert (Hdue' : requestsDue caught = requestsDue lv).
      { unfold requestsDue in *. rewrite Hstate, Hflag'. exact Hdue. }
      rewrite Hstate in *.
      exists lv', (S m), out. split; [exact Hrun |].
      split; [lia |]. split; [lia |].
      split.
      { rewrite Hc, Hcalls, <- app_assoc. simpl. f_equal.
        rewrite Hr', Hr. apply callsOfBatch_cons. }
      split; [now rewrite Ha, Hall |].
      split; [lia |].
      split; [rewrite <- Hdue'; exact Hq2 |].
      destruct Hres as [(Hout & Hsk & Hmlast & Hexact) | (Hsk & tok & parsed & g & Hgen & Hmerge)].
      * left. split; [exact Hout |]. split; [now rewrite Hsk, Hskip |].
        split; [lia | now rewrite Hexact].
      * right. split; [now rewrite Hsk, Hskip |].
        exists tok, parsed, g.
        replace (retries lv + S m - 1) with (retries caught + m - 1) by lia. auto.
Qed.

Lemma existsb_filter_length {A : Type} (f : A -> bool) (l : list A) :
  existsb f l = negb (length (filter f l) =? 0).
Proof.
  induction l as [|x rest IH]; simpl; [reflexivity |].
  destruct (f x); simpl; [reflexivity | exact IH].
Qed.

Lemma itemsRequiringAiLookup_empty (chunk : list Row) :
  (length (itemsRequiringAiLookup chunk) =? 0) = negb (existsb needsLookup chunk).
Proof.
  rewrite length_itemsRequiringAiLookup, existsb_filter_length.
  now rewrite Bool.negb_involutive.
Qed.

(** A batch without a row to look up: its rows go to the output as they
    are, and nothing else changes. *)
Lemma processBatch_no_call (headerRow : Row) (dataRows : list Row) (i : nat) (st : RunState) :
  existsb needsLookup (chunkOf dataRows i) = false ->
  processBatch gen countTokens headerRow dataRows i st
  = Some (pushProcessedRows (chunkOf dataRows i) st).
Proof.
  intro Hnone. unfold processBatch. cbv zeta.
  now rewrite itemsRequiringAiLookup_empty, Hnone.
Qed.

(** A batch with rows to look up: between one and [MAX_RETRIES + 1] calls
    are made for it; its output is the merged chunk of a successful attempt
    or, when it is skipped, the original chunk. *)
Lemma processBatch_call (headerRow : Row) (dataRows : list Row) (i : nat) (st : RunState) :
  existsb needsLookup (chunkOf dataRows i) = true ->
  exists st' m out,
    processBatch gen countTokens headerRow dataRows i st = Some st'
    /\ 1 <= m /\ m <= MAX_RETRIES + 1
    /\ generateContentCalls st' = generateContentCalls st ++ callsOfBatch (i + 1) 0 m
    /\ allProcessedDataRows st' = allProcessedDataRows st ++ out
    /\ currentRunOpApiRequests st <= currentRunOpApiRequests st'
    /\ currentRunOpApiRequests st' <= currentRunOpApiRequests st + 1
    /\ ((out = chunkOf dataRows i
         /\ runSkippedBatchNumbersLocal st' = runSkippedBatchNumbersLocal st ++ [i + 1]
         /\ m = MAX_RETRIES + 1
         /\ currentRunOpApiRequests st' = currentRunOpApiRequests st + 1)
        \/ (runSkippedBatchNumbersLocal st' = runSkippedBatchNumbersLocal st
            /\ exists tok parsed g,
                 gen (i + 1) (m - 1) = Text tok parsed g
                 /\ mergeAiResponse headerRow (chunkOf dataRows i)
                      (itemsRequiringAiLookup (chunkOf dataRows i)) parsed = Some out)).
Proof.
  intro Hsome. unfold processBatch. cbv zeta.
  rewrite itemsRequiringAiLookup_empty, Hsome. cbn [negb].
  set (chunk := chunkOf dataRows i).
  set (items := itemsRequiringAiLookup chunk).
  set (st1 := addInputTokens _ st).
  destruct (retryLoop_spec headerRow chunk items (i + 1) (MAX_RETRIES + 1)
              (mkLoop 0 false false st1))
    as (lv' & m & out & Hrun & Hm1 & Hm2 & Hc & Ha & Hq1 & Hq2 & Hres);
    [reflexivity | cbn; lia | cbn; lia |].
  rewrite Hrun. cbn in Hm2, Hc, Ha, Hq1, Hq2, Hres.
  unfold requestsDue in *. cbn in Hq2, Hres.
  exists (runState lv'), m, out.
  split; [reflexivity |]. split; [exact Hm1 |]. split; [exact Hm2 |].
  split; [exact Hc |]. split; [exact Ha |]. split; [exact Hq1 |]. split; [exact Hq2 |].
  destruct Hres as [(Hout & Hsk & Hlast & Hexact) | (Hsk & Hsuccess)].
  - left. repeat split; assumption.
  - right. split; assumption.
Qed.

(** What every batch does, whether it calls the service or not. *)
Lemma processBatch_summary (headerRow : Row) (dataRows : list Row) (i : nat)
  (st : RunState) :
  exists st' m out,
    processBatch gen countTokens headerRow dataRows i st = Some st'
    /\ generateContentCalls st' = generateContentCalls st ++ callsOfBatch (i + 1) 0 m
    /\ allProcessedDataRows st' = allProcessedDataRows st ++ out
    /\ Forall2 rowOrigin (chunkOf dataRows i) out
    /\ currentRunOpApiRequests st <= currentRunOpApiRequests st'
    /\ (if existsb needsLookup (chunkOf dataRows i)
        then 1 <= m /\ currentRunOpApiRequests st' <= currentRunOpApiRequests st + 1
        else m = 0 /\ currentRunOpApiRequests st' = currentRunOpApiRequests st).
Proof.
  destruct (existsb needsLookup (chunkOf dataRows i)) eqn:Hlookup.
  - destruct (processBatch_call headerRow dataRows i st Hlookup)
      as (st' & m & out & Hrun & Hm & _ & Hc & Ha & Hq1 & Hq2 & Hres).
    exists st', m, out. split; [exact Hrun |]. split; [exact Hc |]. split; [exact Ha |].
    split; [| split; [exact Hq1 | split; assumption]].
    destruct Hres as [(-> & _) | (_ & tok & parsed & g & _ & Hmerge)].
    + rewrite <- (scatterUrls_nil (chunkOf dataRows i)) at 2. apply scatterUrls_rowOrigin.
    + destruct (mergeAiResponse_scatter _ _ _ _ Hmerge) as (_ & aiRows & _ & _ & _ & ->).
      apply scatterUrls_rowOrigin.
  - rewrite processBatch_no_call by assumption.
    exists (pushProcessedRows (chunkOf dataRows i) st), 0, (chunkOf dataRows i).
    split; [reflexivity |]. split; [simpl; now rewrite app_nil_r |].
    split; [reflexivity |]. split; [| simpl; auto].
    rewrite <- (scatterUrls_nil (chunkOf dataRows i)) at 2. apply scatterUrls_rowOrigin.
Qed.

(** ** The whole URL-finding run *)

Lemma firstn_plus {A : Type} (a b : nat) (l : list A) :
  firstn (a + b) l = firstn a l ++ firstn b (skipn a l).
Proof.
  revert l. induction a as [|a IH]; intro l; simpl; [reflexivity |].
  destruct l as [|x rest]; simpl; [now rewrite firstn_nil | now rewrite IH].
Qed.

(** The batches are consecutive slices: the rows of batches [k], ...,
    [k + n] are the rows of batch [k] followed by those of the later ones. *)
Lemma slice_first_batch (dataRows : list Row) (k n : nat) :
  slice (k * BATCH_SIZE) ((k + S n) * BATCH_SIZE) dataRows
  = chunkOf dataRows k ++ slice (S k * BATCH_SIZE) ((S k + n) * BATCH_SIZE) dataRows.
Proof.
  unfold chunkOf, slice. cbv zeta.
  replace ((k + S n) * BATCH_SIZE - k * BATCH_SIZE) with (BATCH_SIZE + n * BATCH_SIZE)
    by (unfold BATCH_SIZE; lia).
  replace (k * BATCH_SIZE + BATCH_SIZE - k * BATCH_SIZE) with BATCH_SIZE
    by (unfold BATCH_SIZE; lia).
  replace ((S k + n) * BATCH_SIZE - S k * BATCH_SIZE) with (n * BATCH_SIZE)
    by (unfold BATCH_SIZE; lia).
  replace (S k * BATCH_SIZE) with (BATCH_SIZE + k * BATCH_SIZE)
    by (unfold BATCH_SIZE; lia).
  rewrite firstn_plus, skipn_skipn. reflexivity.
Qed.

Lemma slice_all_batches (dataRows : list Row) :
  slice (0 * BATCH_SIZE) ((0 + totalBatchesOf dataRows) * BATCH_SIZE) dataRows = dataRows.
Proof.
  unfold slice, totalBatchesOf. simpl skipn. rewrite Nat.sub_0_r.
  apply firstn_all2. unfold BATCH_SIZE.
  pose proof (Nat.div_mod_eq (length dataRows + (20 - 1)) 20) as Hdiv.
  pose proof (Nat.mod_upper_bound (length dataRows + (20 - 1)) 20) as Hmod.
  lia.
Qed.

(** The number of batches, among the given ones, with a row to look up. *)
Lemma forBatches_spec (headerRow : Row) (dataRows : list Row) :
  forall n k st,
  exists st' out new,
    forBatches gen countTokens headerRow dataRows (seq k n) st = Some st'
    /\ allProcessedDataRows st' = allProcessedDataRows st ++ out
    /\ Forall2 rowOrigin (slice (k * BATCH_SIZE) ((k + n) * BATCH_SIZE) dataRows) out
    /\ generateContentCalls st' = generateContentCalls st ++ new
    /\ (forall b a, In (b, a) new ->
          exists i, k <= i /\ i < k + n /\ b = i + 1
                    /\ existsb needsLookup (chunkOf dataRows i) = true)
    /\ (forall i, k <= i -> i < k + n ->
          existsb needsLookup (chunkOf dataRows i) = true -> In (i + 1, 0) new)
    /\ currentRunOpApiRequests st <= currentRunOpApiRequests st'
    /\ currentRunOpApiRequests st'
       <= currentRunOpApiRequests st
          + length (filter (fun i => existsb needsLookup (chunkOf dataRows i)) (seq k n)).
Proof.
  induction n as [|n IH]; intros k st.
  - exists st, [], []. simpl. rewrite !app_nil_r.
    split; [reflexivity |]. split; [reflexivity |].
    split.
    { unfold slice. replace ((k + 0) * BATCH_SIZE - k * BATCH_SIZE) with 0 by lia.
      constructor. }
    split; [reflexivity |]. split; [intros b a [] |].
    split; [intros i H1 H2; lia | lia].
  - destruct (processBatch_summary headerRow dataRows k st)
      as (st1 & m & out1 & Hrun1 & Hc1 & Ha1 & Hrel1 & Hq1 & Hm).
    destruct (IH (S k) st1) as (st' & out2 & new2 & Hrun2 & Ha2 & Hrel2 & Hc2 & Hin & Hfirst & Hq2 & Hq3).
    exists st', (out1 ++ out2), (callsOfBatch (k + 1) 0 m ++ new2).
    cbn [seq forBatches]. rewrite Hrun1.
    split; [exact Hrun2 |].
    split; [now rewrite Ha2, Ha1, app_assoc |].
    split; [rewrite slice_first_batch; now apply Forall2_app |].
    split; [now rewrite Hc2, Hc1, app_assoc |].
    split.
    { intros b a Hba. apply in_app_or in Hba. destruct Hba as [Hnow | Hlater].
      - unfold callsOfBatch in Hnow. apply in_map_iff in Hnow.
        destruct Hnow as (a' & Heq & Ha'). injection Heq as <- <-.
        exists k. split; [lia |]. split; [lia |]. split; [reflexivity |].
        destruct (existsb needsLookup (chunkOf dataRows k)); [reflexivity |].
        destruct Hm as [-> _]. simpl in Ha'. contradiction.
      - destruct (Hin b a Hlater) as (i & H1 & H2 & H3 & H4).
        exists i. split; [lia |]. split; [lia |]. split; assumption. }
    split.
    { intros i H1 H2 Hlookup. apply in_or_app.
      destruct (Nat.eq_dec i k) as [-> | Hne].
      - left. rewrite Hlookup in Hm. destruct Hm as [Hm _].
        unfold callsOfBatch. apply in_map_iff. exists 0. split; [reflexivity |].
        apply in_seq. lia.
      - right. apply Hfirst; [lia | lia | assumption]. }
    split; [lia |].
    cbn [filter]. destruct (existsb needsLookup (chunkOf dataRows k)); simpl; lia.
Qed.

End UrlFacts.

(** ** Request counting (C1) *)

(** C1 fails on the code: when the first call for a batch is rejected (a
    network error) and the second attempt succeeds, the batch is merged, not
    skipped, after two submit attempts, and the request counter of the run has
    not moved: it is 0 at the end of the run, and so is [apiRequests] in the
    operation statistics. *)
Theorem C1_rejected_first_call_is_never_counted :
  exists st,
    handleFindUrlsWithAi genRejectsFirst tokens70 sampleSheet = Finished st
    /\ generateContentCalls st = [(1, 0); (1, 1)]
    /\ runSkippedBatchNumbersLocal st = []
    /\ allProcessedDataRows st = [ ["Acme"; "a"; "acme.com"]; ["Beta"; "b"; "good.com"] ]
    /\ currentRunOpApiRequests st = 0
    /\ apiRequests (currentOperationStats st) = 0
    /\ status (currentOperationStats st) = completed.
Proof.
  eexists. split; [vm_compute; reflexivity |].
  cbn. repeat split.
Qed.

(** The same sheet with a service that answers at once: one request. *)
Example request_counted_on_first_attempt :
  exists st,
    handleFindUrlsWithAi genAnswers tokens70 sampleSheet = Finished st
    /\ generateContentCalls st = [(1, 0)]
    /\ currentRunOpApiRequests st = 1
    /\ apiRequests (currentOperationStats st) = 1.
Proof.
  eexists. split; [vm_compute; reflexivity |].
  cbn. repeat split.
Qed.

(** A batch that exhausts its retries after rejected calls is counted once
    in the run's counter, but the [apiRequests] field of the operation
    statistics, refreshed only when a response arrives, does not show it. *)
Example skipped_batch_counted_once :
  exists st,
    handleFindUrlsWithAi genAlwaysRejects tokens70 sampleSheet = Finished st
    /\ generateContentCalls st = [(1, 0); (1, 1); (1, 2); (1, 3)]
    /\ runSkippedBatchNumbersLocal st = [1]
    /\ currentRunOpApiRequests st = 1
    /\ apiRequests (currentOperationStats st) = 0
    /\ status (currentOperationStats st) = error.
Proof.
  eexists. split; [vm_compute; reflexivity |].
  cbn. repeat split.
Qed.

(** What does hold for every batch and every behaviour of the service: the
    counter never decreases and grows by at most one per batch. *)
Lemma request_counter_at_most_one_per_batch
  (gen : nat -> nat -> GenerateContentResult) (countTokens : list Row -> nat)
  (headerRow : Row) (dataRows : list Row) (i : nat) (st : RunState) :
  exists st',
    processBatch gen countTokens headerRow dataRows i st = Some st'
    /\ currentRunOpApiRequests st <= currentRunOpApiRequests st'
    /\ currentRunOpApiRequests st' <= currentRunOpApiRequests st + 1.
Proof.
  destruct (processBatch_summary gen countTokens headerRow dataRows i st)
    as (st' & m & out & Hrun & _ & _ & _ & Hq1 & Hm).
  exists st'. split; [exact Hrun |]. split; [exact Hq1 |].
  destruct (existsb needsLookup (chunkOf dataRows i)); lia.
Qed.

(** ** Retry bound (C2) *)

(** C2: for a batch with rows to look up whose every submit attempt fails,
    the orchestrator calls [generateContent] exactly [MAX_RETRIES + 1] = 4
    times (attempts 0 to 3), then appends the original rows of the batch to
    the output and adds exactly one entry, the batch number, to the list of
    skipped batches. *)
Theorem C2_exhausted_batch_is_skipped :
  forall (gen : nat -> nat -> GenerateContentResult) (countTokens : list Row -> nat)
         (headerRow : Row) (dataRows : list Row) (i : nat) (st : RunState),
    existsb needsLookup (chunkOf dataRows i) = true ->
    (forall k, k <= MAX_RETRIES ->
       attemptFails headerRow (chunkOf dataRows i) (gen (i + 1) k) = true) ->
    exists st',
      processBatch gen countTokens headerRow dataRows i st = Some st'
      /\ generateContentCalls st'
         = generateContentCalls st ++ [(i + 1, 0); (i + 1, 1); (i + 1, 2); (i + 1, 3)]
      /\ length [(i + 1, 0); (i + 1, 1); (i + 1, 2); (i + 1, 3)] = MAX_RETRIES + 1
      /\ allProcessedDataRows st' = allProcessedDataRows st ++ chunkOf dataRows i
      /\ runSkippedBatchNumbersLocal st' = runSkippedBatchNumbersLocal st ++ [i + 1].
Proof.
  intros gen countTokens headerRow dataRows i st Hlookup Hfail.
  destruct (processBatch_call gen countTokens headerRow dataRows i st Hlookup)
    as (st' & m & out & Hrun & Hm1 & Hm2 & Hc & Ha & _ & _ & Hres).
  exists st'. split; [exact Hrun |].
  destruct Hres as [(-> & Hsk & -> & _) | (_ & tok & parsed & g & Hgen & Hmerge)].
  - split; [exact Hc |]. split; [reflexivity |]. split; [exact Ha | exact Hsk].
  - exfalso. specialize (Hfail (m - 1) ltac:(lia)).
    unfold attemptFails in Hfail. rewrite Hgen, Hmerge in Hfail. discriminate.
Qed.

Lemma C2_exhausted_batch_is_skipped_witness :
  exists st',
    processBatch genAlwaysRejects tokens70 sampleHeader sampleRows 0 initialRunState = Some st'
    /\ generateContentCalls st'
       = generateContentCalls initialRunState ++ [(0 + 1, 0); (0 + 1, 1); (0 + 1, 2); (0 + 1, 3)]
    /\ length [(0 + 1, 0); (0 + 1, 1); (0 + 1, 2); (0 + 1, 3)] = MAX_RETRIES + 1
    /\ allProcessedDataRows st' = allProcessedDataRows initialRunState ++ chunkOf sampleRows 0
    /\ runSkippedBatchNumbersLocal st'
       = runSkippedBatchNumbersLocal initialRunState ++ [0 + 1].
Proof.
  apply (C2_exhausted_batch_is_skipped genAlwaysRejects tokens70 sampleHeader
           sampleRows 0 initialRunState).
  - vm_compute. reflexivity.
  - intros k Hk. reflexivity.
Defined.

(** ** Order preservation (C3) *)

Lemma Forall2_nth_error {A B : Type} (R : A -> B -> Prop) (l : list A) (l' : list B) :
  Forall2 R l l' ->
  forall p x, nth_error l p = Some x -> exists y, nth_error l' p = Some y /\ R x y.
Proof.
  induction 1 as [|a b l l' Hab Hrest IH]; intros p x Hp.
  - destruct p; discriminate.
  - destruct p as [|p]; simpl in *.
    + injection Hp as <-. now exists b.
    + now apply IH.
Qed.

Lemma Forall2_same_length {A B : Type} (R : A -> B -> Prop) (l : list A) (l' : list B) :
  Forall2 R l l' -> length l' = length l.
Proof. induction 1; simpl; congruence. Qed.

(** The run on a valid dataset always ends, and its output rows descend
    from the input rows position by position. *)
Lemma handleFindUrlsWithAi_finishes
  (gen : nat -> nat -> GenerateContentResult) (countTokens : list Row -> nat)
  (data : Dataset) :
  2 <= length data ->
  exists st,
    handleFindUrlsWithAi gen countTokens data = Finished st
    /\ Forall2 rowOrigin (tl data) (allProcessedDataRows st)
    /\ (forall b a, In (b, a) (generateContentCalls st) ->
          exists i, i < totalBatchesOf (tl data) /\ b = i + 1
                    /\ existsb needsLookup (chunkOf (tl data) i) = true)
    /\ (forall i, i < totalBatchesOf (tl data) ->
          existsb needsLookup (chunkOf (tl data) i) = true ->
          In (i + 1, 0) (generateContentCalls st)).
Proof.
  intro Hlen. unfold handleFindUrlsWithAi.
  apply Nat.ltb_ge in Hlen. rewrite Hlen. cbv zeta.
  destruct (forBatches_spec gen countTokens (hd [] data) (tl data)
              (totalBatchesOf (tl data)) 0 initialRunState)
    as (st & out & new & Hrun & Ha & Hrel & Hc & Hin & Hfirst & _).
  rewrite Hrun. exists (finishRun st). split; [reflexivity |].
  rewrite slice_all_batches in Hrel. simpl in Ha, Hc. subst out new.
  split; [exact Hrel |]. split.
  - intros b a Hba. destruct (Hin b a Hba) as (i & _ & Hi & Hb & Hlookup).
    exists i. repeat split; assumption.
  - intros i Hi Hlookup. apply Hfirst; [lia | exact Hi | exact Hlookup].
Qed.

(** C3: for every dataset the run accepts, the output has as many data
    rows as the input, and the row at each position is the input row of that
    position: unchanged, or, if it was sent for lookup, with its URL cell
    replaced.  This holds whatever the service does (success, failure,
    skipped batch). *)
Theorem C3_row_order_preserved :
  forall (gen : nat -> nat -> GenerateContentResult) (countTokens : list Row -> nat)
         (data : Dataset),
    2 <= length data ->
    exists st,
      handleFindUrlsWithAi gen countTokens data = Finished st
      /\ displayedData (hd [] data) st = hd [] data :: allProcessedDataRows st
      /\ length (allProcessedDataRows st) = length (tl data)
      /\ Forall2 rowOrigin (tl data) (allProcessedDataRows st)
      /\ (forall p row, nth_error (tl data) p = Some row ->
            exists row', nth_error (allProcessedDataRows st) p = Some row'
                         /\ forall j, j <> 2 -> cellOr row' j = cellOr row j).
Proof.
  intros gen countTokens data Hlen.
  destruct (handleFindUrlsWithAi_finishes gen countTokens data Hlen)
    as (st & Hrun & Hrel & _).
  exists st. split; [exact Hrun |]. split; [reflexivity |].
  split; [exact (Forall2_same_length _ _ _ Hrel) |]. split; [exact Hrel |].
  intros p row Hp.
  destruct (Forall2_nth_error _ _ _ Hrel p row Hp) as (row' & Hp' & Horigin).
  exists row'. split; [exact Hp' |].
  intros j Hj. now apply rowOrigin_cells.
Qed.

Lemma C3_row_order_preserved_witness :
  exists st,
    handleFindUrlsWithAi genRejectsFirst tokens70 sampleSheet = Finished st
    /\ displayedData (hd [] sampleSheet) st = hd [] sampleSheet :: allProcessedDataRows st
    /\ length (allProcessedDataRows st) = length (tl sampleSheet)
    /\ Forall2 rowOrigin (tl sampleSheet) (allProcessedDataRows st)
    /\ (forall p row, nth_error (tl sampleSheet) p = Some row ->
          exists row', nth_error (allProcessedDataRows st) p = Some row'
                       /\ forall j, j <> 2 -> cellOr row' j = cellOr row j).
Proof.
  apply (C3_row_order_preserved genRejectsFirst tokens70 sampleSheet).
  simpl. lia.
Defined.

(** ** No-call invariant (C4) *)

Lemma all_plausible_no_lookup (chunk : list Row) :
  forallb (fun row => isPlausibleUrl (cellOr row 2)) chunk = true ->
  existsb needsLookup chunk = false.
Proof.
  induction chunk as [|row rest IH]; simpl; [reflexivity |].
  intro H. apply andb_prop in H. destruct H as [Hrow Hrest].
  unfold needsLookup at 1. rewrite Hrow. simpl. now apply IH.
Qed.

Lemma nth_error_chunkOf (dataRows : list Row) (i q : nat) :
  q < BATCH_SIZE ->
  nth_error (chunkOf dataRows i) q = nth_error dataRows (i * BATCH_SIZE + q).
Proof.
  intro Hq. unfold chunkOf, slice. cbv zeta.
  replace (i * BATCH_SIZE + BATCH_SIZE - i * BATCH_SIZE) with BATCH_SIZE by lia.
  rewrite nth_error_firstn.
  apply Nat.ltb_lt in Hq. rewrite Hq.
  now rewrite nth_error_skipn.
Qed.

(** C4: for a batch whose every row has a plausible URL, the body of the
    batch loop only appends the rows of the batch, unchanged, to the output
    (no call, no counter touched); and in the whole run the record of
    [generateContent] calls holds no call for that batch, while the output
    rows at the positions of the batch are the input rows. *)
Theorem C4_no_call_for_plausible_batch :
  forall (gen : nat -> nat -> GenerateContentResult) (countTokens : list Row -> nat)
         (data : Dataset) (i : nat),
    2 <= length data ->
    forallb (fun row => isPlausibleUrl (cellOr row 2)) (chunkOf (tl data) i) = true ->
    (forall st,
       processBatch gen countTokens (hd [] data) (tl data) i st
       = Some (pushProcessedRows (chunkOf (tl data) i) st))
    /\ exists final,
         handleFindUrlsWithAi gen countTokens data = Finished final
         /\ (forall k, ~ In (i + 1, k) (generateContentCalls final))
         /\ (forall q, q < BATCH_SIZE ->
               nth_error (allProcessedDataRows final) (i * BATCH_SIZE + q)
               = nth_error (chunkOf (tl data) i) q).
Proof.
  intros gen countTokens data i Hlen Hplausible.
  pose proof (all_plausible_no_lookup _ Hplausible) as Hnone.
  split; [intro st; now apply processBatch_no_call |].
  destruct (handleFindUrlsWithAi_finishes gen countTokens data Hlen)
    as (final & Hrun & Hrel & Hin & _).
  exists final. split; [exact Hrun |]. split.
  - intros k Hk. destruct (Hin _ _ Hk) as (i' & _ & Heq & Hlookup).
    assert (i' = i) by lia. subst i'. congruence.
  - intros q Hq. rewrite nth_error_chunkOf by assumption.
    destruct (nth_error (tl data) (i * BATCH_SIZE + q)) as [row |] eqn:Hrow.
    + destruct (Forall2_nth_error _ _ _ Hrel _ _ Hrow) as (row' & Hrow' & Horigin).
      rewrite Hrow'. f_equal. apply (rowOrigin_plausible _ _ Horigin).
      rewrite <- nth_error_chunkOf in Hrow by assumption.
      apply nth_error_In in Hrow.
      rewrite forallb_forall in Hplausible. now apply Hplausible.
    + apply nth_error_None. rewrite (Forall2_same_length _ _ _ Hrel).
      now apply nth_error_None.
Qed.

Lemma C4_no_call_for_plausible_batch_witness :
  (forall st,
     processBatch genAnswers tokens70 (hd [] completeSheet) (tl completeSheet) 0 st
     = Some (pushProcessedRows (chunkOf (tl completeSheet) 0) st))
  /\ exists final,
       handleFindUrlsWithAi genAnswers tokens70 completeSheet = Finished final
       /\ (forall k, ~ In (0 + 1, k) (generateContentCalls final))
       /\ (forall q, q < BATCH_SIZE ->
             nth_error (allProcessedDataRows final) (0 * BATCH_SIZE + q)
             = nth_error (chunkOf (tl completeSheet) 0) q).
Proof.
  apply (C4_no_call_for_plausible_batch genAnswers tokens70 completeSheet 0).
  - simpl. lia.
  - vm_compute. reflexivity.
Defined.

(** ** Estimator against the real run (C7) *)

Lemma estimateBatch_requests (countTokens : list Row -> nat) (headerRow : Row)
  (dataRows : list Row) (i : nat) (totals : nat * nat) :
  snd (estimateBatch countTokens headerRow dataRows i totals)
  = snd totals + (if existsb needsLookup (chunkOf dataRows i) then 1 else 0).
Proof.
  unfold estimateBatch. destruct totals as [tokens requests]. cbv zeta.
  rewrite existsb_filter_length.
  destruct (length (filter needsLookup (chunkOf dataRows i))) as [|n]; simpl; lia.
Qed.

Lemma estimateBatches_requests (countTokens : list Row -> nat) (headerRow : Row)
  (dataRows : list Row) (batches : list nat) (totals : nat * nat) :
  snd (estimateBatches countTokens headerRow dataRows batches totals)
  = snd totals
    + length (filter (fun i => existsb needsLookup (chunkOf dataRows i)) batches).
Proof.
  unfold estimateBatches. revert totals.
  induction batches as [|i rest IH]; intro totals; simpl; [lia |].
  rewrite IH, estimateBatch_requests.
  destruct (existsb needsLookup (chunkOf dataRows i)); simpl; lia.
Qed.

Lemma calledForBatch_true (b : nat) (calls : list (nat * nat)) :
  calledForBatch b calls = true <-> exists a, In (b, a) calls.
Proof.
  unfold calledForBatch. rewrite existsb_exists. split.
  - intros [[b' a] [Hin Heq]]. simpl in Heq. apply Nat.eqb_eq in Heq. subst. now exists a.
  - intros [a Hin]. exists (b, a). split; [exact Hin | apply Nat.eqb_refl].
Qed.

(** ** The batches of both handlers are the partition of the specification *)

Lemma chunkOf_0 (dataRows : list Row) :
  chunkOf dataRows 0 = firstn BATCH_SIZE dataRows.
Proof. reflexivity. Qed.

Lemma chunkOf_S (dataRows : list Row) (i : nat) :
  chunkOf dataRows (S i) = chunkOf (skipn BATCH_SIZE dataRows) i.
Proof.
  unfold chunkOf, slice. cbv zeta.
  replace (S i * BATCH_SIZE + BATCH_SIZE - S i * BATCH_SIZE) with BATCH_SIZE by lia.
  replace (i * BATCH_SIZE + BATCH_SIZE - i * BATCH_SIZE) with BATCH_SIZE by lia.
  rewrite skipn_skipn. f_equal. f_equal. unfold BATCH_SIZE. lia.
Qed.

Lemma totalBatchesOf_nil : totalBatchesOf [] = 0.
Proof. reflexivity. Qed.

Lemma totalBatchesOf_skipn (dataRows : list Row) :
  dataRows <> [] ->
  totalBatchesOf dataRows = S (totalBatchesOf (skipn BATCH_SIZE dataRows)).
Proof.
  intro Hne. unfold totalBatchesOf. rewrite length_skipn. unfold BATCH_SIZE.
  assert (Hlen : 1 <= length dataRows) by (destruct dataRows; [congruence | cbn; lia]).
  pose proof (Nat.div_mod_eq (length dataRows + (20 - 1)) 20) as Hdiv.
  pose proof (Nat.mod_upper_bound (length dataRows + (20 - 1)) 20) as Hmod.
  pose proof (Nat.div_mod_eq (length dataRows - 20 + (20 - 1)) 20) as Hdiv'.
  pose proof (Nat.mod_upper_bound (length dataRows - 20 + (20 - 1)) 20) as Hmod'.
  lia.
Qed.

Lemma chunks_are_contiguousBatches :
  forall (fuel : nat) (dataRows : list Row),
    length dataRows <= fuel ->
    map (chunkOf dataRows) (seq 0 (totalBatchesOf dataRows))
    = contiguousBatchesFuel fuel BATCH_SIZE dataRows.
Proof.
  induction fuel as [| fuel IH]; intros dataRows Hfuel.
  - destruct dataRows; [reflexivity | cbn in Hfuel; lia].
  - destruct dataRows as [| row rest]; [reflexivity |].
    rewrite totalBatchesOf_skipn by discriminate.
    cbn [seq map contiguousBatchesFuel]. rewrite chunkOf_0. f_equal.
    rewrite <- seq_shift, map_map.
    rewrite <- IH.
    + apply map_ext. intros i. apply chunkOf_S.
    + rewrite length_skipn. cbn [length] in *. unfold BATCH_SIZE. lia.
Qed.

Lemma contiguousBatchesFuel_concat :
  forall (fuel : nat) (rows : list Row),
    length rows <= fuel ->
    concat (contiguousBatchesFuel fuel BATCH_SIZE rows) = rows.
Proof.
  induction fuel as [| fuel IH]; intros rows Hfuel.
  - destruct rows; [reflexivity | cbn in Hfuel; lia].
  - destruct rows as [| row rest]; [reflexivity |].
    cbn [contiguousBatchesFuel concat]. rewrite IH.
    + apply firstn_skipn.
    + rewrite length_skipn. cbn [length] in *. unfold BATCH_SIZE. lia.
Qed.

Lemma contiguousBatchesFuel_sizes :
  forall (fuel : nat) (rows batch : list Row),
    In batch (contiguousBatchesFuel fuel BATCH_SIZE rows) ->
    1 <= length batch <= BATCH_SIZE.
Proof.
  induction fuel as [| fuel IH]; intros rows batch Hin; [destruct Hin |].
  destruct rows as [| row rest]; [destruct Hin |].
  cbn [contiguousBatchesFuel] in Hin. destruct Hin as [<- | Hin]; [| exact (IH _ _ Hin)].
  rewrite length_firstn. cbn [length]. unfold BATCH_SIZE. lia.
Qed.

Lemma filter_map_length :
  forall (A B : Type) (f : B -> bool) (g : A -> B) (l : list A),
    length (filter f (map g l)) = length (filter (fun x => f (g x)) l).
Proof.
  intros A B f g l. induction l as [| x l IH]; [reflexivity |].
  cbn [map filter]. destruct (f (g x)); cbn [length]; rewrite IH; reflexivity.
Qed.

(** C7: the estimator and the real run cut the data rows into the same
    batches, and these are the partition of the data rows into consecutive
    batches of 20 rows ([contiguousBatches]): put end to end the batches
    give back the data rows, no batch is empty or longer than 20, and batch
    [i] holds the rows at positions [20 i], ..., [20 i + 19].  Both select
    the same rows in each batch (those failing [isPlausibleUrl]); the
    estimator adds one request for a batch exactly when the real run calls
    [generateContent] for that batch; and the estimator's request total is
    the number of batches of the partition holding at least one row that
    needs lookup. *)
Theorem C7_estimator_counts_the_batches_the_run_submits :
  forall (gen : nat -> nat -> GenerateContentResult)
         (countTokens countTokensForEstimate : list Row -> nat)
         (totalApiRequestsMade : nat) (data : Dataset),
    2 <= length data ->
    exists estimation final,
      handleEstimateFullAiRunCost countTokensForEstimate totalApiRequestsMade data
      = Some estimation
      /\ handleFindUrlsWithAi gen countTokens data = Finished final
      /\ BATCH_SIZE = 20
      /\ map (chunkOf (tl data)) (seq 0 (totalBatchesOf (tl data)))
         = contiguousBatches 20 (tl data)
      /\ concat (contiguousBatches 20 (tl data)) = tl data
      /\ (forall batch, In batch (contiguousBatches 20 (tl data)) ->
            1 <= length batch <= 20)
      /\ (forall i q, q < 20 ->
            nth_error (chunkOf (tl data) i) q = nth_error (tl data) (20 * i + q))
      /\ (forall row, needsLookup row = negb (isPlausibleUrl (cellOr row 2)))
      /\ (forall i, map rowData (itemsRequiringAiLookup (chunkOf (tl data) i))
                    = filter needsLookup (chunkOf (tl data) i))
      /\ (forall i totals,
            i < totalBatchesOf (tl data) ->
            snd (estimateBatch countTokensForEstimate (hd [] data) (tl data) i totals)
            = snd totals
              + (if calledForBatch (i + 1) (generateContentCalls final) then 1 else 0))
      /\ preRunApiRequests estimation
         = length (filter (fun i => calledForBatch (i + 1) (generateContentCalls final))
                     (seq 0 (totalBatchesOf (tl data))))
      /\ preRunApiRequests estimation
         = length (filter (fun i => existsb needsLookup (chunkOf (tl data) i))
                     (seq 0 (totalBatchesOf (tl data))))
      /\ preRunApiRequests estimation
         = length (filter (existsb needsLookup) (contiguousBatches 20 (tl data))).
Proof.
  intros gen countTokens countTokensForEstimate totalApiRequestsMade data Hlen.
  assert (Hpartition : map (chunkOf (tl data)) (seq 0 (totalBatchesOf (tl data)))
                       = contiguousBatches 20 (tl data))
    by (apply chunks_are_contiguousBatches; apply Nat.le_refl).
  destruct (handleFindUrlsWithAi_finishes gen countTokens data Hlen)
    as (final & Hrun & _ & Hin & Hfirst).
  assert (Hsame : forall i, i < totalBatchesOf (tl data) ->
            calledForBatch (i + 1) (generateContentCalls final)
            = existsb needsLookup (chunkOf (tl data) i)).
  { intros i Hi.
    destruct (existsb needsLookup (chunkOf (tl data) i)) eqn:Hlookup.
    - apply calledForBatch_true. exists 0. now apply Hfirst.
    - destruct (calledForBatch (i + 1) (generateContentCalls final)) eqn:Hcalled;
        [| reflexivity].
      apply calledForBatch_true in Hcalled. destruct Hcalled as [a Ha].
      destruct (Hin _ _ Ha) as (i' & _ & Heq & Hlookup').
      assert (i' = i) by lia. subst i'. congruence. }
  assert (Hestimate :
    exists estimation,
      handleEstimateFullAiRunCost countTokensForEstimate totalApiRequestsMade data
      = Some estimation
      /\ preRunApiRequests estimation
         = length (filter (fun i => existsb needsLookup (chunkOf (tl data) i))
                     (seq 0 (totalBatchesOf (tl data))))).
  { unfold handleEstimateFullAiRunCost.
    apply Nat.ltb_ge in Hlen. rewrite Hlen. cbv zeta.
    pose proof (estimateBatches_requests countTokensForEstimate (hd [] data) (tl data)
                  (seq 0 (totalBatchesOf (tl data))) (0, 0)) as Hrequests.
    destruct (estimateBatches countTokensForEstimate (hd [] data) (tl data)
                (seq 0 (totalBatchesOf (tl data))) (0, 0)) as [tokens requests].
    eexists. split; [reflexivity |]. simpl in *. exact Hrequests. }
  destruct Hestimate as (estimation & Hest & Htotal).
  exists estimation, final.
  split; [exact Hest |]. split; [exact Hrun |]. split; [reflexivity |].
  split; [exact Hpartition |].
  split; [apply (contiguousBatchesFuel_concat (length (tl data))); apply Nat.le_refl |].
  split; [intros batch Hbatch;
          exact (contiguousBatchesFuel_sizes (length (tl data)) (tl data) batch Hbatch) |].
  split.
  { intros i q Hq. rewrite (nth_error_chunkOf (tl data) i q Hq).
    f_equal. unfold BATCH_SIZE. lia. }
  split; [intro row; reflexivity |].
  split; [intro i; apply rowData_itemsRequiringAiLookupFrom |].
  split.
  { intros i totals Hi. rewrite estimateBatch_requests, Hsame by assumption. reflexivity. }
  split.
  { rewrite Htotal. f_equal. apply filter_ext_in.
    intros i Hi. apply in_seq in Hi. symmetry. apply Hsame. lia. }
  split; [exact Htotal |].
  rewrite Htotal, <- Hpartition, filter_map_length. reflexivity.
Qed.

Lemma C7_estimator_counts_the_batches_the_run_submits_witness :
  exists estimation final,
    handleEstimateFullAiRunCost tokens70 0 sampleSheet = Some estimation
    /\ handleFindUrlsWithAi genRejectsFirst tokens70 sampleSheet = Finished final
    /\ BATCH_SIZE = 20
    /\ map (chunkOf (tl sampleSheet)) (seq 0 (totalBatchesOf (tl sampleSheet)))
       = contiguousBatches 20 (tl sampleSheet)
    /\ concat (contiguousBatches 20 (tl sampleSheet)) = tl sampleSheet
    /\ (forall batch, In batch (contiguousBatches 20 (tl sampleSheet)) ->
          1 <= length batch <= 20)
    /\ (forall i q, q < 20 ->
          nth_error (chunkOf (tl sampleSheet) i) q = nth_error (tl sampleSheet) (20 * i + q))
    /\ (forall row, needsLookup row = negb (isPlausibleUrl (cellOr row 2)))
    /\ (forall i, map rowData (itemsRequiringAiLookup (chunkOf (tl sampleSheet) i))
                  = filter needsLookup (chunkOf (tl sampleSheet) i))
    /\ (forall i totals,
          i < totalBatchesOf (tl sampleSheet) ->
          snd (estimateBatch tokens70 (hd [] sampleSheet) (tl sampleSheet) i totals)
          = snd totals
            + (if calledForBatch (i + 1) (generateContentCalls final) then 1 else 0))
    /\ preRunApiRequests estimation
       = length (filter (fun i => calledForBatch (i + 1) (generateContentCalls final))
                   (seq 0 (totalBatchesOf (tl sampleSheet))))
    /\ preRunApiRequests estimation
       = length (filter (fun i => existsb needsLookup (chunkOf (tl sampleSheet) i))
                   (seq 0 (totalBatchesOf (tl sampleSheet))))
    /\ preRunApiRequests estimation
       = length (filter (existsb needsLookup) (contiguousBatches 20 (tl sampleSheet))).
Proof.
  apply (C7_estimator_counts_the_batches_the_run_submits
           genRejectsFirst tokens70 tokens70 0 sampleSheet).
  simpl. lia.
Defined.

Example estimate_of_sample_sheet :
  exists estimation,
    handleEstimateFullAiRunCost tokens70 0 sampleSheet = Some estimation
    /\ preRunInputTokens estimation = 70
    /\ preRunApiRequests estimation = 1.
Proof. eexists. split; [vm_compute; reflexivity |]. cbn. split; reflexivity. Qed.

(** ** Frame of the merge (C10) *)

Lemma scatterUrls_kept (chunk aiRows : list Row) (p : nat) (row : Row) :
  nth_error chunk p = Some row -> needsLookup row = false ->
  nth_error (scatterUrls chunk aiRows) p = Some row.
Proof.
  revert aiRows p. induction chunk as [|r rest IH]; intros aiRows p Hp Hkeep.
  - destruct p; discriminate.
  - destruct p as [|p]; simpl in *.
    + injection Hp as ->. now rewrite Hkeep.
    + destruct (needsLookup r); [destruct aiRows |]; simpl; now apply IH.
Qed.

Lemma scatterUrls_sent (chunk aiRows : list Row) (p : nat) (row : Row) :
  length aiRows = length (filter needsLookup chunk) ->
  nth_error chunk p = Some row -> needsLookup row = true ->
  exists aiRow,
    nth_error aiRows (lookupRank chunk p) = Some aiRow
    /\ nth_error (scatterUrls chunk aiRows) p = Some (setUrl (cellOr aiRow 2) row).
Proof.
  unfold lookupRank.
  revert aiRows p. induction chunk as [|r rest IH]; intros aiRows p Hlen Hp Hsent.
  - destruct p; discriminate.
  - destruct p as [|p]; simpl in *.
    + injection Hp as ->. rewrite Hsent in *.
      destruct aiRows as [|aiRow more]; [discriminate |]. now exists aiRow.
    + destruct (needsLookup r).
      * destruct aiRows as [|aiRow more]; [discriminate |].
        simpl in *. apply IH; [lia | assumption | assumption].
      * simpl. now apply IH.
Qed.

(** C10: when the [try] block of an attempt runs to its end (the response
    was parsed and merged), what it appends to the output is the chunk in
    which only the rows sent for lookup were touched: such a row is padded to
    three cells and its cell 2 takes the string at index 2 of the response
    row of the same rank (empty string when that cell is missing); every cell
    of every row at an index other than 2 reads as before, rows not sent for
    lookup are kept whole, and nothing else of the response reaches the
    output. *)
Theorem C10_merge_touches_only_the_url_of_sent_rows :
  forall (gen : nat -> nat -> GenerateContentResult)
         (headerRow : Row) (chunk : list Row) (b : nat) (lv tried : LoopVars),
    tryBlock gen headerRow chunk (itemsRequiringAiLookup chunk) b lv = (tried, true) ->
    exists (tok : nat) (uncleaned : JsVal) (g : list (option string))
           (aiRows merged : list Row),
      gen b (retries lv) = Text tok (Some uncleaned) g
      /\ aiProcessedRowsOnlyOf headerRow uncleaned = Some (ofRows aiRows)
      /\ allProcessedDataRows (runState tried)
         = allProcessedDataRows (runState lv) ++ merged
      /\ length merged = length chunk
      /\ (forall p row, nth_error chunk p = Some row ->
            exists row',
              nth_error merged p = Some row'
              /\ (forall j, j <> 2 -> cellOr row' j = cellOr row j)
              /\ (needsLookup row = false -> row' = row)
              /\ (needsLookup row = true ->
                    exists aiRow,
                      nth_error aiRows (lookupRank chunk p) = Some aiRow
                      /\ row' = setUrl (cellOr aiRow 2) row
                      /\ cellOr row' 2 = cellOr aiRow 2)).
Proof.
  intros gen headerRow chunk b lv tried Htry.
  destruct (tryBlock_spec gen _ _ _ _ _ _ _ Htry) as (_ & _ & _ & _ & _ & Hok).
  destruct Hok as (_ & tok & parsed & g & merged & Hgen & Hmerge & Hall).
  destruct (mergeAiResponse_scatter _ _ _ _ Hmerge)
    as (uncleaned & aiRows & -> & Hrows & Hlen & ->).
  exists tok, uncleaned, g, aiRows, (scatterUrls chunk aiRows).
  split; [exact Hgen |]. split; [exact Hrows |]. split; [exact Hall |].
  split; [apply scatterUrls_length |].
  intros p row Hp.
  destruct (Forall2_nth_error _ _ _ (scatterUrls_rowOrigin chunk aiRows) p row Hp)
    as (row' & Hp' & Horigin).
  exists row'. split; [exact Hp' |].
  split; [intros j Hj; now apply rowOrigin_cells |].
  split.
  - intro Hkeep. rewrite (scatterUrls_kept chunk aiRows p row Hp Hkeep) in Hp'.
    now injection Hp'.
  - intro Hsent.
    destruct (scatterUrls_sent chunk aiRows p row Hlen Hp Hsent) as (aiRow & Hai & Hsc).
    exists aiRow. split; [exact Hai |].
    rewrite Hsc in Hp'. injection Hp' as <-.
    split; [reflexivity | apply cellOr_setUrl_url].
Qed.

Lemma C10_merge_touches_only_the_url_of_sent_rows_witness :
  exists (tok : nat) (uncleaned : JsVal) (g : list (option string))
         (aiRows merged : list Row),
    genAnswers 1 (retries (mkLoop 0 false false initialRunState))
    = Text tok (Some uncleaned) g
    /\ aiProcessedRowsOnlyOf sampleHeader uncleaned = Some (ofRows aiRows)
    /\ allProcessedDataRows
         (runState
            (fst (tryBlock genAnswers sampleHeader sampleRows
                    (itemsRequiringAiLookup sampleRows) 1
                    (mkLoop 0 false false initialRunState))))
       = allProcessedDataRows (runState (mkLoop 0 false false initialRunState)) ++ merged
    /\ length merged = length sampleRows
    /\ (forall p row, nth_error sampleRows p = Some row ->
          exists row',
            nth_error merged p = Some row'
            /\ (forall j, j <> 2 -> cellOr row' j = cellOr row j)
            /\ (needsLookup row = false -> row' = row)
            /\ (needsLookup row = true ->
                  exists aiRow,
                    nth_error aiRows (lookupRank sampleRows p) = Some aiRow
                    /\ row' = setUrl (cellOr aiRow 2) row
                    /\ cellOr row' 2 = cellOr aiRow 2)).
Proof.
  apply (C10_merge_touches_only_the_url_of_sent_rows genAnswers sampleHeader sampleRows 1
           (mkLoop 0 false false initialRunState)).
  vm_compute. reflexivity.
Defined.

(** The response of [genAnswers] changes the contact cell and adds a cell;
    only the URL reaches the output. *)
Example merge_ignores_other_response_cells :
  mergeAiResponse sampleHeader sampleRows (itemsRequiringAiLookup sampleRows)
    (Some sampleAnswer)
  = Some [ ["Acme"; "a"; "acme.com"]; ["Beta"; "b"; "good.com"] ].
Proof. vm_compute. reflexivity. Qed.

(** * Further properties of the URL-finding run: exact accounting *)

Section UrlAccounting.

Variable gen : nat -> nat -> GenerateContentResult.
Variable countTokens : list Row -> nat.

(** The exact effect of the [try] block of one attempt on the counters. *)
Lemma tryBlock_exact (headerRow : Row) (chunk : list Row) (b : nat)
  (lv tried : LoopVars) (ok : bool) :
  tryBlock gen headerRow chunk (itemsRequiringAiLookup chunk) b lv = (tried, ok) ->
  ok = negb (attemptFails headerRow chunk (gen b (retries lv)))
  /\ retries tried = retries lv
  /\ batchSuccess tried = (if ok then true else batchSuccess lv)
  /\ batchApiRequestMadeThisAttempt tried
     = batchApiRequestMadeThisAttempt lv
       || ((retries lv =? 0) && negb (isRejected (gen b (retries lv))))
  /\ currentRunOpInputTokens (runState tried) = currentRunOpInputTokens (runState lv)
  /\ currentRunOpOutputTokens (runState tried)
     = currentRunOpOutputTokens (runState lv) + responseTokens (gen b (retries lv))
  /\ currentRunOpApiRequests (runState tried)
     = currentRunOpApiRequests (runState lv)
       + (if negb (batchApiRequestMadeThisAttempt lv)
             && ((retries lv =? 0) && negb (isRejected (gen b (retries lv))))
          then 1 else 0)
  /\ runSkippedBatchNumbersLocal (runState tried)
     = runSkippedBatchNumbersLocal (runState lv)
  /\ generateContentCalls (runState tried)
     = generateContentCalls (runState lv) ++ [(b, retries lv)]
  /\ inputTokens (currentOperationStats (runState tried))
     = inputTokens (currentOperationStats (runState lv))
  /\ mergedBy headerRow chunk (gen b (retries lv))
     = (if ok then mergedBy headerRow chunk (gen b (retries lv)) else None)
  /\ allProcessedDataRows (runState tried)
     = allProcessedDataRows (runState lv)
       ++ match mergedBy headerRow chunk (gen b (retries lv)) with
          | Some merged => merged
          | None => []
          end.
Proof.
  destruct lv as [r s f st].
  unfold tryBlock, countFirstAttempt, attemptFails, mergedBy. simpl.
  destruct (gen b r) as [| | tok parsed g] eqn:Hgen.
  - intro H. injection H as <- <-. simpl.
    rewrite Bool.andb_false_r, Bool.orb_false_r, Bool.andb_false_r, app_nil_r.
    repeat split; auto.
  - intro H. injection H as <- <-. rewrite app_nil_r.
    destruct f; destruct (r =? 0); simpl; repeat split; auto; lia.
  - destruct (mergeAiResponse headerRow chunk (itemsRequiringAiLookup chunk) parsed)
      as [merged |] eqn:Hmerge.
    + intro H. injection H as <- <-.
      destruct f; destruct (r =? 0); simpl; repeat split; auto; lia.
    + intro H. injection H as <- <-. rewrite app_nil_r.
      destruct f; destruct (r =? 0); simpl; repeat split; auto; lia.
Qed.

(** The exact effect of the [catch] block. *)
Lemma catchBlock_exact (chunk : list Row) (b : nat) (tried caught : LoopVars) (broke : bool) :
  retries tried <= MAX_RETRIES ->
  catchBlock gen chunk b tried = (caught, broke) ->
  broke = (MAX_RETRIES <? retries tried + 1)
  /\ retries caught = retries tried + 1
  /\ batchSuccess caught = batchSuccess tried
  /\ batchApiRequestMadeThisAttempt caught = batchApiRequestMadeThisAttempt tried
  /\ currentRunOpInputTokens (runState caught) = currentRunOpInputTokens (runState tried)
  /\ currentRunOpOutputTokens (runState caught) = currentRunOpOutputTokens (runState tried)
  /\ currentRunOpApiRequests (runState caught)
     = currentRunOpApiRequests (runState tried)
       + (if broke && negb (batchApiRequestMadeThisAttempt tried) then 1 else 0)
  /\ runSkippedBatchNumbersLocal (runState caught)
     = runSkippedBatchNumbersLocal (runState tried) ++ (if broke then [b] else [])
  /\ generateContentCalls (runState caught) = generateContentCalls (runState tried)
  /\ inputTokens (currentOperationStats (runState caught))
     = inputTokens (currentOperationStats (runState tried))
  /\ allProcessedDataRows (runState caught)
     = allProcessedDataRows (runState tried) ++ (if broke then chunk else []).
Proof.
  intro Hle. unfold catchBlock. cbv zeta.
  destruct (MAX_RETRIES <? retries tried + 1) eqn:Hlast.
  - apply Nat.ltb_lt in Hlast.
    assert (Heq : (retries tried + 1 =? MAX_RETRIES + 1) = true)
      by (apply Nat.eqb_eq; lia).
    rewrite Heq, Bool.andb_true_r.
    intro H. injection H as <- <-.
    destruct (batchApiRequestMadeThisAttempt tried);
      [| destruct (statsUpdaterQueued gen b tried)];
      simpl; repeat split; auto; lia.
  - intro H. injection H as <- <-. simpl.
    rewrite !app_nil_r. repeat split; auto; lia.
Qed.

(** The retry loop, exactly: which attempts are made, what is added to the
    token and request counters, and whether the batch is recorded as
    skipped. *)
Lemma retryLoop_exact (headerRow : Row) (chunk : list Row) (b : nat) :
  forall fuel lv,
    batchSuccess lv = false ->
    retries lv <= MAX_RETRIES ->
    MAX_RETRIES + 1 <= fuel + retries lv ->
    exists lv',
      retryLoop gen fuel headerRow chunk (itemsRequiringAiLookup chunk) b lv = Some lv'
      /\ currentRunOpInputTokens (runState lv') = currentRunOpInputTokens (runState lv)
      /\ inputTokens (currentOperationStats (runState lv'))
         = inputTokens (currentOperationStats (runState lv))
      /\ generateContentCalls (runState lv')
         = generateContentCalls (runState lv)
           ++ map (fun k => (b, k))
                (attemptsMade gen headerRow chunk b (MAX_RETRIES + 1 - retries lv) (retries lv))
      /\ currentRunOpOutputTokens (runState lv')
         = currentRunOpOutputTokens (runState lv)
           + list_sum (map (fun k => responseTokens (gen b k))
                         (attemptsMade gen headerRow chunk b
                            (MAX_RETRIES + 1 - retries lv) (retries lv)))
      /\ runSkippedBatchNumbersLocal (runState lv')
         = runSkippedBatchNumbersLocal (runState lv)
           ++ (if attemptsAllFail gen headerRow chunk b
                    (MAX_RETRIES + 1 - retries lv) (retries lv)
               then [b] else [])
      /\ currentRunOpApiRequests (runState lv')
         = currentRunOpApiRequests (runState lv)
           + (if batchApiRequestMadeThisAttempt lv then 0
              else if ((retries lv =? 0) && negb (isRejected (gen b 0)))
                      || attemptsAllFail gen headerRow chunk b
                           (MAX_RETRIES + 1 - retries lv) (retries lv)
                   then 1 else 0)
      /\ allProcessedDataRows (runState lv')
         = allProcessedDataRows (runState lv)
           ++ match firstMerge gen headerRow chunk b
                      (MAX_RETRIES + 1 - retries lv) (retries lv) with
              | Some merged => merged
              | None => chunk
              end.
Proof.
  induction fuel as [|fuel IH]; intros lv Hnot Hle Hfuel; [lia |].
  cbn [retryLoop]. rewrite Hnot, (proj2 (Nat.leb_le _ _) Hle). cbn [andb negb].
  destruct (tryBlock gen headerRow chunk (itemsRequiringAiLookup chunk) b lv)
    as [tried ok] eqn:Htry.
  destruct (tryBlock_exact _ _ _ _ _ _ Htry)
    as (Hok & Hr & Hsucc & Hflag & Hin & Hout & Hreq & Hskip & Hcalls & Hstat & Hmb & Hall).
  replace (MAX_RETRIES + 1 - retries lv) with (S (MAX_RETRIES - retries lv)) by lia.
  unfold attemptsAllFail. cbn [attemptsMade seq forallb firstMerge].
  assert (Hzero : (retries lv =? 0) = true -> gen b (retries lv) = gen b 0).
  { intro H0. apply Nat.eqb_eq in H0. now rewrite H0. }
  destruct ok.
  - rewrite retryLoop_done by exact Hsucc.
    apply (f_equal negb) in Hok. rewrite Bool.negb_involutive in Hok. simpl in Hok.
    rewrite <- Hok. cbn [map list_sum fold_right andb].
    exists tried. split; [reflexivity |]. split; [exact Hin |]. split; [exact Hstat |].
    split; [exact Hcalls |]. split; [rewrite Hout; lia |].
    split; [now rewrite Hskip, app_nil_r |].
    split.
    { rewrite Hreq, Bool.orb_false_r.
      destruct (batchApiRequestMadeThisAttempt lv); simpl; [reflexivity |].
      destruct (retries lv =? 0) eqn:H0; simpl; [| reflexivity].
      now rewrite (Hzero eq_refl). }
    rewrite Hall. f_equal.
    unfold attemptFails, mergedBy in *.
    destruct (gen b (retries lv)) as [| | tok parsed g]; try discriminate.
    destruct (mergeAiResponse headerRow chunk (itemsRequiringAiLookup chunk) parsed);
      [reflexivity | discriminate].
  - apply (f_equal negb) in Hok. rewrite Bool.negb_involutive in Hok. simpl in Hok.
    rewrite <- Hok. cbn [andb].
    destruct (catchBlock gen chunk b tried) as [caught broke] eqn:Hcatch.
    assert (Hle' : retries tried <= MAX_RETRIES) by lia.
    destruct (catchBlock_exact _ _ _ _ _ Hle' Hcatch)
      as (Hbroke & Hr' & Hsucc' & Hflag' & Hin' & Hout' & Hreq' & Hskip' & Hcalls' & Hstat'
          & Hall').
    rewrite Hmb in *. rewrite app_nil_r in Hall.
    destruct broke.
    + symmetry in Hbroke. apply Nat.ltb_lt in Hbroke.
      replace (MAX_RETRIES - retries lv) with 0 by lia.
      cbn [attemptsMade seq forallb map list_sum fold_right].
      exists caught. split; [reflexivity |].
      split; [congruence |]. split; [congruence |].
      split; [rewrite Hcalls', Hcalls; reflexivity |].
      split; [rewrite Hout', Hout; lia |].
      split; [rewrite Hskip', Hskip; reflexivity |].
      split; [| rewrite Hall', Hall; reflexivity].
      rewrite Hreq', Hreq, Hflag, Bool.orb_true_r. cbn [andb].
      destruct (batchApiRequestMadeThisAttempt lv); simpl; [lia |].
      destruct (retries lv =? 0); destruct (isRejected (gen b (retries lv))); simpl; lia.
    + symmetry in Hbroke. apply Nat.ltb_ge in Hbroke.
      destruct (IH caught) as (lv' & Hrun & Hi & Hst & Hc & Ho & Hs & Hq & Ha);
        [congruence | lia | lia |].
      replace (MAX_RETRIES + 1 - retries caught) with (MAX_RETRIES - retries lv) in * by lia.
      replace (retries caught) with (S (retries lv)) in * by lia.
      exists lv'. split; [exact Hrun |].
      split; [congruence |]. split; [congruence |].
      split; [rewrite Hc, Hcalls', Hcalls, <- app_assoc; reflexivity |].
      split; [rewrite Ho, Hout', Hout; unfold list_sum; cbn [map fold_right]; lia |].
      split; [rewrite Hs, Hskip', Hskip, app_nil_r; reflexivity |].
      split; [| rewrite Ha, Hall', Hall, app_nil_r; reflexivity].
      rewrite Hq, Hflag', Hflag, Hreq', Hreq. cbn [andb Nat.eqb].
      unfold attemptsAllFail.
      destruct (batchApiRequestMadeThisAttempt lv); simpl; [lia |].
      destruct (retries lv =? 0) eqn:H0; simpl.
      * rewrite (Hzero eq_refl).
        destruct (isRejected (gen b 0)); simpl; lia.
      * lia.
Qed.

(** One batch, exactly. *)
Lemma processBatch_exact (headerRow : Row) (dataRows : list Row) (i : nat) (st : RunState) :
  exists st',
    processBatch gen countTokens headerRow dataRows i st = Some st'
    /\ currentRunOpInputTokens st'
       = currentRunOpInputTokens st + promptTokensOfBatch countTokens headerRow dataRows i
    /\ (inputTokens (currentOperationStats st) = currentRunOpInputTokens st ->
        inputTokens (currentOperationStats st') = currentRunOpInputTokens st')
    /\ (exists new,
          generateContentCalls st' = generateContentCalls st ++ new
          /\ currentRunOpOutputTokens st'
             = currentRunOpOutputTokens st
               + list_sum (map (fun c => responseTokens (gen (fst c) (snd c))) new))
    /\ runSkippedBatchNumbersLocal st'
       = runSkippedBatchNumbersLocal st
         ++ (if batchIsSkipped gen headerRow dataRows i then [i + 1] else [])
    /\ currentRunOpApiRequests st'
       = currentRunOpApiRequests st
         + (if batchIsCounted gen headerRow dataRows i then 1 else 0)
    /\ allProcessedDataRows st'
       = allProcessedDataRows st ++ batchOutput gen headerRow dataRows i.
Proof.
  unfold promptTokensOfBatch, batchIsSkipped, batchIsCounted, batchOutput. cbv zeta.
  destruct (existsb needsLookup (chunkOf dataRows i)) eqn:Hlookup.
  - unfold processBatch. cbv zeta.
    rewrite itemsRequiringAiLookup_empty, Hlookup. cbn [negb andb].
    set (chunk := chunkOf dataRows i).
    unfold itemsRequiringAiLookup at 2.
    rewrite rowData_itemsRequiringAiLookupFrom.
    set (st1 := addInputTokens _ st).
    destruct (retryLoop_exact headerRow chunk (i + 1) (MAX_RETRIES + 1)
                (mkLoop 0 false false st1))
      as (lv' & Hrun & Hi & Hst & Hc & Ho & Hs & Hq & Ha);
      [reflexivity | cbn; lia | cbn; lia |].
    rewrite Hrun. cbn [retries runState batchApiRequestMadeThisAttempt] in *.
    rewrite Nat.sub_0_r in *.
    exists (runState lv'). split; [reflexivity |].
    split; [rewrite Hi; reflexivity |].
    split; [intros _; rewrite Hst, Hi; reflexivity |].
    split.
    { eexists. split; [exact Hc |]. rewrite Ho, map_map. reflexivity. }
    split; [exact Hs |]. split; [exact Hq | exact Ha].
  - rewrite processBatch_no_call by assumption.
    eexists. split; [reflexivity |]. simpl.
    split; [lia |]. split; [auto |].
    split; [exists []; simpl; rewrite app_nil_r; split; [reflexivity | lia] |].
    split; [now rewrite app_nil_r |]. split; [lia | reflexivity].
Qed.

(** A sequence of batches, exactly. *)
Lemma forBatches_exact (headerRow : Row) (dataRows : list Row) :
  forall batches st,
  exists st',
    forBatches gen countTokens headerRow dataRows batches st = Some st'
    /\ currentRunOpInputTokens st'
       = currentRunOpInputTokens st
         + list_sum (map (promptTokensOfBatch countTokens headerRow dataRows) batches)
    /\ (inputTokens (currentOperationStats st) = currentRunOpInputTokens st ->
        inputTokens (currentOperationStats st') = currentRunOpInputTokens st')
    /\ (exists new,
          generateContentCalls st' = generateContentCalls st ++ new
          /\ currentRunOpOutputTokens st'
             = currentRunOpOutputTokens st
               + list_sum (map (fun c => responseTokens (gen (fst c) (snd c))) new))
    /\ runSkippedBatchNumbersLocal st'
       = runSkippedBatchNumbersLocal st
         ++ map (fun i => i + 1) (filter (batchIsSkipped gen headerRow dataRows) batches)
    /\ currentRunOpApiRequests st'
       = currentRunOpApiRequests st
         + length (filter (batchIsCounted gen headerRow dataRows) batches)
    /\ allProcessedDataRows st'
       = allProcessedDataRows st ++ flat_map (batchOutput gen headerRow dataRows) batches.
Proof.
  induction batches as [|i rest IH]; intro st.
  - exists st. simpl. rewrite !app_nil_r.
    split; [reflexivity |]. split; [lia |]. split; [auto |].
    split; [exists []; simpl; rewrite app_nil_r; split; [reflexivity | lia] |].
    split; [reflexivity |]. split; [lia | reflexivity].
  - destruct (processBatch_exact headerRow dataRows i st)
      as (st1 & Hrun1 & Hi1 & Hst1 & (new1 & Hc1 & Ho1) & Hs1 & Hq1 & Ha1).
    destruct (IH st1) as (st' & Hrun & Hi & Hst & (new2 & Hc & Ho) & Hs & Hq & Ha).
    exists st'. cbn [forBatches]. rewrite Hrun1.
    split; [exact Hrun |].
    split; [rewrite Hi, Hi1; unfold list_sum; cbn [map fold_right]; lia |].
    split; [auto |].
    split.
    { exists (new1 ++ new2). split; [now rewrite Hc, Hc1, app_assoc |].
      rewrite Ho, Ho1, map_app, list_sum_app. lia. }
    split.
    { rewrite Hs, Hs1, <- app_assoc. f_equal. cbn [filter].
      destruct (batchIsSkipped gen headerRow dataRows i); reflexivity. }
    split; [| rewrite Ha, Ha1, <- app_assoc; reflexivity].
    rewrite Hq, Hq1. cbn [filter].
    destruct (batchIsCounted gen headerRow dataRows i); simpl; lia.
Qed.

End UrlAccounting.

Lemma estimateBatches_tokens (countTokens : list Row -> nat) (headerRow : Row)
  (dataRows : list Row) (batches : list nat) (totals : nat * nat) :
  fst (estimateBatches countTokens headerRow dataRows batches totals)
  = fst totals
    + list_sum (map (promptTokensOfBatch countTokens headerRow dataRows) batches).
Proof.
  unfold estimateBatches. revert totals.
  induction batches as [|i rest IH]; intro totals; simpl; [lia |].
  rewrite IH. unfold estimateBatch, promptTokensOfBatch.
  destruct totals as [tokens requests]. cbv zeta.
  rewrite existsb_filter_length.
  destruct (length (filter needsLookup (chunkOf dataRows i))) as [|n]; simpl; lia.
Qed.

(** The whole run, exactly: every counter at the end of the run as a
    function of the data and of the behaviour of the service. *)
Lemma handleFindUrlsWithAi_exact
  (gen : nat -> nat -> GenerateContentResult) (countTokens : list Row -> nat)
  (data : Dataset) :
  2 <= length data ->
  exists final,
    handleFindUrlsWithAi gen countTokens data = Finished final
    /\ currentRunOpInputTokens final
       = list_sum (map (promptTokensOfBatch countTokens (hd [] data) (tl data))
                     (seq 0 (totalBatchesOf (tl data))))
    /\ inputTokens (currentOperationStats final) = currentRunOpInputTokens final
    /\ currentRunOpOutputTokens final
       = list_sum (map (fun c => responseTokens (gen (fst c) (snd c)))
                     (generateContentCalls final))
    /\ runSkippedBatchNumbersLocal final
       = map (fun i => i + 1)
           (filter (batchIsSkipped gen (hd [] data) (tl data))
              (seq 0 (totalBatchesOf (tl data))))
    /\ currentRunOpApiRequests final
       = length (filter (batchIsCounted gen (hd [] data) (tl data))
                   (seq 0 (totalBatchesOf (tl data))))
    /\ status (currentOperationStats final)
       = (if 0 <? length (runSkippedBatchNumbersLocal final) then error else completed)
    /\ allProcessedDataRows final
       = flat_map (batchOutput gen (hd [] data) (tl data))
           (seq 0 (totalBatchesOf (tl data))).
Proof.
  intro Hlen. unfold handleFindUrlsWithAi.
  apply Nat.ltb_ge in Hlen. rewrite Hlen. cbv zeta.
  destruct (forBatches_exact gen countTokens (hd [] data) (tl data)
              (seq 0 (totalBatchesOf (tl data))) initialRunState)
    as (st & Hrun & Hi & Hst & (new & Hc & Ho) & Hs & Hq & Ha).
  rewrite Hrun. exists (finishRun st). split; [reflexivity |].
  simpl in Hi, Hst, Hc, Ho, Hs, Hq, Ha. unfold finishRun. simpl.
  split; [exact Hi |]. split; [now apply Hst |].
  split; [now rewrite Hc |]. split; [exact Hs |]. split; [exact Hq |].
  split; [reflexivity | exact Ha].
Qed.

(** X1: prompt tokens are counted once per batch that is sent, whatever the
    number of retries, so that the run ends with exactly the input tokens the
    pre-run estimator announces for the same data and token counter; the
    operation statistics show the same number. *)
Theorem X1_input_tokens_equal_the_estimate :
  forall (gen : nat -> nat -> GenerateContentResult) (countTokens : list Row -> nat)
         (totalApiRequestsMade : nat) (data : Dataset),
    2 <= length data ->
    exists estimation final,
      handleEstimateFullAiRunCost countTokens totalApiRequestsMade data = Some estimation
      /\ handleFindUrlsWithAi gen countTokens data = Finished final
      /\ currentRunOpInputTokens final = preRunInputTokens estimation
      /\ inputTokens (currentOperationStats final) = preRunInputTokens estimation.
Proof.
  intros gen countTokens totalApiRequestsMade data Hlen.
  destruct (handleFindUrlsWithAi_exact gen countTokens data Hlen)
    as (final & Hrun & Hi & Hst & _).
  unfold handleEstimateFullAiRunCost.
  apply Nat.ltb_ge in Hlen. rewrite Hlen. cbv zeta.
  pose proof (estimateBatches_tokens countTokens (hd [] data) (tl data)
                (seq 0 (totalBatchesOf (tl data))) (0, 0)) as Htokens.
  destruct (estimateBatches countTokens (hd [] data) (tl data)
              (seq 0 (totalBatchesOf (tl data))) (0, 0)) as [tokens requests].
  eexists _, final. split; [reflexivity |]. split; [exact Hrun |].
  simpl in *. rewrite Hst, Hi, Htokens. split; reflexivity.
Qed.

Lemma X1_input_tokens_equal_the_estimate_witness :
  exists estimation final,
    handleEstimateFullAiRunCost tokens70 0 sampleSheet = Some estimation
    /\ handleFindUrlsWithAi genRejectsFirst tokens70 sampleSheet = Finished final
    /\ currentRunOpInputTokens final = preRunInputTokens estimation
    /\ inputTokens (currentOperationStats final) = preRunInputTokens estimation.
Proof.
  apply (X1_input_tokens_equal_the_estimate genRejectsFirst tokens70 0 sampleSheet).
  simpl. lia.
Defined.

(** X2: the output tokens of the run are the response tokens of every call
    that returned a text, summed over all calls made: a response that then
    fails to parse or to merge is still paid for, a rejected call adds
    nothing. *)
Theorem X2_output_tokens_sum_over_all_calls :
  forall (gen : nat -> nat -> GenerateContentResult) (countTokens : list Row -> nat)
         (data : Dataset),
    2 <= length data ->
    exists final,
      handleFindUrlsWithAi gen countTokens data = Finished final
      /\ currentRunOpOutputTokens final
         = list_sum (map (fun c => responseTokens (gen (fst c) (snd c)))
                       (generateContentCalls final)).
Proof.
  intros gen countTokens data Hlen.
  destruct (handleFindUrlsWithAi_exact gen countTokens data Hlen)
    as (final & Hrun & _ & _ & Ho & _).
  exists final. split; assumption.
Qed.

Lemma X2_output_tokens_sum_over_all_calls_witness :
  exists final,
    handleFindUrlsWithAi genRejectsFirst tokens70 sampleSheet = Finished final
    /\ currentRunOpOutputTokens final
       = list_sum (map (fun c => responseTokens (genRejectsFirst (fst c) (snd c)))
                     (generateContentCalls final)).
Proof.
  apply (X2_output_tokens_sum_over_all_calls genRejectsFirst tokens70 sampleSheet).
  simpl. lia.
Defined.

(** X3: the list of skipped batches holds, in increasing order and once
    each, the numbers of the batches that need the service and fail on every
    one of their four attempts; the operation ends with status ['error'] when
    there is such a batch and ['completed'] otherwise. *)
Theorem X3_skipped_batches_and_final_status :
  forall (gen : nat -> nat -> GenerateContentResult) (countTokens : list Row -> nat)
         (data : Dataset),
    2 <= length data ->
    exists final,
      handleFindUrlsWithAi gen countTokens data = Finished final
      /\ runSkippedBatchNumbersLocal final
         = map (fun i => i + 1)
             (filter (batchIsSkipped gen (hd [] data) (tl data))
                (seq 0 (totalBatchesOf (tl data))))
      /\ status (currentOperationStats final)
         = (if existsb (batchIsSkipped gen (hd [] data) (tl data))
                 (seq 0 (totalBatchesOf (tl data)))
            then error else completed).
Proof.
  intros gen countTokens data Hlen.
  destruct (handleFindUrlsWithAi_exact gen countTokens data Hlen)
    as (final & Hrun & _ & _ & _ & Hs & _ & Hstatus & _).
  exists final. split; [exact Hrun |]. split; [exact Hs |].
  rewrite Hstatus, Hs, length_map, existsb_filter_length.
  destruct (length (filter (batchIsSkipped gen (hd [] data) (tl data))
                      (seq 0 (totalBatchesOf (tl data))))); reflexivity.
Qed.

Lemma X3_skipped_batches_and_final_status_witness :
  exists final,
    handleFindUrlsWithAi genAlwaysRejects tokens70 sampleSheet = Finished final
    /\ runSkippedBatchNumbersLocal final
       = map (fun i => i + 1)
           (filter (batchIsSkipped genAlwaysRejects (hd [] sampleSheet) (tl sampleSheet))
              (seq 0 (totalBatchesOf (tl sampleSheet))))
    /\ status (currentOperationStats final)
       = (if existsb (batchIsSkipped genAlwaysRejects (hd [] sampleSheet) (tl sampleSheet))
               (seq 0 (totalBatchesOf (tl sampleSheet)))
          then error else completed).
Proof.
  apply (X3_skipped_batches_and_final_status genAlwaysRejects tokens70 sampleSheet).
  simpl. lia.
Defined.

(** X4: the request counter of the run is the number of batches that need
    the service and whose first call returned or whose attempts all failed;
    it never exceeds the number of requests the estimator announces. *)
Theorem X4_request_counter_exact :
  forall (gen : nat -> nat -> GenerateContentResult)
         (countTokens countTokensForEstimate : list Row -> nat)
         (totalApiRequestsMade : nat) (data : Dataset),
    2 <= length data ->
    exists estimation final,
      handleEstimateFullAiRunCost countTokensForEstimate totalApiRequestsMade data
      = Some estimation
      /\ handleFindUrlsWithAi gen countTokens data = Finished final
      /\ currentRunOpApiRequests final
         = length (filter (batchIsCounted gen (hd [] data) (tl data))
                     (seq 0 (totalBatchesOf (tl data))))
      /\ currentRunOpApiRequests final <= preRunApiRequests estimation.
Proof.
  intros gen countTokens countTokensForEstimate totalApiRequestsMade data Hlen.
  destruct (handleFindUrlsWithAi_exact gen countTokens data Hlen)
    as (final & Hrun & _ & _ & _ & _ & Hq & _ & _).
  unfold handleEstimateFullAiRunCost.
  apply Nat.ltb_ge in Hlen. rewrite Hlen. cbv zeta.
  pose proof (estimateBatches_requests countTokensForEstimate (hd [] data) (tl data)
                (seq 0 (totalBatchesOf (tl data))) (0, 0)) as Hrequests.
  destruct (estimateBatches countTokensForEstimate (hd [] data) (tl data)
              (seq 0 (totalBatchesOf (tl data))) (0, 0)) as [tokens requests].
  eexists _, final. split; [reflexivity |]. split; [exact Hrun |].
  split; [exact Hq |]. simpl in *. rewrite Hq, Hrequests. clear.
  induction (seq 0 (totalBatchesOf (tl data))) as [|i rest IH]; simpl; [lia |].
  unfold batchIsCounted at 1.
  destruct (existsb needsLookup (chunkOf (tl data) i)); cbn [andb length];
    [| exact IH].
  match goal with |- context [if ?c then _ else _] => destruct c end;
    cbn [length]; lia.
Qed.

Lemma X4_request_counter_exact_witness :
  exists estimation final,
    handleEstimateFullAiRunCost tokens70 0 sampleSheet = Some estimation
    /\ handleFindUrlsWithAi genRejectsFirst tokens70 sampleSheet = Finished final
    /\ currentRunOpApiRequests final
       = length (filter (batchIsCounted genRejectsFirst (hd [] sampleSheet) (tl sampleSheet))
                   (seq 0 (totalBatchesOf (tl sampleSheet))))
    /\ currentRunOpApiRequests final <= preRunApiRequests estimation.
Proof.
  apply (X4_request_counter_exact genRejectsFirst tokens70 tokens70 0 sampleSheet).
  simpl. lia.
Defined.

Lemma attemptFails_mergedBy (headerRow : Row) (chunk : list Row)
  (result : GenerateContentResult) :
  attemptFails headerRow chunk result = true ->
  mergedBy headerRow chunk result = None.
Proof.
  unfold attemptFails, mergedBy. destruct result as [| | tok parsed g]; try reflexivity.
  destruct (mergeAiResponse headerRow chunk (itemsRequiringAiLookup chunk) parsed);
    [discriminate | reflexivity].
Qed.

Lemma attemptsAllFail_firstMerge (gen : nat -> nat -> GenerateContentResult)
  (headerRow : Row) (chunk : list Row) (b : nat) :
  forall n r,
    attemptsAllFail gen headerRow chunk b n r = true ->
    firstMerge gen headerRow chunk b n r = None.
Proof.
  unfold attemptsAllFail.
  induction n as [|n IH]; intros r Hall; simpl in *; [reflexivity |].
  apply andb_prop in Hall. destruct Hall as [Hfail Hrest].
  rewrite (attemptFails_mergedBy _ _ _ Hfail). now apply IH.
Qed.

(** X5: the data rows of the result are the outputs of the batches,
    concatenated in batch order, where the output of a batch is decided by
    its first successful attempt alone; a batch that is skipped contributes
    its original rows, so no row is lost. *)
Theorem X5_output_is_the_batch_outputs_in_order :
  forall (gen : nat -> nat -> GenerateContentResult) (countTokens : list Row -> nat)
         (data : Dataset),
    2 <= length data ->
    exists final,
      handleFindUrlsWithAi gen countTokens data = Finished final
      /\ allProcessedDataRows final
         = flat_map (batchOutput gen (hd [] data) (tl data))
             (seq 0 (totalBatchesOf (tl data)))
      /\ (forall i, batchIsSkipped gen (hd [] data) (tl data) i = true ->
            batchOutput gen (hd [] data) (tl data) i = chunkOf (tl data) i).
Proof.
  intros gen countTokens data Hlen.
  destruct (handleFindUrlsWithAi_exact gen countTokens data Hlen)
    as (final & Hrun & _ & _ & _ & _ & _ & _ & Ha).
  exists final. split; [exact Hrun |]. split; [exact Ha |].
  intros i Hskipped. unfold batchIsSkipped in Hskipped. unfold batchOutput. cbv zeta.
  apply andb_prop in Hskipped. destruct Hskipped as [Hlookup Hall].
  rewrite Hlookup, (attemptsAllFail_firstMerge _ _ _ _ _ _ Hall). reflexivity.
Qed.

Lemma X5_output_is_the_batch_outputs_in_order_witness :
  exists final,
    handleFindUrlsWithAi genAlwaysRejects tokens70 sampleSheet = Finished final
    /\ allProcessedDataRows final
       = flat_map (batchOutput genAlwaysRejects (hd [] sampleSheet) (tl sampleSheet))
           (seq 0 (totalBatchesOf (tl sampleSheet)))
    /\ (forall i,
          batchIsSkipped genAlwaysRejects (hd [] sampleSheet) (tl sampleSheet) i = true ->
          batchOutput genAlwaysRejects (hd [] sampleSheet) (tl sampleSheet) i
          = chunkOf (tl sampleSheet) i).
Proof.
  apply (X5_output_is_the_batch_outputs_in_order genAlwaysRejects tokens70 sampleSheet).
  simpl. lia.
Defined.

(** X6: a row whose URL cell is already plausible comes out of the run as
    it went in, at the same position, also when it sits in a batch that is
    sent to the service and whatever the service answers. *)
Theorem X6_plausible_rows_are_never_modified :
  forall (gen : nat -> nat -> GenerateContentResult) (countTokens : list Row -> nat)
         (data : Dataset) (p : nat) (row : Row),
    2 <= length data ->
    nth_error (tl data) p = Some row ->
    isPlausibleUrl (cellOr row 2) = true ->
    exists final,
      handleFindUrlsWithAi gen countTokens data = Finished final
      /\ nth_error (allProcessedDataRows final) p = Some row.
Proof.
  intros gen countTokens data p row Hlen Hrow Hplausible.
  destruct (handleFindUrlsWithAi_finishes gen countTokens data Hlen)
    as (final & Hrun & Hrel & _).
  exists final. split; [exact Hrun |].
  destruct (Forall2_nth_error _ _ _ Hrel p row Hrow) as (row' & Hrow' & Horigin).
  rewrite Hrow'. f_equal. now apply (rowOrigin_plausible row row').
Qed.

Lemma X6_plausible_rows_are_never_modified_witness :
  exists final,
    handleFindUrlsWithAi genAnswers tokens70 sampleSheet = Finished final
    /\ nth_error (allProcessedDataRows final) 1 = Some ["Beta"; "b"; "good.com"].
Proof.
  apply (X6_plausible_rows_are_never_modified genAnswers tokens70 sampleSheet 1
           ["Beta"; "b"; "good.com"]).
  - simpl. lia.
  - reflexivity.
  - vm_compute. reflexivity.
Defined.

(** X7: a response is merged only as a whole.  When the number of its rows
    (after the header row is dropped) differs from the number of rows sent,
    nothing of it is merged and the attempt fails. *)
Theorem X7_row_count_mismatch_fails_the_attempt :
  forall (headerRow : Row) (chunk : list Row) (uncleaned : JsVal) (aiRows : list JsVal)
         (tok : nat) (g : list (option string)),
    aiProcessedRowsOnlyOf headerRow uncleaned = Some (JArr aiRows) ->
    length aiRows <> length (filter needsLookup chunk) ->
    mergeAiResponse headerRow chunk (itemsRequiringAiLookup chunk) (Some uncleaned) = None
    /\ attemptFails headerRow chunk (Text tok (Some uncleaned) g) = true.
Proof.
  intros headerRow chunk uncleaned aiRows tok g Hrows Hlen.
  assert (Hnone : mergeAiResponse headerRow chunk (itemsRequiringAiLookup chunk)
                    (Some uncleaned) = None).
  { unfold mergeAiResponse, aiProcessedRowsOnlyOf in *.
    destruct (cleanAiNotFoundResponses uncleaned) as [suggested |]; [| reflexivity].
    cbv zeta. rewrite Hrows.
    rewrite length_itemsRequiringAiLookup.
    apply Nat.eqb_neq in Hlen. rewrite Hlen. reflexivity. }
  split; [exact Hnone |]. unfold attemptFails. now rewrite Hnone.
Qed.

Lemma X7_row_count_mismatch_fails_the_attempt_witness :
  mergeAiResponse sampleHeader sampleRows (itemsRequiringAiLookup sampleRows)
    (Some (ofRows [sampleHeader; ["Acme"; "a"; "acme.com"]; ["Beta"; "b"; "beta.com"]]))
  = None
  /\ attemptFails sampleHeader sampleRows
       (Text 40
          (Some (ofRows [sampleHeader; ["Acme"; "a"; "acme.com"]; ["Beta"; "b"; "beta.com"]]))
          [])
     = true.
Proof.
  apply (X7_row_count_mismatch_fails_the_attempt sampleHeader sampleRows _
           [ofRow ["Acme"; "a"; "acme.com"]; ofRow ["Beta"; "b"; "beta.com"]]).
  - vm_compute. reflexivity.
  - vm_compute. discriminate.
Defined.

(** * Further properties of the dossier run *)

Section DossierExact.

Variable genPro : nat -> nat -> ProResult.
Variable countPromptTokens : string -> string -> string -> nat.

(** One data row, exactly. *)
Lemma processDossierRow_exact (i : nat) (st : DossierState) (done todo : list Row) (row : Row) :
  dossierRows st = done ++ row :: todo ->
  length done = i ->
  exists st',
    processDossierRow genPro countPromptTokens i st = Some st'
    /\ dossierRows st' = done ++ dossierRowResult genPro i row :: todo
    /\ status (dossierStats st') = status (dossierStats st)
    /\ inputTokens (dossierStats st')
       = inputTokens (dossierStats st) + dossierInputOf countPromptTokens row
    /\ outputTokens (dossierStats st')
       = outputTokens (dossierStats st) + dossierOutputOf genPro i row
    /\ apiRequests (dossierStats st')
       = apiRequests (dossierStats st) + dossierRequestsOf genPro i row
    /\ proCalls st' = proCalls st ++ dossierCallsOfRow genPro i row.
Proof.
  intros Hrows Hi.
  unfold processDossierRow, dossierRowResult, dossierInputOf, dossierOutputOf,
    dossierRequestsOf, dossierCallsOfRow, hasOrgName. cbv zeta.
  assert (Hrow : nth i (dossierRows st) [] = row).
  { rewrite Hrows, <- Hi. rewrite app_nth2, Nat.sub_diag by lia. reflexivity. }
  rewrite Hrow.
  destruct (Js.trim (cellOr row 0) =? "")%string.
  - eexists. split; [reflexivity |]. simpl.
    rewrite !Nat.add_0_r, app_nil_r. repeat split; auto.
  - unfold generateDetailedDescriptionForOrganization, dossierAnswer, dossierCallsOf.
    cbv zeta. cbn [negb].
    unfold MAX_PRO_RETRIES. cbn [Nat.add dossierRetryLoop Nat.leb Nat.ltb].
    destruct (genPro i 0) as [| | text0 tokens0].
    3:{ eexists. split; [reflexivity |]. simpl.
        rewrite Hrows, <- Hi, updateRow_middle.
        repeat split; auto; lia. }
    all: destruct (genPro i 1) as [| | text1 tokens1];
      (eexists; split; [reflexivity |]; simpl;
       try (rewrite Hrows, <- Hi, updateRow_middle);
       rewrite <- ?app_assoc; simpl; repeat split; auto; lia).
Qed.

(** The loop over the data rows, exactly. *)
Lemma forDossierRows_exact :
  forall (todo done : list Row) (st : DossierState),
    dossierRows st = done ++ todo ->
    exists st',
      forDossierRows genPro countPromptTokens (seq (length done) (length todo)) st = Some st'
      /\ dossierRows st'
         = done ++ map (fun ir => dossierRowResult genPro (fst ir) (snd ir))
                     (indexedFrom (length done) todo)
      /\ status (dossierStats st') = status (dossierStats st)
      /\ inputTokens (dossierStats st')
         = inputTokens (dossierStats st)
           + list_sum (map (dossierInputOf countPromptTokens) todo)
      /\ outputTokens (dossierStats st')
         = outputTokens (dossierStats st)
           + list_sum (map (fun ir => dossierOutputOf genPro (fst ir) (snd ir))
                         (indexedFrom (length done) todo))
      /\ apiRequests (dossierStats st')
         = apiRequests (dossierStats st)
           + list_sum (map (fun ir => dossierRequestsOf genPro (fst ir) (snd ir))
                         (indexedFrom (length done) todo))
      /\ proCalls st'
         = proCalls st
           ++ flat_map (fun ir => dossierCallsOfRow genPro (fst ir) (snd ir))
                (indexedFrom (length done) todo).
Proof.
  unfold indexedFrom.
  induction todo as [|row todo IH]; intros done st Hrows.
  - rewrite app_nil_r in Hrows. exists st. simpl.
    rewrite !app_nil_r, !Nat.add_0_r. repeat split; auto.
  - destruct (processDossierRow_exact (length done) st done todo row Hrows eq_refl)
      as (st1 & Hstep & Hrows1 & Hs1 & Hi1 & Ho1 & Hq1 & Hc1).
    destruct (IH (done ++ [dossierRowResult genPro (length done) row]) st1) as
      (st' & Hrun & Hrows' & Hs & Hi & Ho & Hq & Hc).
    { rewrite Hrows1, <- app_assoc. reflexivity. }
    rewrite length_app in *. simpl length in *.
    replace (length done + 1) with (S (length done)) in * by lia.
    exists st'. cbn [seq forDossierRows]. rewrite Hstep.
    split; [exact Hrun |].
    split; [rewrite Hrows', <- app_assoc; reflexivity |].
    split; [congruence |].
    unfold list_sum in *. cbn [combine map fold_right flat_map fst snd].
    split; [rewrite Hi, Hi1; lia |].
    split; [rewrite Ho, Ho1; lia |].
    split; [rewrite Hq, Hq1; lia |].
    rewrite Hc, Hc1, <- app_assoc. reflexivity.
Qed.

End DossierExact.

Lemma nth_error_indexedFrom (k : nat) (rows : list Row) (i : nat) :
  nth_error (indexedFrom k rows) i
  = option_map (fun row => (k + i, row)) (nth_error rows i).
Proof.
  unfold indexedFrom. revert k i.
  induction rows as [|row rest IH]; intros k i; simpl.
  - destruct i; reflexivity.
  - destruct i as [|i]; simpl; [now rewrite Nat.add_0_r |].
    rewrite IH. destruct (nth_error rest i); simpl; [| reflexivity].
    do 2 f_equal. lia.
Qed.

Lemma handleGenerateFullDescriptions_exact
  (genPro : nat -> nat -> ProResult) (countPromptTokens : string -> string -> string -> nat)
  (data : Dataset) :
  2 <= length data ->
  exists final,
    handleGenerateFullDescriptions genPro countPromptTokens data = Finished final
    /\ status (dossierStats final) = completed
    /\ dossierRows final
       = map (fun ir => dossierRowResult genPro (fst ir) (snd ir)) (indexedFrom 0 (tl data))
    /\ inputTokens (dossierStats final)
       = list_sum (map (dossierInputOf countPromptTokens) (tl data))
    /\ outputTokens (dossierStats final)
       = list_sum (map (fun ir => dossierOutputOf genPro (fst ir) (snd ir))
                     (indexedFrom 0 (tl data)))
    /\ apiRequests (dossierStats final)
       = list_sum (map (fun ir => dossierRequestsOf genPro (fst ir) (snd ir))
                     (indexedFrom 0 (tl data)))
    /\ proCalls final
       = flat_map (fun ir => dossierCallsOfRow genPro (fst ir) (snd ir))
           (indexedFrom 0 (tl data)).
Proof.
  intro Hlen. unfold handleGenerateFullDescriptions.
  apply Nat.ltb_ge in Hlen. rewrite Hlen. cbv zeta.
  set (st0 := mkDossier (tl data) _ [] []).
  destruct (forDossierRows_exact genPro countPromptTokens (tl data) [] st0 eq_refl)
    as (st & Hrun & Hrows & Hs & Hi & Ho & Hq & Hc).
  simpl length in Hrun. rewrite Hrun.
  eexists. split; [reflexivity |]. simpl in *.
  repeat split; assumption.
Qed.

(** X8: the dossier run always runs to its end with status ['completed'],
    whatever the service does.  Each data row with an organization name gets
    the text of the first of its two attempts that returns one, stored in
    column 63 of the row padded to 64 cells; a row whose two attempts both
    fail, like a row without name, is left exactly as it was. *)
Theorem X8_dossier_rows_exact :
  forall (genPro : nat -> nat -> ProResult)
         (countPromptTokens : string -> string -> string -> nat) (data : Dataset),
    2 <= length data ->
    exists final,
      handleGenerateFullDescriptions genPro countPromptTokens data = Finished final
      /\ status (dossierStats final) = completed
      /\ dossierRows final
         = map (fun ir => dossierRowResult genPro (fst ir) (snd ir))
             (indexedFrom 0 (tl data))
      /\ (forall i row,
            nth_error (tl data) i = Some row ->
            dossierAnswer genPro i = None ->
            nth_error (dossierRows final) i = Some row)
      /\ (forall i row text tokens,
            nth_error (tl data) i = Some row ->
            hasOrgName row = true ->
            dossierAnswer genPro i = Some (text, tokens) ->
            exists row',
              nth_error (dossierRows final) i = Some row'
              /\ length row' = Nat.max (length row) 64
              /\ cellOr row' 63 = text
              /\ forall j, j <> 63 -> cellOr row' j = cellOr row j).
Proof.
  intros genPro countPromptTokens data Hlen.
  destruct (handleGenerateFullDescriptions_exact genPro countPromptTokens data Hlen)
    as (final & Hrun & Hstatus & Hrows & _).
  exists final. split; [exact Hrun |]. split; [exact Hstatus |]. split; [exact Hrows |].
  split.
  - intros i row Hrow Hnone.
    rewrite Hrows, nth_error_map, nth_error_indexedFrom, Hrow. simpl.
    unfold dossierRowResult. rewrite Hnone. now destruct (hasOrgName row).
  - intros i row text tokens Hrow Hname Hanswer.
    rewrite Hrows, nth_error_map, nth_error_indexedFrom, Hrow. simpl.
    unfold dossierRowResult. rewrite Hname, Hanswer.
    eexists. split; [reflexivity |].
    pose proof (padTo_length (DESCRIPTION_COL_INDEX + 1) row) as Hpad.
    unfold DESCRIPTION_COL_INDEX in *. simpl Nat.add in *.
    split.
    + rewrite assignCell_length_in_range by lia.
      unfold padTo. rewrite length_app, repeat_length. lia.
    + split.
      * apply cellOr_nth_error. apply assignCell_same.
      * intros j Hj. rewrite <- (cellOr_padTo 64 row j).
        unfold cellOr. rewrite <- !nth_default_eq. unfold nth_default.
        rewrite assignCell_other; [reflexivity | lia | assumption].
Qed.

Lemma X8_dossier_rows_exact_witness :
  exists final,
    handleGenerateFullDescriptions proAlwaysFails promptTokens100 sheetWithUnnamedRow
    = Finished final
    /\ status (dossierStats final) = completed
    /\ dossierRows final
       = map (fun ir => dossierRowResult proAlwaysFails (fst ir) (snd ir))
           (indexedFrom 0 (tl sheetWithUnnamedRow))
    /\ (forall i row,
          nth_error (tl sheetWithUnnamedRow) i = Some row ->
          dossierAnswer proAlwaysFails i = None ->
          nth_error (dossierRows final) i = Some row)
    /\ (forall i row text tokens,
          nth_error (tl sheetWithUnnamedRow) i = Some row ->
          hasOrgName row = true ->
          dossierAnswer proAlwaysFails i = Some (text, tokens) ->
          exists row',
            nth_error (dossierRows final) i = Some row'
            /\ length row' = Nat.max (length row) 64
            /\ cellOr row' 63 = text
            /\ forall j, j <> 63 -> cellOr row' j = cellOr row j).
Proof.
  apply (X8_dossier_rows_exact proAlwaysFails promptTokens100 sheetWithUnnamedRow).
  simpl. lia.
Defined.

(** X9: the statistics of the dossier run.  Prompt tokens are added once
    per named row, whatever the number of attempts; response tokens and the
    request are added only for the attempt that returns a text, so that the
    request count is the number of rows that got a dossier; and at most two
    calls are made per row, none for a row without name. *)
Theorem X9_dossier_statistics_exact :
  forall (genPro : nat -> nat -> ProResult)
         (countPromptTokens : string -> string -> string -> nat) (data : Dataset),
    2 <= length data ->
    exists final,
      handleGenerateFullDescriptions genPro countPromptTokens data = Finished final
      /\ inputTokens (dossierStats final)
         = list_sum (map (dossierInputOf countPromptTokens) (tl data))
      /\ outputTokens (dossierStats final)
         = list_sum (map (fun ir => dossierOutputOf genPro (fst ir) (snd ir))
                       (indexedFrom 0 (tl data)))
      /\ apiRequests (dossierStats final)
         = list_sum (map (fun ir => dossierRequestsOf genPro (fst ir) (snd ir))
                       (indexedFrom 0 (tl data)))
      /\ proCalls final
         = flat_map (fun ir => dossierCallsOfRow genPro (fst ir) (snd ir))
             (indexedFrom 0 (tl data))
      /\ (forall i row, length (dossierCallsOfRow genPro i row) <= MAX_PRO_RETRIES + 1)
      /\ (forall i row, dossierRequestsOf genPro i row <= 1).
Proof.
  intros genPro countPromptTokens data Hlen.
  destruct (handleGenerateFullDescriptions_exact genPro countPromptTokens data Hlen)
    as (final & Hrun & _ & _ & Hi & Ho & Hq & Hc).
  exists final. repeat split; try assumption.
  - intros i row. unfold dossierCallsOfRow, dossierCallsOf.
    destruct (hasOrgName row); destruct (genPro i 0); simpl; unfold MAX_PRO_RETRIES; lia.
  - intros i row. unfold dossierRequestsOf.
    destruct (hasOrgName row); [destruct (dossierAnswer genPro i) |]; lia.
Qed.

Lemma X9_dossier_statistics_exact_witness :
  exists final,
    handleGenerateFullDescriptions proAlwaysAnswers promptTokens100 sheetWithUnnamedRow
    = Finished final
    /\ inputTokens (dossierStats final)
       = list_sum (map (dossierInputOf promptTokens100) (tl sheetWithUnnamedRow))
    /\ outputTokens (dossierStats final)
       = list_sum (map (fun ir => dossierOutputOf proAlwaysAnswers (fst ir) (snd ir))
                     (indexedFrom 0 (tl sheetWithUnnamedRow)))
    /\ apiRequests (dossierStats final)
       = list_sum (map (fun ir => dossierRequestsOf proAlwaysAnswers (fst ir) (snd ir))
                     (indexedFrom 0 (tl sheetWithUnnamedRow)))
    /\ proCalls final
       = flat_map (fun ir => dossierCallsOfRow proAlwaysAnswers (fst ir) (snd ir))
           (indexedFrom 0 (tl sheetWithUnnamedRow))
    /\ (forall i row, length (dossierCallsOfRow proAlwaysAnswers i row) <= MAX_PRO_RETRIES + 1)
    /\ (forall i row, dossierRequestsOf proAlwaysAnswers i row <= 1).
Proof.
  apply (X9_dossier_statistics_exact proAlwaysAnswers promptTokens100 sheetWithUnnamedRow).
  simpl. lia.
Defined.

(** * Further properties of the cost accountant *)

Lemma num_le (a b : nat) : a <= b -> (num a <= num b)%Q.
Proof.
  intro H. unfold num. rewrite <- Zle_Qle. now apply Nat2Z.inj_le.
Qed.

Lemma perMillion_le (a b : nat) (price : Q) :
  a <= b -> (0 <= price)%Q ->
  (num a / 1000000 * price <= num b / 1000000 * price)%Q.
Proof.
  intros Hab Hprice.
  apply Qmult_le_compat_r; [| exact Hprice].
  unfold Qdiv. apply Qmult_le_compat_r; [now apply num_le | discriminate].
Qed.

(** X10: for either model the operation cost never decreases when the
    input or the output tokens grow, and the number of requests does not
    enter it at all. *)
Theorem X10_operation_cost_monotone :
  forall (modelType : ModelType)
         (inputTokens inputTokens' outputTokens outputTokens' apiRequests apiRequests' : nat),
    inputTokens <= inputTokens' ->
    outputTokens <= outputTokens' ->
    (calculateOperationCost inputTokens outputTokens apiRequests modelType
     <= calculateOperationCost inputTokens' outputTokens' apiRequests' modelType)%Q.
Proof.
  intros modelType i i' o o' r r' Hi Ho.
  unfold calculateOperationCost.
  destruct modelType; apply Qplus_le_compat; apply perMillion_le;
    try assumption; discriminate.
Qed.

Lemma X10_operation_cost_monotone_witness :
  (calculateOperationCost 1000 20 7 pro <= calculateOperationCost 2000 20 0 pro)%Q.
Proof.
  apply (X10_operation_cost_monotone pro 1000 2000 20 20 7 0); lia.
Defined.

(** X11: the cost announced by the pre-run estimator is the input cost of
    the estimated prompt tokens plus what the estimated requests add to the
    grounding bill of the day, given the requests already made in the
    session: nothing while the session stays within the 1500 free requests,
    35 dollars per thousand for the requests beyond. *)
Theorem X11_estimate_prices_grounding_on_the_session :
  forall (countTokens : list Row -> nat) (totalApiRequestsMade : nat) (data : Dataset),
    2 <= length data ->
    exists estimation,
      handleEstimateFullAiRunCost countTokens totalApiRequestsMade data = Some estimation
      /\ (estimatedInputCost estimation
          == num (preRunInputTokens estimation) / 1000000 * (15 # 100)
             + (groundingTerm (totalApiRequestsMade + preRunApiRequests estimation)
                - groundingTerm totalApiRequestsMade))%Q
      /\ (totalApiRequestsMade + preRunApiRequests estimation
          <= FLASH_FREE_GROUNDING_REQUESTS_PER_DAY ->
          (estimatedInputCost estimation
           == num (preRunInputTokens estimation) / 1000000 * (15 # 100))%Q).
Proof.
  intros countTokens totalApiRequestsMade data Hlen.
  unfold handleEstimateFullAiRunCost.
  apply Nat.ltb_ge in Hlen. rewrite Hlen. cbv zeta.
  destruct (estimateBatches countTokens (hd [] data) (tl data)
              (seq 0 (totalBatchesOf (tl data))) (0, 0)) as [tokens requests].
  eexists. split; [reflexivity |]. simpl.
  split.
  - rewrite estimatedGroundingCost_session. reflexivity.
  - intro Hfree. rewrite estimatedGroundingCost_session.
    rewrite !groundingTerm_free_tier by lia.
    unfold FLASH_PRICE_INPUT_PER_MILLION_TOKENS. ring.
Qed.

Lemma X11_estimate_prices_grounding_on_the_session_witness :
  exists estimation,
    handleEstimateFullAiRunCost tokens70 1500 sampleSheet = Some estimation
    /\ (estimatedInputCost estimation
        == num (preRunInputTokens estimation) / 1000000 * (15 # 100)
           + (groundingTerm (1500 + preRunApiRequests estimation)
              - groundingTerm 1500))%Q
    /\ (1500 + preRunApiRequests estimation <= FLASH_FREE_GROUNDING_REQUESTS_PER_DAY ->
        (estimatedInputCost estimation
         == num (preRunInputTokens estimation) / 1000000 * (15 # 100))%Q).
Proof.
  apply (X11_estimate_prices_grounding_on_the_session tokens70 1500 sampleSheet).
  simpl. lia.
Defined.

(** ** Strings: trimming, lower-casing, searching *)

Lemma trimEnd_idempotent :
  forall s, Js.trimEnd (Js.trimEnd s) = Js.trimEnd s.
Proof.
  induction s as [| c rest IH]; [reflexivity |].
  cbn [Js.trimEnd].
  destruct (Js.isWhiteSpace c && (Js.trimEnd rest =? "")%string) eqn:Hc.
  - reflexivity.
  - cbn [Js.trimEnd]. rewrite IH, Hc. reflexivity.
Qed.

Lemma trimStart_head :
  forall s,
    Js.trimStart s = ""
    \/ exists c r, Js.trimStart s = String c r /\ Js.isWhiteSpace c = false.
Proof.
  induction s as [| c rest IH]; [left; reflexivity |].
  cbn [Js.trimStart].
  destruct (Js.isWhiteSpace c) eqn:Hc; [exact IH |].
  right. exists c, rest. split; [reflexivity | exact Hc].
Qed.

Lemma trimEnd_head :
  forall c r, Js.isWhiteSpace c = false -> Js.trimEnd (String c r) = String c (Js.trimEnd r).
Proof.
  intros c r Hc. cbn [Js.trimEnd]. rewrite Hc. reflexivity.
Qed.

Lemma trimStart_fixed :
  forall c r, Js.isWhiteSpace c = false -> Js.trimStart (String c r) = String c r.
Proof.
  intros c r Hc. cbn [Js.trimStart]. rewrite Hc. reflexivity.
Qed.

Lemma trim_idempotent :
  forall s, Js.trim (Js.trim s) = Js.trim s.
Proof.
  intros s. unfold Js.trim.
  destruct (trimStart_head s) as [He | (c & r & He & Hc)]; rewrite He.
  - reflexivity.
  - rewrite (trimEnd_head c r Hc), (trimStart_fixed c _ Hc), (trimEnd_head c _ Hc),
      trimEnd_idempotent.
    reflexivity.
Qed.

Lemma lowerChar_idempotent :
  forall c, Js.lowerChar (Js.lowerChar c) = Js.lowerChar c.
Proof.
  intros [[] [] [] [] [] [] [] []]; reflexivity.
Qed.

Lemma toLowerCase_idempotent :
  forall s, Js.toLowerCase (Js.toLowerCase s) = Js.toLowerCase s.
Proof.
  induction s as [| c rest IH]; [reflexivity |].
  cbn [Js.toLowerCase]. rewrite lowerChar_idempotent, IH. reflexivity.
Qed.

Lemma isWhiteSpace_lowerChar :
  forall c, Js.isWhiteSpace (Js.lowerChar c) = Js.isWhiteSpace c.
Proof.
  intros [[] [] [] [] [] [] [] []]; reflexivity.
Qed.

Lemma toLowerCase_trimStart :
  forall s, Js.toLowerCase (Js.trimStart s) = Js.trimStart (Js.toLowerCase s).
Proof.
  induction s as [| c rest IH]; [reflexivity |].
  cbn [Js.trimStart Js.toLowerCase]. rewrite isWhiteSpace_lowerChar.
  destruct (Js.isWhiteSpace c); [exact IH | reflexivity].
Qed.

Lemma toLowerCase_is_empty :
  forall s, (Js.toLowerCase s =? "")%string = (s =? "")%string.
Proof.
  intros [| c rest]; reflexivity.
Qed.

Lemma toLowerCase_trimEnd :
  forall s, Js.toLowerCase (Js.trimEnd s) = Js.trimEnd (Js.toLowerCase s).
Proof.
  induction s as [| c rest IH]; [reflexivity |].
  cbn [Js.trimEnd Js.toLowerCase].
  rewrite isWhiteSpace_lowerChar, <- IH, toLowerCase_is_empty.
  destruct (Js.isWhiteSpace c && (Js.trimEnd rest =? "")%string); reflexivity.
Qed.

Lemma toLowerCase_trim :
  forall s, Js.toLowerCase (Js.trim s) = Js.trim (Js.toLowerCase s).
Proof.
  intros s. unfold Js.trim. rewrite toLowerCase_trimEnd, toLowerCase_trimStart. reflexivity.
Qed.

Lemma lowerChar_at :
  forall c, Ascii.eqb (Js.lowerChar c) "@" = Ascii.eqb c "@".
Proof.
  intros [[] [] [] [] [] [] [] []]; reflexivity.
Qed.

Lemma includesChar_toLowerCase_at :
  forall s, Js.includesChar (Js.toLowerCase s) "@" = Js.includesChar s "@".
Proof.
  induction s as [| c rest IH]; [reflexivity |].
  cbn [Js.toLowerCase Js.includesChar]. rewrite lowerChar_at, IH. reflexivity.
Qed.

Lemma toLowerCase_length :
  forall s, String.length (Js.toLowerCase s) = String.length s.
Proof.
  induction s as [| c rest IH]; [reflexivity |].
  cbn [Js.toLowerCase String.length]. rewrite IH. reflexivity.
Qed.

Lemma toLowerCase_app :
  forall s t, Js.toLowerCase (s ++ t)%string = (Js.toLowerCase s ++ Js.toLowerCase t)%string.
Proof.
  induction s as [| c rest IH]; intros t; [reflexivity |].
  cbn [Js.toLowerCase String.append]. rewrite IH. reflexivity.
Qed.

Lemma string_length_app :
  forall s t, String.length (s ++ t)%string = String.length s + String.length t.
Proof.
  induction s as [| c rest IH]; intros t; [reflexivity |].
  cbn [String.append String.length]. rewrite IH. reflexivity.
Qed.

Lemma string_app_char :
  forall pre c rest, ((pre ++ String c "") ++ rest)%string = (pre ++ String c rest)%string.
Proof.
  induction pre as [| d pre IH]; intros c rest; [reflexivity |].
  cbn [String.append]. rewrite IH. reflexivity.
Qed.

Lemma substringFrom_after_char :
  forall pre c rest,
    Js.substringFrom (String.length pre + 1) (pre ++ String c rest)%string = rest.
Proof.
  intros pre c rest. rewrite <- string_app_char.
  replace (String.length pre + 1) with (String.length (pre ++ String c "")%string).
  - unfold Js.substringFrom.
    rewrite (string_length_app (pre ++ String c "")).
    replace (String.length (pre ++ String c "") + String.length rest
             - String.length (pre ++ String c "")) with (String.length rest) by lia.
    generalize (pre ++ String c "")%string as p. intros p.
    revert rest. induction p as [| d p IH]; intros rest.
    + cbn [String.length String.append].
      induction rest as [| e rest IHr]; [reflexivity |].
      cbn [String.length String.substring]. rewrite IHr. reflexivity.
    + cbn [String.length String.append String.substring]. apply IH.
  - rewrite string_length_app. reflexivity.
Qed.

Lemma substring_all :
  forall s, String.substring 0 (String.length s) s = s.
Proof.
  induction s as [| c rest IH]; [reflexivity |].
  cbn [String.length String.substring]. rewrite IH. reflexivity.
Qed.

Lemma substring_skip :
  forall pre rest m,
    String.substring (String.length pre) m (pre ++ rest)%string = String.substring 0 m rest.
Proof.
  induction pre as [| c pre IH]; intros rest m; [reflexivity |].
  cbn [String.length String.append String.substring]. apply IH.
Qed.

Lemma substringFrom_app :
  forall pre rest, Js.substringFrom (String.length pre) (pre ++ rest)%string = rest.
Proof.
  intros pre rest. unfold Js.substringFrom.
  rewrite string_length_app, substring_skip.
  replace (String.length pre + String.length rest - String.length pre)
    with (String.length rest) by lia.
  apply substring_all.
Qed.

Lemma string_eqb_false_iff :
  forall s t : string, (s =? t)%string = false <-> s <> t.
Proof.
  intros s t. split.
  - intros H He. apply String.eqb_eq in He. congruence.
  - intros H. destruct (s =? t)%string eqn:He; [| reflexivity].
    apply String.eqb_eq in He. contradiction.
Qed.

(** ** [lastIndexOf] *)

Lemma lastIndexOfChar_None :
  forall s c, JsMore.lastIndexOfChar s c = None <-> Js.includesChar s c = false.
Proof.
  induction s as [| d rest IH]; intros c; cbn [JsMore.lastIndexOfChar Js.includesChar].
  - split; reflexivity.
  - specialize (IH c).
    destruct (JsMore.lastIndexOfChar rest c) eqn:Hl.
    + split; [discriminate |]. intros H. apply orb_false_iff in H.
      destruct H as [_ H]. apply IH in H. discriminate.
    + assert (Hr : Js.includesChar rest c = false) by (apply IH; reflexivity).
      rewrite Hr, orb_false_r.
      destruct (Ascii.eqb d c); split; congruence.
Qed.

Lemma lastIndexOfChar_Some :
  forall s c i,
    JsMore.lastIndexOfChar s c = Some i ->
    exists pre rest,
      s = (pre ++ String c rest)%string
      /\ String.length pre = i
      /\ Js.includesChar rest c = false.
Proof.
  induction s as [| d rest IH]; intros c i H; cbn [JsMore.lastIndexOfChar] in H;
    [discriminate |].
  destruct (JsMore.lastIndexOfChar rest c) as [k |] eqn:Hl.
  - injection H as <-.
    destruct (IH c k Hl) as (pre & rest' & -> & Hlen & Hno).
    exists (String d pre), rest'. cbn [String.append String.length].
    repeat split; [congruence | exact Hno].
  - destruct (Ascii.eqb d c) eqn:Hd; [| discriminate].
    injection H as <-. apply Ascii.eqb_eq in Hd. subst d.
    exists "", rest. repeat split. apply lastIndexOfChar_None. exact Hl.
Qed.

Lemma lastIndexOfChar_app :
  forall pre c rest,
    Js.includesChar rest c = false ->
    JsMore.lastIndexOfChar (pre ++ String c rest)%string c = Some (String.length pre).
Proof.
  induction pre as [| d pre IH]; intros c rest Hno.
  - cbn [String.append JsMore.lastIndexOfChar String.length].
    rewrite (proj2 (lastIndexOfChar_None rest c) Hno), Ascii.eqb_refl. reflexivity.
  - cbn [String.append JsMore.lastIndexOfChar String.length].
    rewrite (IH c rest Hno). reflexivity.
Qed.

(** ** The classifier and the normalisation *)

Lemma normalizeUrlForComparison_trim :
  forall url, normalizeUrlForComparison (Js.trim url) = normalizeUrlForComparison url.
Proof.
  intros url. unfold normalizeUrlForComparison. rewrite trim_idempotent. reflexivity.
Qed.

Lemma isPlausibleUrl_trim :
  forall url, isPlausibleUrl (Js.trim url) = isPlausibleUrl url.
Proof.
  intros url. unfold isPlausibleUrl. cbv zeta. rewrite trim_idempotent. reflexivity.
Qed.

Lemma existsb_eqb_includes :
  forall (l : list string) (x : string),
    existsb (fun domain => (x =? domain)%string) l = Js.includes l x.
Proof.
  intros l x. unfold Js.includes. induction l as [| y l IH]; [reflexivity |].
  cbn [existsb]. rewrite IH, (String.eqb_sym x y). reflexivity.
Qed.

Lemma isPlausibleUrl_true :
  forall url,
    isPlausibleUrl url = true ->
    Js.trim url <> ""
    /\ Js.includesChar (Js.trim url) "." = true
    /\ Js.includes GENERIC_EMAIL_DOMAINS (normalizeUrlForComparison url) = false.
Proof.
  intros url H. unfold isPlausibleUrl in H. cbv zeta in H.
  destruct (Js.trim url =? "")%string eqn:He; [discriminate |].
  destruct (Js.includesChar (Js.trim url) ".") eqn:Hdot; cbn [negb] in H; [| discriminate].
  destruct (Js.includesChar (Js.trim url) "@"
            && existsb (fun domain => Js.endsWith (Js.trim url) domain) GENERIC_EMAIL_DOMAINS);
    [discriminate |].
  rewrite normalizeUrlForComparison_trim, existsb_eqb_includes in H.
  destruct (Js.includes GENERIC_EMAIL_DOMAINS (normalizeUrlForComparison url));
    [discriminate |].
  split; [apply string_eqb_false_iff; exact He |]. split; reflexivity.
Qed.

(** X12: the classifier and the normalisation look at the trimmed cell
    only: white space around a URL changes neither the verdict of
    [isPlausibleUrl] nor the normal form, a blank cell is never plausible,
    and the normal form does not depend on the letter case of the URL. *)
Theorem X12_classifier_ignores_surrounding_white_space :
  forall url,
    isPlausibleUrl (Js.trim url) = isPlausibleUrl url
    /\ normalizeUrlForComparison (Js.trim url) = normalizeUrlForComparison url
    /\ normalizeUrlForComparison (Js.toLowerCase url) = normalizeUrlForComparison url
    /\ (Js.trim url = "" -> isPlausibleUrl url = false).
Proof.
  intros url. split; [apply isPlausibleUrl_trim |].
  split; [apply normalizeUrlForComparison_trim |]. split.
  - unfold normalizeUrlForComparison.
    rewrite <- toLowerCase_trim, toLowerCase_idempotent. reflexivity.
  - intros He. unfold isPlausibleUrl. cbv zeta. rewrite He. reflexivity.
Qed.

(** X13: what a plausible URL is guaranteed to be: not blank, with a dot,
    and with a normal form (scheme, [www.] and final slash removed, lower
    case) that is none of the generic e-mail domains. *)
Theorem X13_plausible_url_is_dotted_and_not_generic :
  forall url,
    isPlausibleUrl url = true ->
    Js.trim url <> ""
    /\ Js.includesChar (Js.trim url) "." = true
    /\ ~ In (normalizeUrlForComparison url) GENERIC_EMAIL_DOMAINS.
Proof.
  intros url H. destruct (isPlausibleUrl_true url H) as (Hne & Hdot & Hgen).
  split; [exact Hne |]. split; [exact Hdot |].
  intros Hin. unfold Js.includes in Hgen.
  assert (Ht : existsb (fun y => (y =? normalizeUrlForComparison url)%string)
                 GENERIC_EMAIL_DOMAINS = true).
  { apply existsb_exists. exists (normalizeUrlForComparison url).
    split; [exact Hin | apply String.eqb_refl]. }
  congruence.
Qed.

Lemma X13_plausible_url_is_dotted_and_not_generic_witness :
  Js.trim " https://www.Acme.org/ " <> ""
  /\ Js.includesChar (Js.trim " https://www.Acme.org/ ") "." = true
  /\ ~ In (normalizeUrlForComparison " https://www.Acme.org/ ") GENERIC_EMAIL_DOMAINS.
Proof.
  apply (X13_plausible_url_is_dotted_and_not_generic " https://www.Acme.org/ ").
  vm_compute. reflexivity.
Defined.

(** ** [extractDomainFromEmail] *)

Lemma extractDomainFromEmail_Some :
  forall email domain,
    extractDomainFromEmail email = Some domain ->
    exists pre rest,
      email = (pre ++ String "@" rest)%string
      /\ rest <> ""
      /\ Js.includesChar rest "@" = false
      /\ domain = Js.toLowerCase rest.
Proof.
  intros email domain H. unfold extractDomainFromEmail in H.
  destruct (email =? "")%string; [discriminate |].
  destruct (JsMore.lastIndexOfChar email "@") as [atIndex |] eqn:Hl; [| discriminate].
  destruct (lastIndexOfChar_Some _ _ _ Hl) as (pre & rest & -> & Hlen & Hno).
  destruct (atIndex =? _) eqn:Hlast; [discriminate |].
  injection H as <-. apply Nat.eqb_neq in Hlast.
  exists pre, rest. split; [reflexivity |]. split.
  - intros ->. apply Hlast. rewrite string_length_app. cbn [String.length]. lia.
  - split; [exact Hno |].
    subst atIndex. rewrite substringFrom_after_char. reflexivity.
Qed.

Lemma extractDomainFromEmail_app :
  forall pre rest,
    rest <> "" ->
    Js.includesChar rest "@" = false ->
    extractDomainFromEmail (pre ++ String "@" rest)%string = Some (Js.toLowerCase rest).
Proof.
  intros pre rest Hne Hno.
  destruct (extractDomainFromEmail (pre ++ String "@" rest)%string) as [d |] eqn:He.
  - destruct (extractDomainFromEmail_Some _ _ He) as (pre' & rest' & Heq & _ & Hno' & ->).
    assert (Hl := lastIndexOfChar_app pre "@" rest Hno).
    rewrite Heq in Hl. rewrite (lastIndexOfChar_app pre' "@" rest' Hno') in Hl.
    injection Hl as Hl.
    assert (Hs := substringFrom_after_char pre "@" rest).
    rewrite Heq, <- Hl, substringFrom_after_char in Hs. congruence.
  - exfalso. unfold extractDomainFromEmail in He.
    destruct (pre ++ String "@" rest =? "")%string eqn:Hempty.
    + apply String.eqb_eq in Hempty. destruct pre; discriminate.
    + rewrite (lastIndexOfChar_app pre "@" rest Hno) in He.
      destruct (String.length pre =? _) eqn:Hlast; [| discriminate].
      apply Nat.eqb_eq in Hlast. rewrite string_length_app in Hlast.
      cbn [String.length] in Hlast. destruct rest; [congruence |].
      cbn [String.length] in Hlast. lia.
Qed.

Lemma extractDomainFromEmail_domain :
  forall email domain,
    extractDomainFromEmail email = Some domain ->
    domain <> ""
    /\ Js.includesChar domain "@" = false
    /\ Js.toLowerCase domain = domain.
Proof.
  intros email domain H.
  destruct (extractDomainFromEmail_Some _ _ H) as (pre & rest & _ & Hne & Hno & ->).
  split; [| split].
  - destruct rest; [congruence | discriminate].
  - rewrite includesChar_toLowerCase_at. exact Hno.
  - apply toLowerCase_idempotent.
Qed.

(** X14: [extractDomainFromEmail] answers exactly for the addresses that
    have an [@] which is not their last character, and the answer is the
    text after the last [@] in lower case: it is never empty, holds no [@]
    and is its own lower-case form.  Every other address gives [null]. *)
Theorem X14_extractDomainFromEmail_is_the_text_after_the_last_at :
  forall email domain,
    (extractDomainFromEmail email = Some domain
     <-> exists pre rest,
           email = (pre ++ String "@" rest)%string
           /\ rest <> ""
           /\ Js.includesChar rest "@" = false
           /\ domain = Js.toLowerCase rest)
    /\ (extractDomainFromEmail email = Some domain ->
        domain <> ""
        /\ Js.includesChar domain "@" = false
        /\ Js.toLowerCase domain = domain).
Proof.
  intros email domain. split; [split |].
  - apply extractDomainFromEmail_Some.
  - intros (pre & rest & -> & Hne & Hno & ->). apply extractDomainFromEmail_app; assumption.
  - apply extractDomainFromEmail_domain.
Qed.

(** ** The two row-deletion steps *)

Lemma filter_filter_same :
  forall (A : Type) (f : A -> bool) (l : list A), filter f (filter f l) = filter f l.
Proof.
  intros A f l. induction l as [| x l IH]; [reflexivity |].
  cbn [filter]. destruct (f x) eqn:Hx; [| exact IH].
  cbn [filter]. rewrite Hx, IH. reflexivity.
Qed.

Lemma filter_filter_comm :
  forall (A : Type) (f g : A -> bool) (l : list A),
    filter f (filter g l) = filter g (filter f l).
Proof.
  intros A f g l. induction l as [| x l IH]; [reflexivity |].
  cbn [filter].
  destruct (g x) eqn:Hg; destruct (f x) eqn:Hf; cbn [filter];
    rewrite ?Hg, ?Hf, IH; reflexivity.
Qed.

Lemma filter_length_le' :
  forall (A : Type) (f : A -> bool) (l : list A), length (filter f l) <= length l.
Proof.
  intros A f l. induction l as [| x l IH]; [apply Nat.le_refl |].
  cbn [filter]. destruct (f x); cbn [length]; lia.
Qed.

Lemma performPlaceholderDescRowDeletionLogic_cons :
  forall (headerRow : Row) (dataRows : list Row),
    performPlaceholderDescRowDeletionLogic (headerRow :: dataRows)
    = mkDeletion (headerRow :: filter keptByPlaceholderCheck dataRows)
        (length dataRows)
        (length dataRows - length (filter keptByPlaceholderCheck dataRows)).
Proof.
  intros headerRow [| row dataRows]; reflexivity.
Qed.

Lemma performMostlyEmptyRowsLogic_cons :
  forall (headerRow : Row) (dataRows : list Row),
    performMostlyEmptyRowsLogic (headerRow :: dataRows)
    = mkDeletion (headerRow :: filter keptByMostlyEmptyCheck dataRows)
        (length dataRows)
        (length dataRows - length (filter keptByMostlyEmptyCheck dataRows)).
Proof.
  intros headerRow [| row dataRows]; reflexivity.
Qed.

Lemma keptByPlaceholderCheck_spec :
  forall row,
    keptByPlaceholderCheck row = false
    <-> hasOrgName row = true
        /\ Js.toLowerCase (Js.trim (cellOr row DESCRIPTION_COL_INDEX)) = placeholderText.
Proof.
  intros row. unfold keptByPlaceholderCheck, hasOrgName. cbv zeta.
  assert (Hcell : (if DESCRIPTION_COL_INDEX <? length row
                   then cellOr row DESCRIPTION_COL_INDEX else "")
                  = cellOr row DESCRIPTION_COL_INDEX).
  { destruct (DESCRIPTION_COL_INDEX <? length row) eqn:Hlt; [reflexivity |].
    apply Nat.ltb_ge in Hlt. unfold cellOr. symmetry. apply nth_overflow. exact Hlt. }
  rewrite Hcell.
  destruct (Js.trim (cellOr row 0) =? "")%string; cbn [negb].
  - split; [discriminate | intros [H _]; discriminate].
  - destruct (Js.toLowerCase (Js.trim (cellOr row DESCRIPTION_COL_INDEX)) =? placeholderText)%string
      eqn:He.
    + apply String.eqb_eq in He. split; [intros _; split; [reflexivity | exact He] | reflexivity].
    + apply string_eqb_false_iff in He. split; [discriminate | intros [_ H]; contradiction].
Qed.

Lemma allOtherCellsEmptyFrom_spec :
  forall cells i,
    allOtherCellsEmptyFrom i cells = true
    <-> forall k, k < length cells -> i + k <> 0 -> i + k <> DESCRIPTION_COL_INDEX ->
                  Js.trim (nth k cells "") = "".
Proof.
  induction cells as [| cell rest IH]; intros i; cbn [allOtherCellsEmptyFrom length].
  - split; [intros _ k Hk; lia | reflexivity].
  - specialize (IH (S i)).
    assert (Hshift : (forall k, k < length rest -> S i + k <> 0 ->
                        S i + k <> DESCRIPTION_COL_INDEX -> Js.trim (nth k rest "") = "")
                     <-> (forall k, 0 < k -> k < S (length rest) -> i + k <> 0 ->
                            i + k <> DESCRIPTION_COL_INDEX ->
                            Js.trim (nth k (cell :: rest) "") = "")).
    { split.
      - intros H [| k] Hpos Hk H0 H63; [lia |]. cbn [nth]. apply H; lia.
      - intros H k Hk H0 H63. apply (H (S k)); lia. }
    destruct ((i =? 0) || (i =? DESCRIPTION_COL_INDEX)) eqn:Hskip.
    + rewrite IH, Hshift. split.
      * intros H [| k] Hk H0 H63; [| apply H; lia].
        exfalso. apply orb_prop in Hskip. rewrite !Nat.eqb_eq in Hskip. lia.
      * intros H k Hpos. apply H.
    + apply orb_false_iff in Hskip. rewrite !Nat.eqb_neq in Hskip.
      destruct (Js.trim cell =? "")%string eqn:He; cbn [negb].
      * apply String.eqb_eq in He. rewrite IH, Hshift. split.
        -- intros H [| k] Hk H0 H63; [exact He | apply H; lia].
        -- intros H k Hpos. apply H.
      * apply string_eqb_false_iff in He. split; [discriminate |].
        intros H. exfalso. apply He. apply (H 0); lia.
Qed.

Lemma keptByMostlyEmptyCheck_spec :
  forall row,
    keptByMostlyEmptyCheck row = false
    <-> hasOrgName row = true
        /\ forall j, j <> 0 -> j <> DESCRIPTION_COL_INDEX -> Js.trim (cellOr row j) = "".
Proof.
  intros row. unfold keptByMostlyEmptyCheck, hasOrgName. cbv zeta.
  destruct (Js.trim (cellOr row 0) =? "")%string; cbn [negb].
  - split; [discriminate | intros [H _]; discriminate].
  - destruct (allOtherCellsEmptyFrom 0 row) eqn:Hall.
    + split; [| reflexivity]. intros _. split; [reflexivity |].
      intros j H0 H63. destruct (Nat.lt_ge_cases j (length row)) as [Hlt | Hge].
      * apply (proj1 (allOtherCellsEmptyFrom_spec row 0) Hall j Hlt); cbn; assumption.
      * unfold cellOr. rewrite (nth_overflow _ _ Hge). reflexivity.
    + split; [discriminate |]. intros [_ H]. exfalso.
      assert (Ht : allOtherCellsEmptyFrom 0 row = true).
      { apply allOtherCellsEmptyFrom_spec. intros k _ H0 H63. apply H; cbn in *; assumption. }
      congruence.
Qed.

(** X15: deleting the rows with a placeholder description.  The rows that
    go are exactly the named rows whose description cell (column 63, blank
    when the row is shorter) reads the placeholder sentence up to letter
    case and surrounding white space; the header and every other row stay,
    in order.  The two counts returned agree with the data, and running the
    step on its own result deletes nothing more. *)
Theorem X15_placeholder_deletion_exact :
  forall inputData : Dataset,
    let result := performPlaceholderDescRowDeletionLogic inputData in
    hd [] (cleanedData result) = hd [] inputData
    /\ tl (cleanedData result)
       = filter (fun row =>
                   negb (hasOrgName row
                         && (Js.toLowerCase (Js.trim (cellOr row DESCRIPTION_COL_INDEX))
                             =? placeholderText)%string))
           (tl inputData)
    /\ rowsBefore result = length inputData - 1
    /\ length (cleanedData result) + rowsDeleted result = length inputData
    /\ cleanedData (performPlaceholderDescRowDeletionLogic (cleanedData result))
       = cleanedData result
    /\ rowsDeleted (performPlaceholderDescRowDeletionLogic (cleanedData result)) = 0.
Proof.
  intros inputData result.
  assert (Hfilter : forall l : list Row,
             filter keptByPlaceholderCheck l
             = filter (fun row =>
                   negb (hasOrgName row
                         && (Js.toLowerCase (Js.trim (cellOr row DESCRIPTION_COL_INDEX))
                             =? placeholderText)%string)) l).
  { intros l. apply filter_ext. intros row.
    destruct (keptByPlaceholderCheck row) eqn:Hk.
    - destruct (hasOrgName row
                && (Js.toLowerCase (Js.trim (cellOr row DESCRIPTION_COL_INDEX))
                    =? placeholderText)%string) eqn:Hc; [| reflexivity].
      apply andb_prop in Hc. destruct Hc as [Hn Hd]. apply String.eqb_eq in Hd.
      assert (Hf : keptByPlaceholderCheck row = false)
        by (apply keptByPlaceholderCheck_spec; split; assumption).
      congruence.
    - apply keptByPlaceholderCheck_spec in Hk. destruct Hk as [Hn Hd].
      rewrite Hn, Hd, String.eqb_refl. reflexivity. }
  subst result. destruct inputData as [| headerRow dataRows].
  - repeat split; reflexivity.
  - rewrite performPlaceholderDescRowDeletionLogic_cons.
    cbn [cleanedData rowsBefore rowsDeleted hd tl length].
    rewrite performPlaceholderDescRowDeletionLogic_cons.
    cbn [cleanedData rowsBefore rowsDeleted].
    rewrite filter_filter_same.
    pose proof (filter_length_le' _ keptByPlaceholderCheck dataRows) as Hle.
    repeat split; try reflexivity; try lia.
    apply Hfilter.
Qed.

(** X16: deleting the mostly empty rows.  The rows that go are exactly the
    named rows in which every cell other than the name (column 0) and the
    description (column 63) is blank; the header and every other row stay,
    in order.  The counts agree with the data, and the step deletes nothing
    more when it is run on its own result. *)
Theorem X16_mostly_empty_deletion_exact :
  forall inputData : Dataset,
    let result := performMostlyEmptyRowsLogic inputData in
    hd [] (cleanedData result) = hd [] inputData
    /\ tl (cleanedData result) = filter keptByMostlyEmptyCheck (tl inputData)
    /\ (forall row,
          keptByMostlyEmptyCheck row = false
          <-> hasOrgName row = true
              /\ forall j, j <> 0 -> j <> DESCRIPTION_COL_INDEX ->
                           Js.trim (cellOr row j) = "")
    /\ rowsBefore result = length inputData - 1
    /\ length (cleanedData result) + rowsDeleted result = length inputData
    /\ cleanedData (performMostlyEmptyRowsLogic (cleanedData result)) = cleanedData result
    /\ rowsDeleted (performMostlyEmptyRowsLogic (cleanedData result)) = 0.
Proof.
  intros inputData result. subst result. destruct inputData as [| headerRow dataRows].
  - split; [reflexivity |]. split; [reflexivity |].
    split; [apply keptByMostlyEmptyCheck_spec |]. repeat split; reflexivity.
  - rewrite performMostlyEmptyRowsLogic_cons.
    cbn [cleanedData rowsBefore rowsDeleted hd tl length].
    rewrite performMostlyEmptyRowsLogic_cons.
    cbn [cleanedData rowsBefore rowsDeleted].
    rewrite filter_filter_same.
    pose proof (filter_length_le' _ keptByMostlyEmptyCheck dataRows) as Hle.
    split; [reflexivity |]. split; [reflexivity |].
    split; [apply keptByMostlyEmptyCheck_spec |]. repeat split; try reflexivity; lia.
Qed.

(** X17: the two deletion steps can be run in either order: the resulting
    sheet is the same and so is the total number of rows deleted.  Neither
    step ever deletes a row without an organization name. *)
Theorem X17_deletion_steps_commute :
  forall inputData : Dataset,
    let viaPlaceholder := performPlaceholderDescRowDeletionLogic inputData in
    let viaEmpty := performMostlyEmptyRowsLogic inputData in
    cleanedData (performMostlyEmptyRowsLogic (cleanedData viaPlaceholder))
    = cleanedData (performPlaceholderDescRowDeletionLogic (cleanedData viaEmpty))
    /\ rowsDeleted viaPlaceholder
       + rowsDeleted (performMostlyEmptyRowsLogic (cleanedData viaPlaceholder))
       = rowsDeleted viaEmpty
         + rowsDeleted (performPlaceholderDescRowDeletionLogic (cleanedData viaEmpty))
    /\ (forall row,
          In row (tl inputData) -> hasOrgName row = false ->
          In row (tl (cleanedData
                        (performMostlyEmptyRowsLogic (cleanedData viaPlaceholder))))).
Proof.
  intros inputData viaPlaceholder viaEmpty. subst viaPlaceholder viaEmpty.
  destruct inputData as [| headerRow dataRows].
  - repeat split; try reflexivity. intros row [].
  - rewrite performPlaceholderDescRowDeletionLogic_cons, performMostlyEmptyRowsLogic_cons.
    cbn [cleanedData rowsDeleted].
    rewrite performPlaceholderDescRowDeletionLogic_cons, performMostlyEmptyRowsLogic_cons.
    cbn [cleanedData rowsDeleted tl].
    rewrite (filter_filter_comm _ keptByMostlyEmptyCheck keptByPlaceholderCheck).
    pose proof (filter_length_le' _ keptByPlaceholderCheck dataRows).
    pose proof (filter_length_le' _ keptByMostlyEmptyCheck dataRows).
    pose proof (filter_length_le' _ keptByPlaceholderCheck
                  (filter keptByMostlyEmptyCheck dataRows)).
    pose proof (filter_length_le' _ keptByMostlyEmptyCheck
                  (filter keptByPlaceholderCheck dataRows)) as Hle.
    rewrite (filter_filter_comm _ keptByMostlyEmptyCheck keptByPlaceholderCheck) in Hle.
    split; [reflexivity |]. split; [lia |].
    intros row Hin Hname. apply filter_In. split.
    + apply filter_In. split; [exact Hin |].
      destruct (keptByMostlyEmptyCheck row) eqn:Hk; [reflexivity |].
      apply keptByMostlyEmptyCheck_spec in Hk. destruct Hk as [Hn _]. congruence.
    + destruct (keptByPlaceholderCheck row) eqn:Hk; [reflexivity |].
      apply keptByPlaceholderCheck_spec in Hk. destruct Hk as [Hn _]. congruence.
Qed.

(** ** Cells, padding and assignment *)

Lemma padTo_noop :
  forall n (row : Row), n <= length row -> padTo n row = row.
Proof.
  intros n row Hle. unfold padTo.
  replace (n - length row) with 0 by lia. apply app_nil_r.
Qed.

Lemma padTo_padTo :
  forall n (row : Row), padTo n (padTo n row) = padTo n row.
Proof.
  intros n row. apply padTo_noop. apply padTo_length.
Qed.

Lemma assignCell_assignCell :
  forall j v (row : Row), assignCell j v (assignCell j v row) = assignCell j v row.
Proof.
  induction j as [| j IH]; intros v [| c rest]; cbn [assignCell]; try reflexivity;
    rewrite IH; reflexivity.
Qed.

Lemma cellOr_assignCell_same :
  forall j v (row : Row), cellOr (assignCell j v row) j = v.
Proof.
  intros j v row. apply cellOr_nth_error. apply assignCell_same.
Qed.

Lemma cellOr_assignCell_other :
  forall j k v (row : Row),
    j < length row -> k <> j -> cellOr (assignCell j v row) k = cellOr row k.
Proof.
  intros j k v row Hlt Hne. unfold cellOr. rewrite <- !nth_default_eq. unfold nth_default.
  rewrite assignCell_other by assumption. reflexivity.
Qed.

Lemma cellOr_blank_beyond :
  forall (row : Row) j, cellOr row j <> "" -> j < length row.
Proof.
  intros row j Hne. destruct (Nat.lt_ge_cases j (length row)) as [Hlt | Hge]; [exact Hlt |].
  exfalso. apply Hne. unfold cellOr. apply nth_overflow. exact Hge.
Qed.

Lemma hasOrgName_lower :
  forall row : Row,
    (Js.toLowerCase (Js.trim (cellOr row 0)) =? "")%string = negb (hasOrgName row).
Proof.
  intros row. unfold hasOrgName. rewrite toLowerCase_is_empty, negb_involutive. reflexivity.
Qed.

(** ** URL pre-fill from the contacts *)

Lemma domainFromContacts_Some :
  forall orgName contacts domain,
    domainFromContacts orgName contacts = Some domain ->
    exists contactRow, In contactRow contacts /\ contactGivesDomain orgName contactRow domain.
Proof.
  intros orgName contacts domain. induction contacts as [| contactRow rest IH];
    cbn [domainFromContacts]; [discriminate |].
  cbv zeta. intros H.
  assert (Hrest : domainFromContacts orgName rest = Some domain ->
                  exists contactRow0,
                    In contactRow0 (contactRow :: rest)
                    /\ contactGivesDomain orgName contactRow0 domain).
  { intros Hr. destruct (IH Hr) as (c & Hin & Hc). exists c. split; [right; exact Hin | exact Hc]. }
  destruct (negb (Js.trim (cellOr contactRow 9) =? "")%string
            && Js.startsWith (Js.toLowerCase (Js.trim (cellOr contactRow 9))) "accounts::::")
    eqn:Hacc; [| exact (Hrest H)].
  apply andb_prop in Hacc. destruct Hacc as [_ Hprefix].
  destruct (Js.toLowerCase (orgNameOfAccountCell (Js.trim (cellOr contactRow 9))) =? orgName)%string
    eqn:Hname; [| exact (Hrest H)].
  apply String.eqb_eq in Hname.
  destruct (negb (Js.trim (cellOr contactRow 3) =? "")%string); [| exact (Hrest H)].
  destruct (extractDomainFromEmail (Js.trim (cellOr contactRow 3))) as [d |] eqn:Hd;
    [| exact (Hrest H)].
  destruct (d =? "")%string; [exact (Hrest H) |].
  destruct (Js.includes GENERIC_EMAIL_DOMAINS d) eqn:Hgen; [exact (Hrest H) |].
  injection H as <-. exists contactRow. split; [left; reflexivity |].
  unfold contactGivesDomain. cbv zeta. repeat split; try assumption.
  intros Hin. apply includes_In in Hin. congruence.
Qed.

Lemma hasOwnUrl_length :
  forall row : Row, hasOwnUrl row = true -> 3 <= length row.
Proof.
  intros row H. unfold hasOwnUrl in H.
  destruct (isPlausibleUrl (cellOr row 2)) eqn:Hp; [| discriminate].
  apply isPlausibleUrl_true in Hp. destruct Hp as [Hne _].
  assert (Hc : cellOr row 2 <> "") by (intros He; apply Hne; rewrite He; reflexivity).
  apply cellOr_blank_beyond in Hc. lia.
Qed.

Lemma hasOwnUrl_padTo :
  forall row : Row, hasOwnUrl (padTo 3 row) = hasOwnUrl row.
Proof.
  intros row. unfold hasOwnUrl. rewrite cellOr_padTo. reflexivity.
Qed.

(** What [prefillRow] does, case by case. *)
Lemma prefillRow_cases :
  forall (contactsData : list Row) (orgRow : Row),
    (hasOrgName orgRow = false /\ prefillRow contactsData orgRow = (orgRow, false))
    \/ (hasOrgName orgRow = true /\ hasOwnUrl orgRow = true
        /\ prefillRow contactsData orgRow = (orgRow, false))
    \/ (hasOrgName orgRow = true /\ hasOwnUrl orgRow = false
        /\ domainFromContacts (Js.toLowerCase (Js.trim (cellOr orgRow 0))) (tl contactsData)
           = None
        /\ prefillRow contactsData orgRow = (padTo 3 orgRow, false))
    \/ (exists domain,
          hasOrgName orgRow = true /\ hasOwnUrl orgRow = false
          /\ domainFromContacts (Js.toLowerCase (Js.trim (cellOr orgRow 0))) (tl contactsData)
             = Some domain
          /\ prefillRow contactsData orgRow = (assignCell 2 domain (padTo 3 orgRow), true)).
Proof.
  intros contactsData orgRow. unfold prefillRow. cbv zeta.
  rewrite hasOrgName_lower, hasOwnUrl_padTo.
  destruct (hasOrgName orgRow) eqn:Hn; cbn [negb]; [| left; split; reflexivity].
  right. destruct (hasOwnUrl orgRow) eqn:Hown.
  - left. rewrite (padTo_noop 3 orgRow (hasOwnUrl_length _ Hown)). repeat split.
  - right.
    destruct (domainFromContacts (Js.toLowerCase (Js.trim (cellOr orgRow 0))) (tl contactsData))
      as [domain |] eqn:Hd.
    + right. exists domain. repeat split.
    + left. repeat split.
Qed.

Lemma prefillRow_frame :
  forall (contactsData : list Row) (orgRow : Row) j,
    j <> 2 -> cellOr (fst (prefillRow contactsData orgRow)) j = cellOr orgRow j.
Proof.
  intros contactsData orgRow j Hj.
  destruct (prefillRow_cases contactsData orgRow)
    as [[_ ->] | [(_ & _ & ->) | [(_ & _ & _ & ->) | (domain & _ & _ & _ & ->)]]];
    cbn [fst]; try reflexivity.
  - apply cellOr_padTo.
  - rewrite cellOr_assignCell_other; [apply cellOr_padTo | | exact Hj].
    pose proof (padTo_length 3 orgRow). lia.
Qed.

Lemma prefillRow_idempotent :
  forall (contactsData : list Row) (orgRow : Row),
    fst (prefillRow contactsData (fst (prefillRow contactsData orgRow)))
    = fst (prefillRow contactsData orgRow).
Proof.
  intros contactsData orgRow.
  assert (Hname : forall row' : Row,
             cellOr row' 0 = cellOr orgRow 0 -> 
             hasOrgName row' = hasOrgName orgRow
             /\ Js.toLowerCase (Js.trim (cellOr row' 0))
                = Js.toLowerCase (Js.trim (cellOr orgRow 0))).
  { intros row' He. unfold hasOrgName. rewrite He. split; reflexivity. }
  destruct (prefillRow_cases contactsData orgRow)
    as [[Hn ->] | [(Hn & Hown & ->) | [(Hn & Hown & Hd & ->) | (domain & Hn & Hown & Hd & ->)]]];
    cbn [fst].
  - destruct (prefillRow_cases contactsData orgRow)
      as [[_ ->] | [(Hn' & _) | [(Hn' & _) | (d & Hn' & _)]]]; [reflexivity | congruence ..].
  - destruct (prefillRow_cases contactsData orgRow)
      as [[Hn' _] | [(_ & _ & ->) | [(_ & Hown' & _) | (d & _ & Hown' & _)]]];
      [congruence | reflexivity | congruence ..].
  - destruct (Hname (padTo 3 orgRow) (cellOr_padTo 3 orgRow 0)) as [Hn2 Hl2].
    destruct (prefillRow_cases contactsData (padTo 3 orgRow))
      as [[Hn' _] | [(_ & _ & ->) | [(_ & _ & _ & ->) | (d & _ & _ & Hd' & _)]]];
      [congruence | reflexivity | cbn [fst]; apply padTo_padTo | congruence].
  - assert (Hlen : 3 <= length (assignCell 2 domain (padTo 3 orgRow))).
    { rewrite assignCell_length_in_range; pose proof (padTo_length 3 orgRow); lia. }
    assert (Hcell : cellOr (assignCell 2 domain (padTo 3 orgRow)) 0 = cellOr orgRow 0).
    { rewrite cellOr_assignCell_other; [apply cellOr_padTo | | discriminate].
      pose proof (padTo_length 3 orgRow). lia. }
    destruct (Hname _ Hcell) as [Hn2 Hl2].
    destruct (prefillRow_cases contactsData (assignCell 2 domain (padTo 3 orgRow)))
      as [[Hn' _] | [(_ & _ & ->) | [(_ & _ & Hd' & _) | (d & _ & _ & Hd' & ->)]]];
      [congruence | reflexivity | congruence |].
    cbn [fst]. rewrite Hl2, Hd in Hd'. injection Hd' as <-.
    rewrite (padTo_noop 3 _ Hlen). apply assignCell_assignCell.
Qed.

Lemma prefillHeader_idempotent :
  forall header : Row, prefillHeader (prefillHeader header) = prefillHeader header.
Proof.
  intros header.
  destruct (Js.trim (cellOr (padTo 3 header) 2) =? "")%string eqn:Hblank.
  - assert (He : prefillHeader header = assignCell 2 "Website URL" (padTo 3 header))
      by (unfold prefillHeader; cbv zeta; rewrite Hblank; reflexivity).
    rewrite He. unfold prefillHeader. cbv zeta.
    assert (Hlen : 3 <= length (assignCell 2 "Website URL" (padTo 3 header))).
    { rewrite assignCell_length_in_range; pose proof (padTo_length 3 header); lia. }
    rewrite (padTo_noop 3 _ Hlen), cellOr_assignCell_same. reflexivity.
  - assert (He : prefillHeader header = padTo 3 header)
      by (unfold prefillHeader; cbv zeta; rewrite Hblank; reflexivity).
    rewrite He. unfold prefillHeader. cbv zeta. rewrite padTo_padTo, Hblank. reflexivity.
Qed.

Lemma prefilled_count_le :
  forall (contactsData : list Row) (orgRows : list Row),
    length (filter (fun result : Row * bool => snd result)
              (map (prefillRow contactsData) orgRows))
    <= length orgRows.
Proof.
  intros contactsData orgRows.
  etransitivity; [apply filter_length_le' |]. rewrite length_map. apply Nat.le_refl.
Qed.

(** X18: the pre-fill keeps the shape of the organizations sheet.  It
    returns as many rows as it got; in every data row only the URL cell
    (column 2) can read differently afterwards; a row without a name, and a
    row whose URL is plausible and does not end with a generic e-mail
    domain, come back exactly as they were; and the number it reports is at
    most the number of data rows. *)
Theorem X18_prefill_touches_only_the_url_column :
  forall (orgsData contactsData : list Row),
    let result := prefillUrlsFromContacts orgsData contactsData in
    length (fst result) = length orgsData
    /\ snd result <= length orgsData - 1
    /\ forall i orgRow,
         nth_error (tl orgsData) i = Some orgRow ->
         exists updatedRow,
           nth_error (tl (fst result)) i = Some updatedRow
           /\ (forall j, j <> 2 -> cellOr updatedRow j = cellOr orgRow j)
           /\ (hasOrgName orgRow = false -> updatedRow = orgRow)
           /\ (hasOwnUrl orgRow = true -> updatedRow = orgRow).
Proof.
  intros orgsData contactsData result. subst result.
  destruct orgsData as [| header orgRows].
  - cbn. repeat split; try lia. intros [| i] orgRow H; discriminate.
  - cbn [prefillUrlsFromContacts fst snd tl length].
    rewrite !length_map. split; [reflexivity |].
    split; [pose proof (prefilled_count_le contactsData orgRows); lia |].
    intros i orgRow Hi.
    exists (fst (prefillRow contactsData orgRow)).
    rewrite map_map, nth_error_map, Hi. cbn [option_map].
    split; [reflexivity |]. split; [intros j Hj; apply prefillRow_frame; exact Hj |].
    destruct (prefillRow_cases contactsData orgRow)
      as [[Hn ->] | [(Hn & Hown & ->) | [(Hn & Hown & _ & ->) | (d & Hn & Hown & _ & ->)]]];
      cbn [fst]; split; intros; congruence.
Qed.

(** X19: where a pre-filled URL comes from.  When the URL cell of a data
    row reads differently after the pre-fill, its new content is the domain
    of the e-mail address of a contact (a data row of the contacts sheet)
    whose account cell is [Accounts::::] followed by the name of the
    organization, compared without regard to letter case and surrounding
    white space; that domain is in lower case, holds no [@] and is not one of
    the generic e-mail domains. *)
Theorem X19_prefilled_url_is_a_contact_domain :
  forall (orgsData contactsData : list Row) i orgRow updatedRow,
    nth_error (tl orgsData) i = Some orgRow ->
    nth_error (tl (fst (prefillUrlsFromContacts orgsData contactsData))) i = Some updatedRow ->
    cellOr updatedRow 2 <> cellOr orgRow 2 ->
    exists contactRow,
      In contactRow (tl contactsData)
      /\ contactGivesDomain (Js.toLowerCase (Js.trim (cellOr orgRow 0))) contactRow
           (cellOr updatedRow 2)
      /\ Js.toLowerCase (cellOr updatedRow 2) = cellOr updatedRow 2
      /\ Js.includesChar (cellOr updatedRow 2) "@" = false.
Proof.
  intros orgsData contactsData i orgRow updatedRow Hi Hu Hdiff.
  destruct orgsData as [| header orgRows]; [destruct i; discriminate |].
  cbn [prefillUrlsFromContacts fst tl] in Hi, Hu.
  rewrite map_map, nth_error_map, Hi in Hu. cbn [option_map] in Hu. injection Hu as <-.
  destruct (prefillRow_cases contactsData orgRow)
    as [[Hn He] | [(Hn & Hown & He) | [(Hn & Hown & _ & He) | (d & Hn & Hown & Hd & He)]]];
    rewrite He in *; cbn [fst] in *.
  - congruence.
  - congruence.
  - rewrite cellOr_padTo in Hdiff. congruence.
  - rewrite cellOr_assignCell_same.
    destruct (domainFromContacts_Some _ _ _ Hd) as (contactRow & Hin & Hgives).
    exists contactRow. split; [exact Hin |]. split; [exact Hgives |].
    destruct Hgives as (_ & _ & Hex & _).
    destruct (extractDomainFromEmail_domain _ _ Hex) as (_ & Hat & Hlow).
    split; assumption.
Qed.

(** X20: running the pre-fill a second time with the same contacts sheet
    changes nothing in the organizations sheet. *)
Theorem X20_prefill_is_idempotent :
  forall (orgsData contactsData : list Row),
    fst (prefillUrlsFromContacts
           (fst (prefillUrlsFromContacts orgsData contactsData)) contactsData)
    = fst (prefillUrlsFromContacts orgsData contactsData).
Proof.
  intros [| header orgRows] contactsData; [reflexivity |].
  cbn [prefillUrlsFromContacts fst].
  rewrite prefillHeader_idempotent. f_equal.
  rewrite !map_map. apply map_ext. intros orgRow. apply prefillRow_idempotent.
Qed.

Lemma X19_prefilled_url_is_a_contact_domain_witness :
  exists contactRow,
    In contactRow (tl sampleContacts)
    /\ contactGivesDomain (Js.toLowerCase (Js.trim (cellOr ["Acme"; "a"; ""] 0))) contactRow
         (cellOr ["Acme"; "a"; "acme.org"] 2)
    /\ Js.toLowerCase (cellOr ["Acme"; "a"; "acme.org"] 2) = cellOr ["Acme"; "a"; "acme.org"] 2
    /\ Js.includesChar (cellOr ["Acme"; "a"; "acme.org"] 2) "@" = false.
Proof.
  apply (X19_prefilled_url_is_a_contact_domain sampleSheet sampleContacts 0
           ["Acme"; "a"; ""] ["Acme"; "a"; "acme.org"]).
  - reflexivity.
  - vm_compute. reflexivity.
  - vm_compute. discriminate.
Defined.

(** ** Correction of the contacts sheet *)

Lemma string_prefix_app :
  forall p x, String.prefix p (p ++ x)%string = true.
Proof.
  induction p as [| c p IH]; intros x; [destruct x; reflexivity |].
  cbn [String.append String.prefix].
  destruct (ascii_dec c c) as [_ | Hne]; [apply IH | contradiction].
Qed.

Lemma toLowerCase_substring :
  forall s n m,
    Js.toLowerCase (String.substring n m s) = String.substring n m (Js.toLowerCase s).
Proof.
  induction s as [| c rest IH]; intros [| n] [| m]; cbn [String.substring Js.toLowerCase];
    try reflexivity; try apply IH.
  rewrite IH. reflexivity.
Qed.

Lemma toLowerCase_substringFrom :
  forall n s, Js.toLowerCase (Js.substringFrom n s) = Js.substringFrom n (Js.toLowerCase s).
Proof.
  intros n s. unfold Js.substringFrom. rewrite toLowerCase_substring, toLowerCase_length.
  reflexivity.
Qed.

Lemma trimEnd_app :
  forall p o, Js.trimEnd o <> "" -> Js.trimEnd (p ++ o)%string = (p ++ Js.trimEnd o)%string.
Proof.
  induction p as [| c p IH]; intros o Hne; [reflexivity |].
  cbn [String.append Js.trimEnd]. rewrite (IH o Hne).
  assert (Hnonempty : ((p ++ Js.trimEnd o)%string =? "")%string = false).
  { apply string_eqb_false_iff. destruct p; [exact Hne | discriminate]. }
  rewrite Hnonempty, andb_false_r. reflexivity.
Qed.

Lemma trim_fixed_trimEnd :
  forall o, Js.trim o = o -> Js.trimEnd o = o.
Proof.
  intros o H. rewrite <- H at 1. unfold Js.trim. rewrite trimEnd_idempotent. exact H.
Qed.

(** The cell the correction writes reads back as it was written. *)
Lemma trim_expected_cell :
  forall o, o <> "" -> Js.trim o = o -> Js.trim ("Accounts::::" ++ o) = ("Accounts::::" ++ o)%string.
Proof.
  intros o Hne Ht. unfold Js.trim.
  assert (Hs : Js.trimStart ("Accounts::::" ++ o) = ("Accounts::::" ++ o)%string) by reflexivity.
  rewrite Hs, trimEnd_app; rewrite (trim_fixed_trimEnd o Ht); [reflexivity | exact Hne].
Qed.

Lemma orgNameOfAccountCell_expected :
  forall o, Js.trim o = o -> orgNameOfAccountCell ("Accounts::::" ++ o) = o.
Proof.
  intros o Ht. unfold orgNameOfAccountCell.
  change 12 with (String.length "Accounts::::"). rewrite substringFrom_app. exact Ht.
Qed.

Lemma startsWith_expected :
  forall o, Js.startsWith (Js.toLowerCase ("Accounts::::" ++ o)) "accounts::::" = true.
Proof.
  intros o. unfold Js.startsWith. rewrite toLowerCase_app.
  change (Js.toLowerCase "Accounts::::") with "accounts::::". apply string_prefix_app.
Qed.

(** What a contributing contact row looks like. *)
Lemma contactEntry_Some :
  forall contactRow domain orgNameFromCell,
    contactEntry contactRow = Some (domain, orgNameFromCell) ->
    emailDomainOf contactRow = Some domain
    /\ ~ In domain GENERIC_EMAIL_DOMAINS
    /\ Js.startsWith (Js.toLowerCase (Js.trim (cellOr contactRow 9))) "accounts::::" = true
    /\ orgNameFromCell = orgNameOfAccountCell (Js.trim (cellOr contactRow 9))
    /\ orgNameFromCell <> ""
    /\ Js.trim orgNameFromCell = orgNameFromCell.
Proof.
  intros contactRow domain o H. unfold contactEntry in H. cbv zeta in H. unfold emailDomainOf.
  destruct (negb (Js.trim (cellOr contactRow 3) =? "")%string
            && negb (Js.trim (cellOr contactRow 9) =? "")%string); [| discriminate].
  destruct (extractDomainFromEmail (Js.trim (cellOr contactRow 3))) as [d |]; [| discriminate].
  destruct (negb (d =? "")%string && negb (Js.includes GENERIC_EMAIL_DOMAINS d)) eqn:Hd;
    [| discriminate].
  destruct (Js.startsWith (Js.toLowerCase (Js.trim (cellOr contactRow 9))) "accounts::::")
    eqn:Hprefix; [| discriminate].
  destruct (negb (orgNameOfAccountCell (Js.trim (cellOr contactRow 9)) =? "")%string) eqn:Ho;
    [| discriminate].
  injection H as <- <-.
  apply andb_prop in Hd. destruct Hd as [_ Hgen]. apply negb_true_iff in Hgen.
  apply negb_true_iff, string_eqb_false_iff in Ho.
  repeat split; try assumption; try reflexivity.
  - intros Hin. apply includes_In in Hin. congruence.
  - unfold orgNameOfAccountCell. apply trim_idempotent.
Qed.

(** A contact row with a usable e-mail address whose account cell reads
    [Accounts::::] and a name contributes that name. *)
Lemma contactEntry_of_cells :
  forall contactRow domain o,
    emailDomainOf contactRow = Some domain ->
    ~ In domain GENERIC_EMAIL_DOMAINS ->
    Js.toLowerCase (Js.trim (cellOr contactRow 9)) = Js.toLowerCase ("Accounts::::" ++ o) ->
    o <> "" -> Js.trim o = o ->
    exists o', contactEntry contactRow = Some (domain, o').
Proof.
  intros contactRow domain o He Hgen Hcell Hne Ht.
  unfold emailDomainOf in He. unfold contactEntry. cbv zeta.
  assert (Hemail : (Js.trim (cellOr contactRow 3) =? "")%string = false).
  { apply string_eqb_false_iff. intros Hb. rewrite Hb in He. discriminate. }
  assert (Hacc : (Js.trim (cellOr contactRow 9) =? "")%string = false).
  { apply string_eqb_false_iff. intros Hb. rewrite Hb in Hcell. discriminate. }
  rewrite Hemail, Hacc, He. cbn [negb andb].
  destruct (extractDomainFromEmail_domain _ _ He) as (Hd & _ & _).
  apply string_eqb_false_iff in Hd. rewrite Hd. cbn [negb andb].
  assert (Hg : Js.includes GENERIC_EMAIL_DOMAINS domain = false).
  { destruct (Js.includes GENERIC_EMAIL_DOMAINS domain) eqn:Hi; [| reflexivity].
    apply includes_In in Hi. contradiction. }
  rewrite Hg. cbn [negb].
  rewrite Hcell, startsWith_expected.
  assert (Hname : orgNameOfAccountCell (Js.trim (cellOr contactRow 9)) <> "").
  { intros Hb.
    assert (Hl : Js.toLowerCase (orgNameOfAccountCell (Js.trim (cellOr contactRow 9)))
                 = Js.toLowerCase o).
    { unfold orgNameOfAccountCell.
      rewrite toLowerCase_trim, toLowerCase_substringFrom, Hcell,
        <- toLowerCase_substringFrom, <- toLowerCase_trim.
      fold (orgNameOfAccountCell ("Accounts::::" ++ o)).
      rewrite (orgNameOfAccountCell_expected o Ht). reflexivity. }
    rewrite Hb in Hl. destruct o; [congruence | discriminate]. }
  apply string_eqb_false_iff in Hname. rewrite Hname. cbn [negb].
  eexists. reflexivity.
Qed.

Lemma mapGet_app_one :
  forall domain key value (m : DomainMap),
    mapGet domain (m ++ [(key, value)])
    = match mapGet domain m with
      | Some o => Some o
      | None => if (key =? domain)%string then Some value else None
      end.
Proof.
  intros domain key value m. induction m as [| [k v] m IH]; [reflexivity |].
  cbn [app mapGet]. destruct (k =? domain)%string; [reflexivity | exact IH].
Qed.

Lemma mapGet_mapSetIfAbsent :
  forall domain key value (m : DomainMap),
    mapGet domain (mapSetIfAbsent key value m)
    = match mapGet domain m with
      | Some o => Some o
      | None => if (key =? domain)%string then Some value else None
      end.
Proof.
  intros domain key value m. unfold mapSetIfAbsent, mapHas.
  destruct (mapGet key m) as [o |] eqn:Hk.
  - destruct (mapGet domain m) eqn:Hd; [reflexivity |].
    destruct (key =? domain)%string eqn:He; [| reflexivity].
    apply String.eqb_eq in He. congruence.
  - apply mapGet_app_one.
Qed.

Lemma mapGet_fold :
  forall domain (contactsBody : list Row) (m : DomainMap),
    mapGet domain
      (fold_left
         (fun m contactRow =>
            match contactEntry contactRow with
            | Some (d, orgNameFromCell) => mapSetIfAbsent d orgNameFromCell m
            | None => m
            end)
         contactsBody m)
    = match mapGet domain m with
      | Some o => Some o
      | None => firstEntry domain contactsBody
      end.
Proof.
  intros domain contactsBody. induction contactsBody as [| row rest IH]; intros m.
  - cbn [fold_left firstEntry]. destruct (mapGet domain m); reflexivity.
  - cbn [fold_left firstEntry]. rewrite IH.
    destruct (contactEntry row) as [[d o] |]; [| reflexivity].
    rewrite mapGet_mapSetIfAbsent.
    destruct (mapGet domain m); [reflexivity |].
    destruct (d =? domain)%string; reflexivity.
Qed.

(** The map of the first pass gives, for each domain, the name of the
    first contact row that contributes one. *)
Lemma mapGet_buildDomainMap :
  forall domain (contactsBody : list Row),
    mapGet domain (buildDomainMap contactsBody) = firstEntry domain contactsBody.
Proof.
  intros domain contactsBody. unfold buildDomainMap. rewrite mapGet_fold. reflexivity.
Qed.

Lemma firstEntry_Some :
  forall domain (contactsBody : list Row) o,
    firstEntry domain contactsBody = Some o ->
    exists source, In source contactsBody /\ contactEntry source = Some (domain, o).
Proof.
  intros domain contactsBody o. induction contactsBody as [| row rest IH];
    cbn [firstEntry]; [discriminate |].
  intros H.
  assert (Hrest : firstEntry domain rest = Some o ->
                  exists source, In source (row :: rest)
                                 /\ contactEntry source = Some (domain, o)).
  { intros Hr. destruct (IH Hr) as (s & Hin & Hs). exists s. split; [right |]; assumption. }
  destruct (contactEntry row) as [[d o'] |] eqn:Hc; [| exact (Hrest H)].
  destruct (d =? domain)%string eqn:Hd; [| exact (Hrest H)].
  apply String.eqb_eq in Hd. subst d. injection H as ->.
  exists row. split; [left; reflexivity | exact Hc].
Qed.

(** What [correctContactRow] does, case by case, in terms of the look-up. *)
Lemma correctContactRow_cases :
  forall (m : DomainMap) (row : Row),
    ((emailDomainOf row = None
      \/ exists domain, emailDomainOf row = Some domain /\ mapGet domain m = None)
     /\ correctContactRow m row = (row, false))
    \/ (exists domain o,
          emailDomainOf row = Some domain /\ mapGet domain m = Some o
          /\ Js.toLowerCase (Js.trim (cellOr row 9)) = Js.toLowerCase ("Accounts::::" ++ o)
          /\ correctContactRow m row = (padTo 10 row, false))
    \/ (exists domain o,
          emailDomainOf row = Some domain /\ mapGet domain m = Some o
          /\ Js.toLowerCase (Js.trim (cellOr row 9)) <> Js.toLowerCase ("Accounts::::" ++ o)
          /\ correctContactRow m row
             = (assignCell 9 ("Accounts::::" ++ o)%string (padTo 10 row), true)).
Proof.
  intros m row. unfold correctContactRow, emailDomainOf. cbv zeta.
  destruct (Js.trim (cellOr row 3) =? "")%string eqn:Hemail; cbn [negb].
  - left. split; [| reflexivity]. left.
    apply String.eqb_eq in Hemail. rewrite Hemail. reflexivity.
  - destruct (extractDomainFromEmail (Js.trim (cellOr row 3))) as [domain |] eqn:He;
      [| left; split; [left |]; reflexivity].
    destruct (extractDomainFromEmail_domain _ _ He) as (Hd & _ & _).
    apply string_eqb_false_iff in Hd. rewrite Hd.
    destruct (mapGet domain m) as [o |] eqn:Hm;
      [| left; split; [right; exists domain; split |]; reflexivity || assumption].
    right. rewrite cellOr_padTo.
    destruct (Js.toLowerCase (Js.trim (cellOr row 9)) =? Js.toLowerCase ("Accounts::::" ++ o))%string
      eqn:Hsame; cbn [negb].
    + left. exists domain, o. apply String.eqb_eq in Hsame. repeat split; assumption.
    + right. exists domain, o. apply string_eqb_false_iff in Hsame. repeat split; assumption.
Qed.

Lemma correctContactRow_ext :
  forall (m m' : DomainMap) (row : Row),
    (forall domain, mapGet domain m' = mapGet domain m) ->
    correctContactRow m' row = correctContactRow m row.
Proof.
  intros m m' row Hext. unfold correctContactRow. cbv zeta.
  destruct (negb (Js.trim (cellOr row 3) =? "")%string); [| reflexivity].
  destruct (extractDomainFromEmail (Js.trim (cellOr row 3))) as [domain |]; [| reflexivity].
  rewrite Hext. reflexivity.
Qed.

Lemma correctContactRow_frame :
  forall (m : DomainMap) (row : Row) j,
    j <> 9 -> cellOr (fst (correctContactRow m row)) j = cellOr row j.
Proof.
  intros m row j Hj.
  destruct (correctContactRow_cases m row)
    as [[_ ->] | [(d & o & _ & _ & _ & ->) | (d & o & _ & _ & _ & ->)]]; cbn [fst].
  - reflexivity.
  - apply cellOr_padTo.
  - rewrite cellOr_assignCell_other; [apply cellOr_padTo | | exact Hj].
    pose proof (padTo_length 10 row). lia.
Qed.

Lemma emailDomainOf_corrected :
  forall (m : DomainMap) (row : Row),
    emailDomainOf (fst (correctContactRow m row)) = emailDomainOf row.
Proof.
  intros m row. unfold emailDomainOf. rewrite correctContactRow_frame by discriminate.
  reflexivity.
Qed.

Lemma contactEntry_depends_on_two_cells :
  forall row row' : Row,
    cellOr row' 3 = cellOr row 3 -> cellOr row' 9 = cellOr row 9 ->
    contactEntry row' = contactEntry row.
Proof.
  intros row row' H3 H9. unfold contactEntry. rewrite H3, H9. reflexivity.
Qed.

Lemma contactEntry_domain :
  forall row d o, contactEntry row = Some (d, o) -> emailDomainOf row = Some d.
Proof.
  intros row d o H. apply contactEntry_Some in H. tauto.
Qed.

Lemma contactEntry_corrected_expected :
  forall (row : Row) domain o,
    emailDomainOf row = Some domain ->
    validEntry domain o ->
    contactEntry (assignCell 9 ("Accounts::::" ++ o)%string (padTo 10 row)) = Some (domain, o).
Proof.
  intros row domain o He (Hgen & Hne & Ht).
  assert (Hlen : 9 < length (padTo 10 row)) by (pose proof (padTo_length 10 row); lia).
  unfold emailDomainOf in He. unfold contactEntry. cbv zeta.
  rewrite cellOr_assignCell_same.
  rewrite (cellOr_assignCell_other 9 3) by (assumption || discriminate).
  rewrite cellOr_padTo, He, (trim_expected_cell o Hne Ht).
  assert (Hemail : (Js.trim (cellOr row 3) =? "")%string = false).
  { apply string_eqb_false_iff. intros Hb. rewrite Hb in He. discriminate. }
  rewrite Hemail. cbn [negb andb String.append String.eqb Ascii.eqb].
  destruct (extractDomainFromEmail_domain _ _ He) as (Hd & _ & _).
  apply string_eqb_false_iff in Hd. rewrite Hd. cbn [negb andb].
  assert (Hg : Js.includes GENERIC_EMAIL_DOMAINS domain = false).
  { destruct (Js.includes GENERIC_EMAIL_DOMAINS domain) eqn:Hi; [| reflexivity].
    apply includes_In in Hi. contradiction. }
  rewrite Hg. cbn [negb].
  change (String "A" (String "c" (String "c" (String "o" (String "u" (String "n"
           (String "t" (String "s" (String ":" (String ":" (String ":" (String ":" o))))))))))))
    with ("Accounts::::" ++ o)%string.
  rewrite startsWith_expected, (orgNameOfAccountCell_expected o Ht).
  apply string_eqb_false_iff in Hne. rewrite Hne. reflexivity.
Qed.

(** The second-pass rows contribute, domain by domain, what the map of the
    first pass holds. *)
Lemma firstEntry_corrected :
  forall (m : DomainMap) domain (rows : list Row),
    (forall o, mapGet domain m = Some o -> validEntry domain o) ->
    firstEntry domain rows = mapGet domain m ->
    firstEntry domain (map (fun row => fst (correctContactRow m row)) rows)
    = mapGet domain m.
Proof.
  intros m domain rows Hvalid. induction rows as [| row rest IH]; intros H;
    [exact H |].
  cbn [map firstEntry]. cbn [firstEntry] in H.
  destruct (correctContactRow_cases m row)
    as [[Hcase He] | [(d & o & Hd & Hm & Hsame & He) | (d & o & Hd & Hm & Hdiff & He)]];
    rewrite He; cbn [fst].
  - destruct (contactEntry row) as [[d o] |] eqn:Hc; [| exact (IH H)].
    destruct (d =? domain)%string eqn:Hdd; [exact H | exact (IH H)].
  - rewrite (contactEntry_depends_on_two_cells row (padTo 10 row))
      by apply cellOr_padTo.
    destruct (contactEntry row) as [[d' o'] |] eqn:Hc; [| exact (IH H)].
    destruct (d' =? domain)%string eqn:Hdd; [exact H | exact (IH H)].
  - destruct (String.eqb_spec d domain) as [-> | Hne].
    + rewrite (contactEntry_corrected_expected row domain o Hd (Hvalid o Hm)),
        String.eqb_refl. symmetry. exact Hm.
    + assert (Hskip : forall (r : Row) (k : option string),
                 emailDomainOf r = Some d ->
                 match contactEntry r with
                 | Some (d0, o0) => if (d0 =? domain)%string then Some o0 else k
                 | None => k
                 end = k).
      { intros r k Hr. destruct (contactEntry r) as [[d0 o0] |] eqn:Hc; [| reflexivity].
        apply contactEntry_domain in Hc. rewrite Hr in Hc. injection Hc as <-.
        apply String.eqb_neq in Hne. rewrite Hne. reflexivity. }
      rewrite (Hskip row _ Hd) in H.
      assert (Hd' : emailDomainOf (assignCell 9 ("Accounts::::" ++ o)%string (padTo 10 row))
                    = Some d).
      { rewrite <- Hd, <- (emailDomainOf_corrected m row), He. reflexivity. }
      rewrite (Hskip _ _ Hd'). exact (IH H).
Qed.

Lemma firstEntry_valid :
  forall domain (contactsBody : list Row) o,
    firstEntry domain contactsBody = Some o -> validEntry domain o.
Proof.
  intros domain contactsBody o H.
  destruct (firstEntry_Some _ _ _ H) as (source & _ & Hs).
  apply contactEntry_Some in Hs. unfold validEntry. tauto.
Qed.

(** A second look at a corrected row changes nothing. *)
Lemma correctContactRow_idempotent :
  forall (m : DomainMap) (row : Row),
    (forall domain o, mapGet domain m = Some o -> validEntry domain o) ->
    fst (correctContactRow m (fst (correctContactRow m row))) = fst (correctContactRow m row).
Proof.
  intros m row Hvalid.
  destruct (correctContactRow_cases m row)
    as [[Hcase He] | [(d & o & Hd & Hm & Hsame & He) | (d & o & Hd & Hm & Hdiff & He)]];
    rewrite He; cbn [fst].
  - rewrite He. reflexivity.
  - destruct (correctContactRow_cases m (padTo 10 row))
      as [[_ ->] | [(d' & o' & _ & _ & _ & ->) | (d' & o' & Hd' & Hm' & Hdiff' & _)]];
      cbn [fst]; [reflexivity | apply padTo_padTo |].
    exfalso. unfold emailDomainOf in Hd, Hd'. rewrite cellOr_padTo in Hd'.
    rewrite Hd in Hd'. injection Hd' as <-. rewrite Hm in Hm'. injection Hm' as <-.
    rewrite cellOr_padTo in Hdiff'. contradiction.
  - assert (Hlen : 10 <= length (assignCell 9 ("Accounts::::" ++ o)%string (padTo 10 row))).
    { rewrite assignCell_length_in_range; pose proof (padTo_length 10 row); lia. }
    destruct (correctContactRow_cases m (assignCell 9 ("Accounts::::" ++ o)%string (padTo 10 row)))
      as [[_ ->] | [(d' & o' & _ & _ & _ & ->) | (d' & o' & Hd' & Hm' & Hdiff' & _)]];
      cbn [fst]; [reflexivity | apply padTo_noop; exact Hlen |].
    exfalso.
    assert (Hsamedomain : emailDomainOf (assignCell 9 ("Accounts::::" ++ o)%string (padTo 10 row))
                          = Some d).
    { rewrite <- Hd, <- (emailDomainOf_corrected m row), He. reflexivity. }
    rewrite Hsamedomain in Hd'. injection Hd' as <-. rewrite Hm in Hm'. injection Hm' as <-.
    apply Hdiff'. rewrite cellOr_assignCell_same.
    destruct (Hvalid d o Hm) as (_ & Hne & Ht).
    rewrite (trim_expected_cell o Hne Ht). reflexivity.
Qed.

Lemma correctContactSheetAccountAssignments_body :
  forall (header : Row) (row : Row) (rest : list Row),
    correctContactSheetAccountAssignments (header :: row :: rest)
    = header :: map (fun r => fst (correctContactRow (buildDomainMap (row :: rest)) r))
                  (row :: rest).
Proof.
  intros header row rest. reflexivity.
Qed.

Lemma correctContactSheetAccountAssignments_short :
  forall data : list Row,
    length data < 2 -> correctContactSheetAccountAssignments data = data.
Proof.
  intros data Hlt. unfold correctContactSheetAccountAssignments.
  rewrite (proj2 (Nat.ltb_lt _ _) Hlt). reflexivity.
Qed.

(** X21: the correction keeps the shape of the contacts sheet.  It returns
    the header and as many rows as it got; in a data row only the account
    cell (column 9) can read differently afterwards; and a row whose e-mail
    address gives no domain, or a domain for which no contact names an
    organization, comes back exactly as it was. *)
Theorem X21_contact_correction_touches_only_the_account_column :
  forall originalContactsData : list Row,
    let corrected := correctContactSheetAccountAssignments originalContactsData in
    length corrected = length originalContactsData
    /\ hd [] corrected = hd [] originalContactsData
    /\ forall i row,
         nth_error (tl originalContactsData) i = Some row ->
         exists row',
           nth_error (tl corrected) i = Some row'
           /\ (forall j, j <> 9 -> cellOr row' j = cellOr row j)
           /\ (emailDomainOf row = None -> row' = row)
           /\ (forall domain,
                 emailDomainOf row = Some domain ->
                 firstEntry domain (tl originalContactsData) = None ->
                 row' = row).
Proof.
  intros data corrected. subst corrected.
  destruct data as [| header [| row0 rest]].
  - cbn. repeat split. intros [| i] row H; discriminate.
  - cbn. repeat split. intros [| i] row H; discriminate.
  - rewrite correctContactSheetAccountAssignments_body.
    set (body := row0 :: rest). cbn [length hd tl]. rewrite length_map.
    split; [reflexivity |]. split; [reflexivity |].
    intros i row Hi.
    exists (fst (correctContactRow (buildDomainMap body) row)).
    rewrite nth_error_map, Hi. cbn [option_map].
    split; [reflexivity |].
    split; [intros j Hj; apply correctContactRow_frame; exact Hj |].
    destruct (correctContactRow_cases (buildDomainMap body) row)
      as [[Hcase He] | [(d & o & Hd & Hm & _ & He) | (d & o & Hd & Hm & _ & He)]];
      rewrite He; cbn [fst].
    + split; reflexivity.
    + rewrite mapGet_buildDomainMap in Hm.
      split; [congruence |]. intros domain Hdom Hnone. congruence.
    + rewrite mapGet_buildDomainMap in Hm.
      split; [congruence |]. intros domain Hdom Hnone. congruence.
Qed.

(** X22: what the correction establishes.  After it, every contact whose
    e-mail domain is one for which some contact names an organization has
    an account cell that reads [Accounts::::] followed by the name given by
    the first such contact, up to letter case and surrounding white space;
    a cell that did not already read so holds exactly that text.  The name
    comes from a contact of the same sheet with that e-mail domain, which
    is not a generic e-mail domain. *)
Theorem X22_contacts_of_a_domain_get_the_first_named_organization :
  forall (originalContactsData : list Row) i row domain o,
    nth_error (tl originalContactsData) i = Some row ->
    emailDomainOf row = Some domain ->
    firstEntry domain (tl originalContactsData) = Some o ->
    exists row',
      nth_error (tl (correctContactSheetAccountAssignments originalContactsData)) i
      = Some row'
      /\ Js.toLowerCase (Js.trim (cellOr row' 9)) = Js.toLowerCase ("Accounts::::" ++ o)
      /\ (cellOr row' 9 <> cellOr row 9 -> cellOr row' 9 = ("Accounts::::" ++ o)%string)
      /\ ~ In domain GENERIC_EMAIL_DOMAINS
      /\ exists source,
           In source (tl originalContactsData)
           /\ emailDomainOf source = Some domain
           /\ orgNameOfAccountCell (Js.trim (cellOr source 9)) = o.
Proof.
  intros data i row domain o Hi Hdom Hfirst.
  destruct data as [| header [| row0 rest]]; [destruct i; discriminate .. |].
  rewrite correctContactSheetAccountAssignments_body.
  cbn [tl] in *. set (body := row0 :: rest) in *.
  exists (fst (correctContactRow (buildDomainMap body) row)).
  rewrite nth_error_map, Hi. cbn [option_map]. split; [reflexivity |].
  destruct (firstEntry_valid _ _ _ Hfirst) as (Hgen & Hne & Ht).
  destruct (firstEntry_Some _ _ _ Hfirst) as (source & Hin & Hsource).
  apply contactEntry_Some in Hsource.
  destruct Hsource as (Hsd & _ & _ & Hso & _ & _).
  assert (Hprov : ~ In domain GENERIC_EMAIL_DOMAINS
                  /\ exists source0,
                       In source0 body /\ emailDomainOf source0 = Some domain
                       /\ orgNameOfAccountCell (Js.trim (cellOr source0 9)) = o).
  { split; [exact Hgen |]. exists source. repeat split; [exact Hin | exact Hsd | congruence]. }
  destruct (correctContactRow_cases (buildDomainMap body) row)
    as [[Hcase He] | [(d & o' & Hd & Hm & Hsame & He) | (d & o' & Hd & Hm & Hdiff & He)]];
    rewrite He; cbn [fst].
  - exfalso. destruct Hcase as [Hnone | (d & Hd & Hm)]; [congruence |].
    rewrite mapGet_buildDomainMap in Hm. congruence.
  - rewrite mapGet_buildDomainMap in Hm.
    assert (o' = o) by congruence. subst o'.
    rewrite cellOr_padTo. split; [exact Hsame |]. split; [congruence | exact Hprov].
  - rewrite mapGet_buildDomainMap in Hm.
    assert (o' = o) by congruence. subst o'.
    rewrite cellOr_assignCell_same, (trim_expected_cell o Hne Ht).
    split; [reflexivity |]. split; [reflexivity | exact Hprov].
Qed.

Lemma X22_contacts_of_a_domain_get_the_first_named_organization_witness :
  exists row',
    nth_error (tl (correctContactSheetAccountAssignments sampleContacts)) 2 = Some row'
    /\ Js.toLowerCase (Js.trim (cellOr row' 9)) = Js.toLowerCase ("Accounts::::" ++ "ACME")
    /\ (cellOr row' 9 <> cellOr (contactRowOf "bob@acme.org" "Accounts::::Wrong") 9 ->
        cellOr row' 9 = ("Accounts::::" ++ "ACME")%string)
    /\ ~ In "acme.org" GENERIC_EMAIL_DOMAINS
    /\ exists source,
         In source (tl sampleContacts)
         /\ emailDomainOf source = Some "acme.org"
         /\ orgNameOfAccountCell (Js.trim (cellOr source 9)) = "ACME".
Proof.
  apply (X22_contacts_of_a_domain_get_the_first_named_organization sampleContacts 2
           (contactRowOf "bob@acme.org" "Accounts::::Wrong") "acme.org" "ACME");
    vm_compute; reflexivity.
Defined.

(** X23: correcting a corrected contacts sheet changes nothing. *)
Theorem X23_contact_correction_is_idempotent :
  forall originalContactsData : list Row,
    correctContactSheetAccountAssignments
      (correctContactSheetAccountAssignments originalContactsData)
    = correctContactSheetAccountAssignments originalContactsData.
Proof.
  intros [| header [| row0 rest]]; [reflexivity .. |].
  rewrite correctContactSheetAccountAssignments_body.
  set (body := row0 :: rest). set (m := buildDomainMap body).
  assert (Hvalid : forall domain o, mapGet domain m = Some o -> validEntry domain o).
  { intros domain o Hm. subst m. rewrite mapGet_buildDomainMap in Hm.
    exact (firstEntry_valid _ _ _ Hm). }
  set (body' := map (fun r => fst (correctContactRow m r)) body).
  assert (Hlookup : forall domain, mapGet domain (buildDomainMap body') = mapGet domain m).
  { intros domain. rewrite mapGet_buildDomainMap. apply firstEntry_corrected.
    - apply Hvalid.
    - subst m. symmetry. apply mapGet_buildDomainMap. }
  assert (Hshape : body' = fst (correctContactRow m row0)
                           :: map (fun r => fst (correctContactRow m r)) rest) by reflexivity.
  rewrite Hshape, correctContactSheetAccountAssignments_body, <- Hshape.
  f_equal. subst body'. rewrite map_map. apply map_ext. intros r.
  rewrite (correctContactRow_ext m _ _ Hlookup). apply correctContactRow_idempotent.
  exact Hvalid.
Qed.

(** ** CSV: writing a sheet and reading it back *)

Lemma string_app_nil_r :
  forall s : string, (s ++ "")%string = s.
Proof.
  induction s as [| c s IH]; [reflexivity |]. cbn [String.append]. rewrite IH. reflexivity.
Qed.

Lemma string_app_assoc :
  forall s t u : string, ((s ++ t) ++ u)%string = (s ++ (t ++ u))%string.
Proof.
  induction s as [| c s IH]; intros t u; [reflexivity |].
  cbn [String.append]. rewrite IH. reflexivity.
Qed.

Lemma includesChar_app :
  forall s t c, Js.includesChar (s ++ t)%string c = Js.includesChar s c || Js.includesChar t c.
Proof.
  induction s as [| d s IH]; intros t c; [reflexivity |].
  cbn [String.append Js.includesChar]. rewrite IH, orb_assoc. reflexivity.
Qed.

Lemma includesChar_escapeQuotes :
  forall s c,
    Ascii.eqb Csv.quote c = false ->
    Js.includesChar (Csv.escapeQuotes s) c = Js.includesChar s c.
Proof.
  intros s c Hc. induction s as [| d s IH]; [reflexivity |].
  cbn [Csv.escapeQuotes]. destruct (Ascii.eqb d Csv.quote) eqn:Hd.
  - apply Ascii.eqb_eq in Hd. subst d. cbn [Js.includesChar]. rewrite Hc, IH. reflexivity.
  - cbn [Js.includesChar]. rewrite IH. reflexivity.
Qed.

Lemma stringifyField_no_newline :
  forall field,
    Js.includesChar field Csv.newline = false ->
    Js.includesChar (Csv.stringifyField field) Csv.newline = false.
Proof.
  intros field H. unfold Csv.stringifyField.
  destruct (Js.includesChar field Csv.comma || Js.includesChar field Csv.newline
            || Js.includesChar field Csv.quote); [| exact H].
  cbn [Js.includesChar]. rewrite includesChar_app, includesChar_escapeQuotes by reflexivity.
  rewrite H. reflexivity.
Qed.

Lemma stringifyRow_no_newline :
  forall row : Row,
    (forall field, In field row -> Js.includesChar field Csv.newline = false) ->
    Js.includesChar (stringifyRow row) Csv.newline = false.
Proof.
  unfold stringifyRow. induction row as [| field rest IH]; intros H; [reflexivity |].
  assert (Hf := stringifyField_no_newline field (H field (or_introl eq_refl))).
  assert (Hrest := IH (fun f Hin => H f (or_intror Hin))).
  destruct rest as [| field' rest]; [exact Hf |].
  change (Csv.join "," (map Csv.stringifyField (field :: field' :: rest)))
    with (Csv.stringifyField field ++ "," ++ Csv.join "," (map Csv.stringifyField (field' :: rest)))%string.
  rewrite !includesChar_app, Hf, Hrest. reflexivity.
Qed.

Lemma splitLines_no_newline :
  forall s, Js.includesChar s Csv.newline = false -> Csv.splitLines s = [s].
Proof.
  induction s as [| c s IH]; intros H; [reflexivity |].
  cbn [Js.includesChar] in H. apply orb_false_iff in H. destruct H as [Hc Hs].
  cbn [Csv.splitLines]. rewrite Hc, (IH Hs). reflexivity.
Qed.

Lemma splitLines_app_newline :
  forall s t,
    Js.includesChar s Csv.newline = false ->
    Csv.splitLines (s ++ String Csv.newline t)%string = s :: Csv.splitLines t.
Proof.
  induction s as [| c s IH]; intros t H; [reflexivity |].
  cbn [Js.includesChar] in H. apply orb_false_iff in H. destruct H as [Hc Hs].
  cbn [String.append Csv.splitLines]. rewrite Hc, (IH t Hs). reflexivity.
Qed.

Lemma splitLines_join :
  forall (line : string) (lines : list string),
    (forall l, In l (line :: lines) -> Js.includesChar l Csv.newline = false) ->
    Csv.splitLines (Csv.join (String Csv.newline "") (line :: lines)) = line :: lines.
Proof.
  intros line lines. revert line. induction lines as [| next lines IH]; intros line H.
  - cbn [Csv.join]. apply splitLines_no_newline. apply H. left. reflexivity.
  - change (Csv.join (String Csv.newline "") (line :: next :: lines))
      with (line ++ String Csv.newline (Csv.join (String Csv.newline "") (next :: lines)))%string.
    rewrite splitLines_app_newline by (apply H; left; reflexivity).
    rewrite IH; [reflexivity |]. intros l Hin. apply H. right. exact Hin.
Qed.

(** Reading one field back. *)

Lemma parseFields_open_quote :
  forall rest cur,
    Csv.parseFields (String Csv.quote rest) cur false = Csv.parseFields rest cur true.
Proof.
  intros [| next rest'] cur; reflexivity.
Qed.

Lemma parseFields_plain_char :
  forall c rest cur inQuotes,
    Ascii.eqb c Csv.quote = false ->
    Ascii.eqb c Csv.comma && negb inQuotes = false ->
    Csv.parseFields (String c rest) cur inQuotes
    = Csv.parseFields rest (cur ++ String c "") inQuotes.
Proof.
  intros c rest cur inQuotes Hq Hc. cbn [Csv.parseFields]. rewrite Hq, Hc. reflexivity.
Qed.

Lemma parseFields_unquoted :
  forall field tail cur,
    Js.includesChar field Csv.comma = false ->
    Js.includesChar field Csv.quote = false ->
    Csv.parseFields (field ++ tail) cur false = Csv.parseFields tail (cur ++ field) false.
Proof.
  induction field as [| c field IH]; intros tail cur Hcomma Hquote.
  - rewrite string_app_nil_r. reflexivity.
  - cbn [Js.includesChar] in Hcomma, Hquote.
    apply orb_false_iff in Hcomma. apply orb_false_iff in Hquote.
    destruct Hcomma as [Hc Hcomma]. destruct Hquote as [Hq Hquote].
    cbn [String.append].
    rewrite parseFields_plain_char by (rewrite ?Hc; assumption || reflexivity).
    rewrite (IH tail _ Hcomma Hquote), string_app_char. reflexivity.
Qed.

Lemma parseFields_quoted_body :
  forall field tail cur,
    afterField tail ->
    Csv.parseFields (Csv.escapeQuotes field ++ String Csv.quote tail) cur true
    = Csv.parseFields tail (cur ++ field) false.
Proof.
  induction field as [| c field IH]; intros tail cur Htail.
  - rewrite string_app_nil_r. cbn [Csv.escapeQuotes String.append].
    destruct tail as [| next tail'].
    + reflexivity.
    + cbn [afterField] in Htail. cbn [Csv.parseFields].
      rewrite Htail. reflexivity.
  - cbn [Csv.escapeQuotes]. destruct (Ascii.eqb c Csv.quote) eqn:Hc.
    + apply Ascii.eqb_eq in Hc. subst c. cbn [String.append].
      cbn [Csv.parseFields]. cbn [Ascii.eqb Csv.quote Bool.eqb andb].
      rewrite (IH tail _ Htail), string_app_char. reflexivity.
    + cbn [String.append].
      rewrite parseFields_plain_char by (assumption || apply andb_false_r).
      rewrite (IH tail _ Htail), string_app_char. reflexivity.
Qed.

Lemma parseFields_field :
  forall field tail cur,
    afterField tail ->
    Csv.parseFields (Csv.stringifyField field ++ tail) cur false
    = Csv.parseFields tail (cur ++ field) false.
Proof.
  intros field tail cur Htail. unfold Csv.stringifyField.
  destruct (Js.includesChar field Csv.comma) eqn:Hcomma; cbn [orb].
  - cbn [String.append]. rewrite parseFields_open_quote, string_app_assoc.
    cbn [String.append]. apply parseFields_quoted_body. exact Htail.
  - destruct (Js.includesChar field Csv.newline) eqn:Hnl; cbn [orb].
    + cbn [String.append]. rewrite parseFields_open_quote, string_app_assoc.
      cbn [String.append]. apply parseFields_quoted_body. exact Htail.
    + destruct (Js.includesChar field Csv.quote) eqn:Hquote.
      * cbn [String.append]. rewrite parseFields_open_quote, string_app_assoc.
        cbn [String.append]. apply parseFields_quoted_body. exact Htail.
      * apply parseFields_unquoted; assumption.
Qed.

Lemma parseFields_row :
  forall (rest : Row) (field cur : string),
    Csv.parseFields (stringifyRow (field :: rest)) cur false
    = Js.trim (cur ++ field) :: map Js.trim rest.
Proof.
  unfold stringifyRow. induction rest as [| next rest IH]; intros field cur.
  - cbn [map Csv.join]. rewrite <- (string_app_nil_r (Csv.stringifyField field)).
    rewrite parseFields_field by exact I. reflexivity.
  - change (Csv.join "," (map Csv.stringifyField (field :: next :: rest)))
      with (Csv.stringifyField field
            ++ String Csv.comma (Csv.join "," (map Csv.stringifyField (next :: rest))))%string.
    rewrite parseFields_field by reflexivity.
    cbn [Csv.parseFields]. cbn [Ascii.eqb Csv.quote Csv.comma Bool.eqb andb negb].
    rewrite (IH next ""). reflexivity.
Qed.

(** Lines that are kept. *)

Lemma trimStart_empty_all_white :
  forall s c, Js.trimStart s = "" -> Js.includesChar s c = true -> Js.isWhiteSpace c = true.
Proof.
  induction s as [| d s IH]; intros c Ht Hin; [discriminate |].
  cbn [Js.trimStart] in Ht. destruct (Js.isWhiteSpace d) eqn:Hd; [| discriminate].
  cbn [Js.includesChar] in Hin. apply orb_prop in Hin. destruct Hin as [He | Hin].
  - apply Ascii.eqb_eq in He. subst d. exact Hd.
  - exact (IH c Ht Hin).
Qed.

Lemma trim_empty_all_white :
  forall s c, Js.trim s = "" -> Js.includesChar s c = true -> Js.isWhiteSpace c = true.
Proof.
  intros s c Ht Hin. unfold Js.trim in Ht.
  destruct (trimStart_head s) as [He | (d & r & He & Hd)].
  - exact (trimStart_empty_all_white s c He Hin).
  - rewrite He, (trimEnd_head d r Hd) in Ht. discriminate.
Qed.

Lemma stringifyRow_visible :
  forall row : Row, printsVisibleLine row -> Js.trim (stringifyRow row) <> "".
Proof.
  intros row [Hlen | (field & -> & Hfield)] Hblank.
  - destruct row as [| f1 [| f2 rest]]; cbn [length] in Hlen; try lia.
    assert (Hin : Js.includesChar (stringifyRow (f1 :: f2 :: rest)) Csv.comma = true).
    { unfold stringifyRow.
      change (Csv.join "," (map Csv.stringifyField (f1 :: f2 :: rest)))
        with (Csv.stringifyField f1
              ++ String Csv.comma (Csv.join "," (map Csv.stringifyField (f2 :: rest))))%string.
      rewrite includesChar_app. cbn [Js.includesChar]. rewrite Ascii.eqb_refl.
      apply orb_true_r. }
    pose proof (trim_empty_all_white _ _ Hblank Hin) as Hw. discriminate.
  - unfold stringifyRow in Hblank. cbn [map Csv.join] in Hblank.
    unfold Csv.stringifyField in Hblank.
    destruct (Js.includesChar field Csv.comma || Js.includesChar field Csv.newline
              || Js.includesChar field Csv.quote).
    + assert (Hin : Js.includesChar
                      (String Csv.quote (Csv.escapeQuotes field ++ String Csv.quote ""))
                      Csv.quote = true) by reflexivity.
      pose proof (trim_empty_all_white _ _ Hblank Hin) as Hw. discriminate.
    + contradiction.
Qed.

Lemma filter_all :
  forall (A : Type) (f : A -> bool) (l : list A),
    (forall x, In x l -> f x = true) -> filter f l = l.
Proof.
  intros A f l. induction l as [| x l IH]; intros H; [reflexivity |].
  cbn [filter]. rewrite (H x (or_introl eq_refl)), IH; [reflexivity |].
  intros y Hy. apply H. right. exact Hy.
Qed.

(** X24: a sheet written by [stringifyCSV] and read back by [parseCSV] is
    the sheet with every cell trimmed, provided no cell holds a line break
    and every row prints as a visible line (it has two cells or more, or its
    only cell is not blank).  Commas and double quotes in cells survive the
    round trip. *)
Theorem X24_csv_round_trip :
  forall data : list Row,
    (forall row field, In row data -> In field row ->
                       Js.includesChar field Csv.newline = false) ->
    (forall row, In row data -> printsVisibleLine row) ->
    parseCSV (stringifyCSV data) = map (map Js.trim) data.
Proof.
  intros data Hnl Hvisible. unfold parseCSV, stringifyCSV. cbv zeta.
  destruct data as [| row data]; [reflexivity |].
  change (map stringifyRow (row :: data)) with (stringifyRow row :: map stringifyRow data).
  rewrite splitLines_join.
  - change (stringifyRow row :: map stringifyRow data) with (map stringifyRow (row :: data)).
    rewrite filter_all.
    + rewrite map_map. apply map_ext_in. intros r Hr.
      destruct r as [| field rest].
      * exfalso. destruct (Hvisible [] Hr) as [Hlen | (f & He & _)];
          [cbn in Hlen; lia | discriminate].
      * rewrite parseFields_row. reflexivity.
    + intros line Hin. apply in_map_iff in Hin. destruct Hin as (r & <- & Hr).
      apply negb_true_iff, string_eqb_false_iff, stringifyRow_visible, Hvisible, Hr.
  - intros l Hin.
    change (stringifyRow row :: map stringifyRow data) with (map stringifyRow (row :: data)) in Hin.
    apply in_map_iff in Hin. destruct Hin as (r & <- & Hr).
    apply stringifyRow_no_newline. intros field Hf. exact (Hnl r field Hr Hf).
Qed.

Lemma X24_csv_round_trip_witness :
  parseCSV (stringifyCSV [ ["Name"; "Note"]; ["Acme, Inc."; String Csv.quote "q "] ])
  = map (map Js.trim) [ ["Name"; "Note"]; ["Acme, Inc."; String Csv.quote "q "] ].
Proof.
  apply X24_csv_round_trip.
  - intros row field [<- | [<- | []]] [<- | [<- | []]]; reflexivity.
  - intros row [<- | [<- | []]]; left; cbn; lia.
Defined.

Lemma parseFields_trimmed :
  forall n line cur inQuotes,
    String.length line <= n ->
    Csv.parseFields line cur inQuotes <> []
    /\ forall field, In field (Csv.parseFields line cur inQuotes) -> Js.trim field = field.
Proof.
  induction n as [| n IH]; intros line cur inQuotes Hlen.
  - destruct line; [| cbn in Hlen; lia]. cbn [Csv.parseFields].
    split; [discriminate |]. intros field [<- | []]. apply trim_idempotent.
  - destruct line as [| char rest].
    + cbn [Csv.parseFields]. split; [discriminate |].
      intros field [<- | []]. apply trim_idempotent.
    + cbn [String.length] in Hlen. cbn [Csv.parseFields].
      destruct (Ascii.eqb char Csv.quote).
      * destruct rest as [| next rest'].
        -- apply IH. cbn. lia.
        -- destruct (inQuotes && Ascii.eqb next Csv.quote).
           ++ apply IH. cbn [String.length] in Hlen. lia.
           ++ apply IH. lia.
      * destruct (Ascii.eqb char Csv.comma && negb inQuotes).
        -- split; [discriminate |]. intros field [<- | Hin]; [apply trim_idempotent |].
           apply (proj2 (IH rest "" inQuotes ltac:(lia))). exact Hin.
        -- apply IH. lia.
Qed.

(** X25: whatever the text, [parseCSV] returns rows with at least one
    cell, every cell is trimmed, and a line that is blank gives no row: there
    are never more rows than lines. *)
Theorem X25_parseCSV_rows_are_trimmed_and_not_empty :
  forall csvText : string,
    length (parseCSV csvText) <= length (Csv.splitLines csvText)
    /\ forall row,
         In row (parseCSV csvText) ->
         row <> [] /\ forall field, In field row -> Js.trim field = field.
Proof.
  intros csvText. unfold parseCSV. cbv zeta. split.
  - rewrite length_map. apply filter_length_le'.
  - intros row Hin. apply in_map_iff in Hin. destruct Hin as (line & <- & _).
    apply (parseFields_trimmed (String.length line)). apply Nat.le_refl.
Qed.

(** ** Merging duplicates: the groups *)

Lemma groupOf_groupPush :
  forall (orgNameLC k : string) (row : Row) (groups : Groups),
    groupOf k (groupPush orgNameLC row groups)
    = if (orgNameLC =? k)%string then groupOf k groups ++ [row] else groupOf k groups.
Proof.
  intros orgNameLC k row groups. unfold groupOf.
  induction groups as [| [key group] rest IH].
  - cbn [groupPush find fst snd]. destruct (orgNameLC =? k)%string; reflexivity.
  - cbn [groupPush]. destruct (String.eqb_spec key orgNameLC) as [-> | Hne].
    + cbn [find fst snd]. destruct (orgNameLC =? k)%string; reflexivity.
    + cbn [find fst snd]. destruct (String.eqb_spec key k) as [-> | Hk].
      * apply String.eqb_neq in Hne. rewrite String.eqb_sym, Hne. reflexivity.
      * exact IH.
Qed.

Lemma keys_groupPush :
  forall (orgNameLC : string) (row : Row) (groups : Groups),
    map fst (groupPush orgNameLC row groups)
    = if existsb (fun key => (key =? orgNameLC)%string) (map fst groups)
      then map fst groups else map fst groups ++ [orgNameLC].
Proof.
  intros orgNameLC row groups. induction groups as [| [key group] rest IH]; [reflexivity |].
  cbn [groupPush map fst existsb]. destruct (key =? orgNameLC)%string; cbn [orb map fst].
  - reflexivity.
  - rewrite IH. destruct (existsb _ (map fst rest)); reflexivity.
Qed.

Lemma existsb_eqb_In :
  forall (k : string) (l : list string),
    existsb (fun key => (key =? k)%string) l = true <-> In k l.
Proof.
  intros k l. rewrite existsb_exists. split.
  - intros (x & Hin & He). apply String.eqb_eq in He. subst. exact Hin.
  - intros Hin. exists k. split; [exact Hin | apply String.eqb_refl].
Qed.

Lemma keys_groupPush_In :
  forall (orgNameLC k : string) (row : Row) (groups : Groups),
    In k (map fst (groupPush orgNameLC row groups))
    <-> k = orgNameLC \/ In k (map fst groups).
Proof.
  intros orgNameLC k row groups. rewrite keys_groupPush.
  destruct (existsb _ (map fst groups)) eqn:He.
  - apply existsb_eqb_In in He. split; [tauto |]. intros [-> | H]; assumption.
  - rewrite in_app_iff. cbn [In]. split; intros H.
    + destruct H as [H | [H | []]]; [right | left; symmetry]; assumption.
    + destruct H as [H | H]; [right; left; symmetry | left]; assumption.
Qed.

Lemma keys_groupPush_NoDup :
  forall (orgNameLC : string) (row : Row) (groups : Groups),
    NoDup (map fst groups) -> NoDup (map fst (groupPush orgNameLC row groups)).
Proof.
  intros orgNameLC row groups Hnd. rewrite keys_groupPush.
  destruct (existsb _ (map fst groups)) eqn:He; [exact Hnd |].
  apply NoDup_app; [exact Hnd | constructor; [intros [] | constructor] |].
  intros k Hin [Hk | []]. subst k.
  assert (Ht : existsb (fun key => (key =? orgNameLC)%string) (map fst groups) = true)
    by (apply existsb_eqb_In; exact Hin).
  congruence.
Qed.

(** What the grouping loop has built after a list of rows. *)
Lemma groupStep_fold :
  forall (dataRows : list Row) (groups : Groups),
    NoDup (map fst groups) ->
    ~ In "" (map fst groups) ->
    let result := fold_left groupStep dataRows groups in
    NoDup (map fst result)
    /\ ~ In "" (map fst result)
    /\ (forall k, k <> "" -> groupOf k result = groupOf k groups ++ rowsNamed k dataRows)
    /\ (forall k, In k (map fst result)
                  <-> In k (map fst groups) \/ (k <> "" /\ In k (map orgNameLCOf dataRows))).
Proof.
  induction dataRows as [| row rest IH]; intros groups Hnd Hne; cbn [fold_left].
  - cbn. repeat split; try assumption.
    + intros k _. rewrite app_nil_r. reflexivity.
    + tauto.
    + intros [H | [_ []]]. exact H.
  - assert (Hstep : groupStep groups row
                    = if (orgNameLCOf row =? "")%string then groups
                      else groupPush (orgNameLCOf row) row groups) by reflexivity.
    rewrite Hstep. clear Hstep.
    destruct (String.eqb_spec (orgNameLCOf row) "") as [Hempty | Hkey].
    + destruct (IH groups Hnd Hne) as (H1 & H2 & H3 & H4).
      split; [exact H1 |]. split; [exact H2 |]. split.
      * intros k Hk. rewrite (H3 k Hk). unfold rowsNamed. cbn [filter].
        rewrite Hempty.
        destruct (String.eqb_spec "" k) as [<- | _]; [contradiction | reflexivity].
      * intros k. rewrite H4. cbn [map In]. rewrite Hempty. split; [tauto |].
        intros [H | (Hk & [He | Hin])]; [tauto | congruence | tauto].
    + assert (Hnd' := keys_groupPush_NoDup (orgNameLCOf row) row groups Hnd).
      assert (Hne' : ~ In "" (map fst (groupPush (orgNameLCOf row) row groups))).
      { rewrite keys_groupPush_In. intros [He | Hin]; [congruence | contradiction]. }
      destruct (IH _ Hnd' Hne') as (H1 & H2 & H3 & H4).
      split; [exact H1 |]. split; [exact H2 |]. split.
      * intros k Hk. rewrite (H3 k Hk), groupOf_groupPush. unfold rowsNamed. cbn [filter].
        destruct (orgNameLCOf row =? k)%string; [rewrite <- app_assoc |]; reflexivity.
      * intros k. rewrite H4, keys_groupPush_In. cbn [map In]. split.
        -- intros [[-> | H] | H]; [right; split; [exact Hkey | left; reflexivity] | tauto |tauto].
        -- intros [H | (Hk & [He | Hin])]; [tauto | left; left; symmetry; exact He | tauto].
Qed.

Lemma groupOf_entry :
  forall (groups : Groups) (k : string) (group : list Row),
    NoDup (map fst groups) -> In (k, group) groups -> groupOf k groups = group.
Proof.
  intros groups k group. unfold groupOf.
  induction groups as [| [key g] rest IH]; intros Hnd Hin; [destruct Hin |].
  cbn [map fst] in Hnd. apply NoDup_cons_iff in Hnd. destruct Hnd as [Hnot Hnd].
  cbn [find fst snd]. destruct Hin as [He | Hin].
  - injection He as -> ->. rewrite String.eqb_refl. reflexivity.
  - destruct (String.eqb_spec key k) as [-> | Hne]; [| exact (IH Hnd Hin)].
    exfalso. apply Hnot. apply in_map_iff. exists (k, group). split; [reflexivity | exact Hin].
Qed.

(** The groups are, key by key, the rows of that name in sheet order; the
    keys are distinct, not empty, and they are the names met in the sheet. *)
Lemma groupByOrgName_spec :
  forall dataRows : list Row,
    groupByOrgName dataRows
    = map (fun k => (k, rowsNamed k dataRows)) (map fst (groupByOrgName dataRows))
    /\ NoDup (map fst (groupByOrgName dataRows))
    /\ ~ In "" (map fst (groupByOrgName dataRows))
    /\ (forall k, In k (map fst (groupByOrgName dataRows))
                  <-> k <> "" /\ In k (map orgNameLCOf dataRows)).
Proof.
  intros dataRows. unfold groupByOrgName.
  destruct (groupStep_fold dataRows [] (NoDup_nil _) (fun H => H)) as (Hnd & Hne & Hof & Hkeys).
  cbv zeta in *. split; [| split; [exact Hnd | split; [exact Hne |]]].
  - rewrite map_map.
    rewrite <- (map_id (fold_left groupStep dataRows [])) at 1.
    apply map_ext_in. intros [k group] Hin. cbn [fst].
    assert (Hk : k <> "").
    { intros ->. apply Hne. apply in_map_iff. exists ("", group). split; [reflexivity | exact Hin]. }
    pose proof (Hof k Hk) as Hg. change (groupOf k []) with (@nil Row) in Hg.
    cbn [app] in Hg. rewrite <- Hg, (groupOf_entry _ _ _ Hnd Hin). reflexivity.
  - intros k. rewrite Hkeys. cbn [map In]. tauto.
Qed.

Lemma rowsNamed_key :
  forall k (dataRows : list Row) row, In row (rowsNamed k dataRows) -> orgNameLCOf row = k.
Proof.
  intros k dataRows row Hin. unfold rowsNamed in Hin. apply filter_In in Hin.
  destruct Hin as [_ He]. apply String.eqb_eq in He. exact He.
Qed.

Lemma rowsNamed_nonempty :
  forall k (dataRows : list Row), In k (map orgNameLCOf dataRows) -> rowsNamed k dataRows <> [].
Proof.
  intros k dataRows Hin Hnil. apply in_map_iff in Hin. destruct Hin as (row & Hk & Hin).
  assert (Hr : In row (rowsNamed k dataRows)).
  { unfold rowsNamed. apply filter_In. split; [exact Hin |]. rewrite Hk. apply String.eqb_refl. }
  rewrite Hnil in Hr. destruct Hr.
Qed.

(** ** Merging duplicates: one group *)

Lemma padTo_length_max :
  forall n (row : Row), length (padTo n row) = Nat.max n (length row).
Proof.
  intros n row. unfold padTo. rewrite length_app, repeat_length. lia.
Qed.

Lemma mergeGroup_single :
  forall (headerRowOriginal single : Row), mergeGroup headerRowOriginal [single] = single.
Proof. reflexivity. Qed.

Lemma mergeGroup_several :
  forall (headerRowOriginal first second : Row) (others : list Row),
    let group := first :: second :: others in
    let merged := mergeGroup headerRowOriginal group in
    length merged
    = Nat.max (Nat.max (length headerRowOriginal) 64)
        (length (representativeOf group (bestUrlOf group) (bestDescriptionOf group)))
    /\ cellOr merged 0 = Js.trim (cellOr first 0)
    /\ cellOr merged 2 = bestUrlOf group
    /\ cellOr merged 63 = bestDescriptionOf group
    /\ forall j, j <> 0 -> j <> 2 -> j <> 63 ->
         cellOr merged j
         = cellOr (representativeOf group (bestUrlOf group) (bestDescriptionOf group)) j.
Proof.
  intros headerRowOriginal first second others group merged.
  subst merged. unfold mergeGroup. subst group. cbv zeta. cbn [hd].
  set (group := first :: second :: others).
  set (representative := representativeOf group (bestUrlOf group) (bestDescriptionOf group)).
  set (requiredLength := Nat.max _ (ORG_NAME_COL_INDEX + 1)).
  assert (Hreq : requiredLength = Nat.max (length headerRowOriginal) 64).
  { subst requiredLength. unfold DESCRIPTION_COL_INDEX, URL_COL_INDEX, ORG_NAME_COL_INDEX. lia. }
  set (padded := padTo requiredLength representative).
  assert (Hpad : length padded = Nat.max requiredLength (length representative))
    by apply padTo_length_max.
  set (named := assignCell ORG_NAME_COL_INDEX (Js.trim (cellOr first ORG_NAME_COL_INDEX)) padded).
  assert (Hnamed : length named = length padded).
  { apply assignCell_length_in_range. unfold ORG_NAME_COL_INDEX. lia. }
  set (withUrl := assignCell URL_COL_INDEX (bestUrlOf group) named).
  assert (HwithUrl : length withUrl = length named).
  { apply assignCell_length_in_range. unfold URL_COL_INDEX. lia. }
  unfold DESCRIPTION_COL_INDEX, URL_COL_INDEX, ORG_NAME_COL_INDEX in *.
  split; [rewrite assignCell_length_in_range; lia |].
  split.
  { rewrite cellOr_assignCell_other by (lia || discriminate).
    subst withUrl. rewrite cellOr_assignCell_other by (lia || discriminate).
    apply cellOr_assignCell_same. }
  split.
  { rewrite cellOr_assignCell_other by (lia || discriminate).
    apply cellOr_assignCell_same. }
  split; [apply cellOr_assignCell_same |].
  intros j H0 H2 H63.
  rewrite cellOr_assignCell_other by (lia || assumption).
  subst withUrl. rewrite cellOr_assignCell_other by (lia || assumption).
  subst named. rewrite cellOr_assignCell_other by (lia || assumption).
  apply cellOr_padTo.
Qed.

Lemma orgNameLCOf_trimmed_name :
  forall row row' : Row,
    cellOr row' 0 = Js.trim (cellOr row 0) -> orgNameLCOf row' = orgNameLCOf row.
Proof.
  intros row row' H. unfold orgNameLCOf, ORG_NAME_COL_INDEX. rewrite H, trim_idempotent.
  reflexivity.
Qed.

Lemma mergeGroup_key :
  forall (headerRowOriginal : Row) (k : string) (dataRows : list Row),
    rowsNamed k dataRows <> [] ->
    orgNameLCOf (mergeGroup headerRowOriginal (rowsNamed k dataRows)) = k.
Proof.
  intros headerRowOriginal k dataRows Hne.
  destruct (rowsNamed k dataRows) as [| first [| second others]] eqn:Hg; [congruence | |].
  - rewrite mergeGroup_single. apply (rowsNamed_key k dataRows). rewrite Hg. left. reflexivity.
  - destruct (mergeGroup_several headerRowOriginal first second others) as (_ & H0 & _).
    rewrite (orgNameLCOf_trimmed_name first _ H0).
    apply (rowsNamed_key k dataRows). rewrite Hg. left. reflexivity.
Qed.

Lemma orgNameLCOf_padTo :
  forall n (row : Row), orgNameLCOf (padTo n row) = orgNameLCOf row.
Proof.
  intros n row. unfold orgNameLCOf. rewrite cellOr_padTo. reflexivity.
Qed.

(** ** Merging duplicates: the sheet *)

Lemma maxColsOf_bounds :
  forall (rows : list Row) (start : nat),
    start <= fold_left (fun maxCols row => Nat.max maxCols (length row)) rows start
    /\ forall row, In row rows ->
         length row <= fold_left (fun maxCols row => Nat.max maxCols (length row)) rows start.
Proof.
  induction rows as [| r rows IH]; intros start; cbn [fold_left].
  - split; [apply Nat.le_refl | intros row []].
  - destruct (IH (Nat.max start (length r))) as [Hs Hrows]. split; [lia |].
    intros row [<- | Hin]; [lia | exact (Hrows row Hin)].
Qed.

Lemma maxColsOf_all_equal :
  forall (rows : list Row) (n : nat),
    (forall row, In row rows -> length row = n) ->
    fold_left (fun maxCols row => Nat.max maxCols (length row)) rows n = n.
Proof.
  induction rows as [| r rows IH]; intros n H; [reflexivity |].
  cbn [fold_left]. rewrite (H r (or_introl eq_refl)), Nat.max_id.
  apply IH. intros row Hin. apply H. right. exact Hin.
Qed.

(** The result of the merge for a sheet with data rows. *)
Lemma performMergeDuplicatesLogic_body :
  forall (headerRowOriginal row : Row) (rest : list Row),
    let dataRows := row :: rest in
    let finalMergedDataRows :=
      map (fun k => mergeGroup headerRowOriginal (rowsNamed k dataRows))
        (map fst (groupByOrgName dataRows)) in
    let maxCols := maxColsOf headerRowOriginal finalMergedDataRows in
    performMergeDuplicatesLogic (headerRowOriginal :: dataRows)
    = Merge.mkResult
        (padTo maxCols headerRowOriginal :: map (padTo maxCols) finalMergedDataRows)
        (length dataRows)
        (length finalMergedDataRows).
Proof.
  intros headerRowOriginal row rest dataRows finalMergedDataRows maxCols.
  assert (Hfinal : map (fun entry : string * list Row => mergeGroup headerRowOriginal (snd entry))
                     (groupByOrgName dataRows) = finalMergedDataRows).
  { subst finalMergedDataRows.
    destruct (groupByOrgName_spec dataRows) as (Hshape & _).
    rewrite Hshape at 1. rewrite !map_map. reflexivity. }
  unfold performMergeDuplicatesLogic.
  change (length (headerRowOriginal :: dataRows) <? 2) with false.
  cbv zeta. cbn [hd tl]. fold dataRows. rewrite Hfinal. reflexivity.
Qed.

Lemma keys_length_le_named :
  forall dataRows : list Row,
    length (map fst (groupByOrgName dataRows)) <= length (filter hasOrgName dataRows).
Proof.
  intros dataRows. unfold groupByOrgName.
  assert (H : forall groups : Groups,
             length (map fst (fold_left groupStep dataRows groups))
             <= length (map fst groups) + length (filter hasOrgName dataRows)).
  { induction dataRows as [| row rest IH]; intros groups; cbn [fold_left filter].
    - lia.
    - specialize (IH (groupStep groups row)).
      assert (Hstep : groupStep groups row
                      = if (orgNameLCOf row =? "")%string then groups
                        else groupPush (orgNameLCOf row) row groups) by reflexivity.
      rewrite Hstep in IH at 2. clear Hstep.
      unfold orgNameLCOf at 1, ORG_NAME_COL_INDEX in IH. rewrite hasOrgName_lower in IH.
      destruct (hasOrgName row); cbn [negb] in IH; cbn [length].
      + rewrite keys_groupPush in IH.
        destruct (existsb _ (map fst groups)); [lia |].
        rewrite length_app in IH. cbn [length] in IH. lia.
      + exact IH. }
  specialize (H []). cbn [map length] in H. lia.
Qed.

(** X26: the shape of the merged sheet.  The header and all data rows of
    the result have one and the same length, which is at least the length
    of the original header; [rowsBefore] is the number of data rows that
    went in, [rowsAfter] the number that come out, and there are at most as
    many as there were rows with a name: rows without a name are not kept. *)
Theorem X26_merged_sheet_is_rectangular :
  forall inputData : Dataset,
    2 <= length inputData ->
    let result := performMergeDuplicatesLogic inputData in
    (forall row, In row (Merge.mergedData result) ->
       length row = length (hd [] (Merge.mergedData result)))
    /\ length (hd [] inputData) <= length (hd [] (Merge.mergedData result))
    /\ (forall j, cellOr (hd [] (Merge.mergedData result)) j = cellOr (hd [] inputData) j)
    /\ Merge.rowsBefore result = length inputData - 1
    /\ Merge.rowsAfter result = length (Merge.mergedData result) - 1
    /\ Merge.rowsAfter result <= length (filter hasOrgName (tl inputData))
    /\ (forall row, In row (tl (Merge.mergedData result)) -> hasOrgName row = true).
Proof.
  intros inputData Hlen result. subst result.
  destruct inputData as [| headerRowOriginal [| row rest]]; cbn [length] in Hlen; try lia.
  rewrite performMergeDuplicatesLogic_body.
  set (dataRows := row :: rest).
  set (finalMergedDataRows := map _ (map fst (groupByOrgName dataRows))).
  set (maxCols := maxColsOf headerRowOriginal finalMergedDataRows).
  cbn [Merge.mergedData Merge.rowsBefore Merge.rowsAfter hd tl].
  destruct (maxColsOf_bounds finalMergedDataRows (length headerRowOriginal)) as [Hheader Hrows].
  fold (maxColsOf headerRowOriginal finalMergedDataRows) in Hheader, Hrows. fold maxCols in Hheader, Hrows.
  assert (Hh : length (padTo maxCols headerRowOriginal) = maxCols)
    by (rewrite padTo_length_max; lia).
  split; [| split; [lia | split; [intros j; apply cellOr_padTo | split; [cbn; lia | split]]]].
  - intros r [<- | Hin]; [reflexivity |].
    apply in_map_iff in Hin. destruct Hin as (r0 & <- & Hin).
    rewrite padTo_length_max, Hh. specialize (Hrows r0 Hin). lia.
  - cbn [length]. rewrite length_map. lia.
  - split.
    + subst finalMergedDataRows. rewrite length_map. apply keys_length_le_named.
    + intros r Hin. apply in_map_iff in Hin. destruct Hin as (r0 & <- & Hin).
      subst finalMergedDataRows. apply in_map_iff in Hin. destruct Hin as (k & <- & Hk).
      destruct (groupByOrgName_spec dataRows) as (_ & _ & _ & Hkeys).
      apply Hkeys in Hk. destruct Hk as [Hne Hk].
      assert (Hkey := mergeGroup_key headerRowOriginal k dataRows (rowsNamed_nonempty _ _ Hk)).
      rewrite <- (orgNameLCOf_padTo maxCols) in Hkey.
      unfold orgNameLCOf, ORG_NAME_COL_INDEX in Hkey.
      unfold hasOrgName. apply negb_true_iff, string_eqb_false_iff.
      intros Hblank. rewrite Hblank in Hkey. cbn in Hkey. congruence.
Qed.

Lemma X26_merged_sheet_is_rectangular_witness :
  let result := performMergeDuplicatesLogic sampleSheet in
  (forall row, In row (Merge.mergedData result) ->
     length row = length (hd [] (Merge.mergedData result)))
  /\ length (hd [] sampleSheet) <= length (hd [] (Merge.mergedData result))
  /\ (forall j, cellOr (hd [] (Merge.mergedData result)) j = cellOr (hd [] sampleSheet) j)
  /\ Merge.rowsBefore result = length sampleSheet - 1
  /\ Merge.rowsAfter result = length (Merge.mergedData result) - 1
  /\ Merge.rowsAfter result <= length (filter hasOrgName (tl sampleSheet))
  /\ (forall row, In row (tl (Merge.mergedData result)) -> hasOrgName row = true).
Proof.
  apply (X26_merged_sheet_is_rectangular sampleSheet). cbn. lia.
Defined.

(** X27: one row per organization.  The data rows of the merged sheet
    have pairwise different names (compared trimmed and in lower case), none
    of them blank, and a name occurs in the result exactly when it is the
    name of some data row of the input. *)
Theorem X27_one_row_per_organization :
  forall inputData : Dataset,
    2 <= length inputData ->
    let merged := Merge.mergedData (performMergeDuplicatesLogic inputData) in
    NoDup (map orgNameLCOf (tl merged))
    /\ forall k,
         In k (map orgNameLCOf (tl merged))
         <-> k <> "" /\ In k (map orgNameLCOf (tl inputData)).
Proof.
  intros inputData Hlen merged. subst merged.
  destruct inputData as [| headerRowOriginal [| row rest]]; cbn [length] in Hlen; try lia.
  rewrite performMergeDuplicatesLogic_body.
  set (dataRows := row :: rest).
  cbn [Merge.mergedData tl].
  destruct (groupByOrgName_spec dataRows) as (_ & Hnd & _ & Hkeys).
  assert (Hnames : map orgNameLCOf
                     (map (padTo (maxColsOf headerRowOriginal
                                    (map (fun k => mergeGroup headerRowOriginal (rowsNamed k dataRows))
                                       (map fst (groupByOrgName dataRows)))))
                        (map (fun k => mergeGroup headerRowOriginal (rowsNamed k dataRows))
                           (map fst (groupByOrgName dataRows))))
                   = map fst (groupByOrgName dataRows)).
  { rewrite !map_map. apply map_ext_in. intros [k group] Hin. cbn [fst].
    rewrite orgNameLCOf_padTo. apply mergeGroup_key. apply rowsNamed_nonempty.
    apply Hkeys. apply in_map_iff. exists (k, group). split; [reflexivity | exact Hin]. }
  rewrite Hnames. split; [exact Hnd | exact Hkeys].
Qed.

Lemma X27_one_row_per_organization_witness :
  let merged := Merge.mergedData (performMergeDuplicatesLogic sampleSheet) in
  NoDup (map orgNameLCOf (tl merged))
  /\ forall k,
       In k (map orgNameLCOf (tl merged))
       <-> k <> "" /\ In k (map orgNameLCOf (tl sampleSheet)).
Proof.
  apply (X27_one_row_per_organization sampleSheet). cbn. lia.
Defined.

(** ** Merging duplicates: a merged sheet has nothing left to merge *)

Lemma keys_of_distinct_rows :
  forall (dataRows : list Row) (groups : Groups),
    NoDup (map fst groups ++ map orgNameLCOf dataRows) ->
    ~ In "" (map orgNameLCOf dataRows) ->
    map fst (fold_left groupStep dataRows groups) = map fst groups ++ map orgNameLCOf dataRows.
Proof.
  induction dataRows as [| row rest IH]; intros groups Hnd Hne; cbn [fold_left map].
  - rewrite app_nil_r. reflexivity.
  - cbn [map] in Hnd, Hne.
    assert (Hstep : groupStep groups row = groupPush (orgNameLCOf row) row groups).
    { unfold groupStep. cbv zeta.
      destruct (String.eqb_spec (orgNameLCOf row) "") as [He | _]; [| reflexivity].
      exfalso. apply Hne. left. exact He. }
    assert (Hnew : existsb (fun key => (key =? orgNameLCOf row)%string) (map fst groups) = false).
    { destruct (existsb _ (map fst groups)) eqn:He; [| reflexivity].
      apply existsb_eqb_In in He. exfalso.
      apply NoDup_remove_2 in Hnd. apply Hnd. apply in_or_app. left. exact He. }
    assert (Hkeys : map fst (groupStep groups row) = map fst groups ++ [orgNameLCOf row])
      by (rewrite Hstep, keys_groupPush, Hnew; reflexivity).
    rewrite IH.
    + rewrite Hkeys, <- app_assoc. reflexivity.
    + rewrite Hkeys, <- app_assoc. exact Hnd.
    + intros Hin. apply Hne. right. exact Hin.
Qed.

Lemma filter_none :
  forall (A : Type) (f : A -> bool) (l : list A),
    (forall x, In x l -> f x = false) -> filter f l = [].
Proof.
  intros A f l. induction l as [| x l IH]; intros H; [reflexivity |].
  cbn [filter]. rewrite (H x (or_introl eq_refl)). apply IH.
  intros y Hy. apply H. right. exact Hy.
Qed.

Lemma rowsNamed_of_distinct_rows :
  forall (dataRows : list Row) (row : Row),
    NoDup (map orgNameLCOf dataRows) -> In row dataRows ->
    rowsNamed (orgNameLCOf row) dataRows = [row].
Proof.
  unfold rowsNamed. induction dataRows as [| r rest IH]; intros row Hnd Hin; [destruct Hin |].
  cbn [map] in Hnd. apply NoDup_cons_iff in Hnd. destruct Hnd as [Hnot Hnd].
  cbn [filter]. destruct Hin as [-> | Hin].
  - rewrite String.eqb_refl. f_equal.
    apply filter_none. intros r' Hr'. apply not_true_iff_false.
    intros He. apply String.eqb_eq in He. apply Hnot. rewrite <- He.
    apply in_map. exact Hr'.
  - destruct (String.eqb_spec (orgNameLCOf r) (orgNameLCOf row)) as [He | _].
    + exfalso. apply Hnot. rewrite He. apply in_map. exact Hin.
    + exact (IH row Hnd Hin).
Qed.

(** What the merge returns for a sheet with data rows: a padded header
    and rows of the same length with distinct names, none blank. *)
Lemma mergedData_facts :
  forall (headerRowOriginal row : Row) (rest : list Row),
    exists (paddedHeader : Row) (mergedRows : list Row),
      Merge.mergedData (performMergeDuplicatesLogic (headerRowOriginal :: row :: rest))
      = paddedHeader :: mergedRows
      /\ (forall r, In r mergedRows -> length r = length paddedHeader)
      /\ NoDup (map orgNameLCOf mergedRows)
      /\ ~ In "" (map orgNameLCOf mergedRows).
Proof.
  intros headerRowOriginal row rest.
  rewrite performMergeDuplicatesLogic_body.
  set (dataRows := row :: rest).
  set (finalMergedDataRows := map _ (map fst (groupByOrgName dataRows))).
  set (maxCols := maxColsOf headerRowOriginal finalMergedDataRows).
  cbn [Merge.mergedData].
  exists (padTo maxCols headerRowOriginal), (map (padTo maxCols) finalMergedDataRows).
  destruct (maxColsOf_bounds finalMergedDataRows (length headerRowOriginal)) as [Hheader Hrows].
  fold (maxColsOf headerRowOriginal finalMergedDataRows) in Hheader, Hrows.
  fold maxCols in Hheader, Hrows.
  destruct (groupByOrgName_spec dataRows) as (_ & Hnd & Hne & Hkeys).
  assert (Hnames : map orgNameLCOf (map (padTo maxCols) finalMergedDataRows)
                   = map fst (groupByOrgName dataRows)).
  { subst finalMergedDataRows. rewrite !map_map. apply map_ext_in. intros [k group] Hin.
    cbn [fst]. rewrite orgNameLCOf_padTo. apply mergeGroup_key. apply rowsNamed_nonempty.
    apply Hkeys. apply in_map_iff. exists (k, group). split; [reflexivity | exact Hin]. }
  split; [reflexivity |]. split; [| rewrite Hnames; split; assumption].
  intros r Hin. apply in_map_iff in Hin. destruct Hin as (r0 & <- & Hin).
  rewrite !padTo_length_max. specialize (Hrows r0 Hin). lia.
Qed.

(** X28: merging a merged sheet changes nothing: the second pass returns
    the same sheet and reports as many rows after as before. *)
Theorem X28_merge_is_idempotent :
  forall inputData : Dataset,
    let merged := Merge.mergedData (performMergeDuplicatesLogic inputData) in
    Merge.mergedData (performMergeDuplicatesLogic merged) = merged
    /\ Merge.rowsAfter (performMergeDuplicatesLogic merged)
       = Merge.rowsBefore (performMergeDuplicatesLogic merged).
Proof.
  intros inputData merged. subst merged.
  destruct inputData as [| headerRowOriginal [| row rest]]; [split; reflexivity .. |].
  destruct (mergedData_facts headerRowOriginal row rest)
    as (paddedHeader & mergedRows & -> & Hlen & Hnd & Hne).
  destruct mergedRows as [| first others]; [split; reflexivity |].
  rewrite performMergeDuplicatesLogic_body.
  set (rows := first :: others) in *.
  assert (Hkeys : map fst (groupByOrgName rows) = map orgNameLCOf rows).
  { unfold groupByOrgName. rewrite keys_of_distinct_rows; [reflexivity | exact Hnd | exact Hne]. }
  assert (Hfinal : map (fun k => mergeGroup paddedHeader (rowsNamed k rows))
                     (map fst (groupByOrgName rows)) = rows).
  { rewrite Hkeys, map_map. rewrite <- (map_id rows) at 2.
    apply map_ext_in. intros r Hin.
    rewrite (rowsNamed_of_distinct_rows rows r Hnd Hin). reflexivity. }
  rewrite Hfinal. cbn [Merge.mergedData Merge.rowsBefore Merge.rowsAfter].
  assert (Hmax : maxColsOf paddedHeader rows = length paddedHeader)
    by (apply maxColsOf_all_equal; exact Hlen).
  rewrite Hmax. split; [| reflexivity].
  rewrite (padTo_noop _ paddedHeader (Nat.le_refl _)). f_equal.
  rewrite <- (map_id rows) at 2. apply map_ext_in. intros r Hin.
  apply padTo_noop. rewrite (Hlen r Hin). apply Nat.le_refl.
Qed.

(** ** Merging duplicates: the cells of a merged row *)

Lemma chooseDesc_fold :
  forall (group : list Row) (st : string * Z),
    let st' := fold_left chooseDescStep group st in
    (snd st <= snd st')%Z
    /\ (forall r, In r group -> (Z.of_nat (String.length (descCellTrimmed r)) <= snd st')%Z)
    /\ (st' = st
        \/ exists r, In r group /\ descCellTrimmed r = fst st'
                     /\ snd st' = Z.of_nat (String.length (fst st'))).
Proof.
  induction group as [| row rest IH]; intros st; cbn [fold_left].
  - cbv zeta. split; [lia |]. split; [intros r [] | left; reflexivity].
  - destruct (IH (chooseDescStep st row)) as (Hmono & Hall & Hfrom). cbv zeta in *.
    assert (Hstep : (snd st <= snd (chooseDescStep st row))%Z
                    /\ (Z.of_nat (String.length (descCellTrimmed row))
                        <= snd (chooseDescStep st row))%Z
                    /\ (chooseDescStep st row = st
                        \/ chooseDescStep st row
                           = (descCellTrimmed row,
                              Z.of_nat (String.length (descCellTrimmed row))))).
    { unfold chooseDescStep. cbv zeta.
      destruct (Z.gtb_spec (Z.of_nat (String.length (descCellTrimmed row))) (snd st));
        cbn [fst snd]; repeat split; try lia; [right | left]; reflexivity. }
    destruct Hstep as (Hs1 & Hs2 & Hs3).
    split; [lia |]. split.
    + intros r [<- | Hin]; [lia | exact (Hall r Hin)].
    + destruct Hfrom as [He | (r & Hin & Hr & Hl)].
      * rewrite He. destruct Hs3 as [Hs3 | Hs3]; [left; exact Hs3 |].
        right. exists row. rewrite Hs3. cbn [fst snd].
        split; [left; reflexivity | split; reflexivity].
      * right. exists r. split; [right; exact Hin | split; assumption].
Qed.

Lemma bestDescriptionOf_spec :
  forall group : list Row,
    group <> [] ->
    (exists r, In r group /\ descCellTrimmed r = bestDescriptionOf group)
    /\ forall r, In r group ->
         String.length (descCellTrimmed r) <= String.length (bestDescriptionOf group).
Proof.
  intros group Hne. unfold bestDescriptionOf.
  destruct (chooseDesc_fold group ("", (-1)%Z)) as (_ & Hall & Hfrom). cbv zeta in *.
  destruct group as [| first rest]; [congruence |].
  pose proof (Hall first (or_introl eq_refl)) as Hfirst.
  destruct Hfrom as [He | (r & Hin & Hr & Hl)].
  - rewrite He in Hfirst. cbn [snd] in Hfirst. lia.
  - split; [exists r; split; assumption |].
    intros r' Hr'. specialize (Hall r' Hr'). rewrite Hl in Hall. lia.
Qed.

Lemma chooseUrl_fold :
  forall (group : list Row) (st : UrlChoice),
    let st' := fold_left chooseUrlStep group st in
    (longestUrlLength st <= longestUrlLength st')%Z
    /\ (hasPlausibleUrl st = true -> hasPlausibleUrl st' = true)
    /\ (forall r, In r group -> isPlausibleUrl (urlCellTrimmed r) = true ->
          (Z.of_nat (String.length (urlCellTrimmed r)) <= longestUrlLength st')%Z)
    /\ (hasPlausibleUrl st = false ->
        (forall r, In r group -> isPlausibleUrl (urlCellTrimmed r) = false) ->
        forall r, In r group ->
          (Z.of_nat (String.length (urlCellTrimmed r)) <= longestUrlLength st')%Z)
    /\ ((bestRawUrl st' = bestRawUrl st /\ longestUrlLength st' = longestUrlLength st)
        \/ exists r, In r group /\ urlCellTrimmed r = bestRawUrl st'
                     /\ longestUrlLength st' = Z.of_nat (String.length (bestRawUrl st')))
    /\ (hasPlausibleUrl st = true -> isPlausibleUrl (bestRawUrl st) = true ->
        isPlausibleUrl (bestRawUrl st') = true).
Proof.
  induction group as [| row rest IH]; intros st; cbn [fold_left].
  - cbv zeta. split; [lia |]. split; [tauto |]. split; [intros r [] |].
    split; [intros _ _ r [] |]. split; [left; split; reflexivity | tauto].
  - destruct (IH (chooseUrlStep st row)) as (Hmono & Hhas & Hpl & Hnone & Hfrom & Hkeep).
    cbv zeta in *.
    set (u := urlCellTrimmed row) in *.
    assert (Hstep :
              (longestUrlLength st <= longestUrlLength (chooseUrlStep st row))%Z
              /\ (hasPlausibleUrl st = true -> hasPlausibleUrl (chooseUrlStep st row) = true)
              /\ (isPlausibleUrl u = true ->
                  (Z.of_nat (String.length u) <= longestUrlLength (chooseUrlStep st row))%Z
                  /\ hasPlausibleUrl (chooseUrlStep st row) = true)
              /\ (hasPlausibleUrl st = false -> isPlausibleUrl u = false ->
                  (Z.of_nat (String.length u) <= longestUrlLength (chooseUrlStep st row))%Z
                  /\ hasPlausibleUrl (chooseUrlStep st row) = false)
              /\ ((bestRawUrl (chooseUrlStep st row) = bestRawUrl st
                   /\ longestUrlLength (chooseUrlStep st row) = longestUrlLength st)
                  \/ (bestRawUrl (chooseUrlStep st row) = u
                      /\ longestUrlLength (chooseUrlStep st row) = Z.of_nat (String.length u)
                      /\ (hasPlausibleUrl st = true -> isPlausibleUrl u = true)))).
    { unfold chooseUrlStep. cbv zeta. fold u.
      destruct (isPlausibleUrl u) eqn:Hp;
        [| destruct (hasPlausibleUrl st) eqn:Hh; cbn [negb andb]];
        try destruct (Z.gtb_spec (Z.of_nat (String.length u)) (longestUrlLength st));
        cbn [bestRawUrl longestUrlLength hasPlausibleUrl];
        (split; [lia |]);
        (split; [intros; (reflexivity || assumption || congruence) |]);
        (split; [intros; first [discriminate | split; [lia | reflexivity]] |]);
        (split; [intros; first [discriminate
                               | split; [lia | (reflexivity || assumption)]] |]);
        first [ left; split; reflexivity
              | right; split; [reflexivity
                              | split; [reflexivity | intros; (reflexivity || congruence)]] ]. }
    destruct Hstep as (Hs1 & Hs2 & Hs3 & Hs4 & Hs5). subst u.
    split; [lia |]. split; [tauto |]. split.
    { intros r [<- | Hin] Hp; [| exact (Hpl r Hin Hp)].
      destruct (Hs3 Hp) as [Hle _]. lia. }
    split.
    { intros Hh Hall r Hr.
      destruct (Hs4 Hh (Hall row (or_introl eq_refl))) as [Hle Hh'].
      destruct Hr as [<- | Hin]; [lia |].
      apply (Hnone Hh'); [| exact Hin]. intros r' Hr'. apply Hall. right. exact Hr'. }
    split.
    { destruct Hfrom as [[Hb Hl] | (r & Hin & Hr & Hl)].
      - destruct Hs5 as [[Hb' Hl'] | (Hb' & Hl' & _)].
        + left. split; congruence.
        + right. exists row. split; [left; reflexivity |]. split; congruence.
      - right. exists r. split; [right; exact Hin | split; assumption]. }
    intros Hh Hp. apply Hkeep; [exact (Hs2 Hh) |].
    destruct Hs5 as [[Hb' _] | (Hb' & _ & Hpu)]; rewrite Hb'; [exact Hp | exact (Hpu Hh)].
Qed.

Lemma bestUrlOf_spec :
  forall group : list Row,
    group <> [] ->
    (exists r, In r group /\ urlCellTrimmed r = bestUrlOf group)
    /\ (forall r, In r group -> isPlausibleUrl (urlCellTrimmed r) = true ->
          String.length (urlCellTrimmed r) <= String.length (bestUrlOf group))
    /\ ((forall r, In r group -> isPlausibleUrl (urlCellTrimmed r) = false) ->
        forall r, In r group ->
          String.length (urlCellTrimmed r) <= String.length (bestUrlOf group))
    /\ (isPlausibleUrl (urlCellTrimmed (hd [] group)) = true ->
        isPlausibleUrl (bestUrlOf group) = true).
Proof.
  intros group Hne. unfold bestUrlOf.
  destruct group as [| first rest]; [congruence |]. clear Hne.
  set (start := mkUrlChoice "" (-1) false).
  (* after the first row the loop holds that row's cell *)
  assert (Hfirst : chooseUrlStep start first
                   = mkUrlChoice (urlCellTrimmed first)
                       (Z.of_nat (String.length (urlCellTrimmed first)))
                       (isPlausibleUrl (urlCellTrimmed first))).
  { unfold chooseUrlStep, start. cbv zeta. cbn [longestUrlLength hasPlausibleUrl bestRawUrl].
    assert (Hgt : (Z.of_nat (String.length (urlCellTrimmed first)) >? -1)%Z = true)
      by (apply Z.gtb_lt; lia).
    rewrite Hgt. destruct (isPlausibleUrl (urlCellTrimmed first)); reflexivity. }
  cbn [fold_left hd]. rewrite Hfirst.
  set (afterFirst := mkUrlChoice _ _ _).
  destruct (chooseUrl_fold rest afterFirst) as (Hmono & Hhas & Hpl & Hnone & Hfrom & Hkeep).
  cbv zeta in *. subst afterFirst.
  cbn [longestUrlLength hasPlausibleUrl bestRawUrl] in *.
  set (final := fold_left chooseUrlStep rest _) in *.
  assert (Hlen : longestUrlLength final = Z.of_nat (String.length (bestRawUrl final))).
  { destruct Hfrom as [[Hb Hl] | (r & _ & _ & Hl)]; [congruence | exact Hl]. }
  split; [| split; [| split]].
  - destruct Hfrom as [[Hb Hl] | (r & Hin & Hr & _)].
    + exists first. split; [left; reflexivity | symmetry; exact Hb].
    + exists r. split; [right; exact Hin | exact Hr].
  - intros r [<- | Hin] Hp; [lia |]. specialize (Hpl r Hin Hp). lia.
  - intros Hall r Hr.
    assert (Hf : isPlausibleUrl (urlCellTrimmed first) = false)
      by (apply Hall; left; reflexivity).
    destruct Hr as [<- | Hin]; [lia |].
    assert (Hle : (Z.of_nat (String.length (urlCellTrimmed r)) <= longestUrlLength final)%Z).
    { apply (Hnone Hf); [| exact Hin]. intros r' Hr'. apply Hall. right. exact Hr'. }
    lia.
  - intros Hp. apply Hkeep; exact Hp.
Qed.

Lemma representativeOf_spec :
  forall group : list Row,
    group <> [] ->
    let representative := representativeOf group (bestUrlOf group) (bestDescriptionOf group) in
    In representative group
    /\ (bestDescriptionOf group <> "" ->
        descCellTrimmed representative = bestDescriptionOf group)
    /\ (bestDescriptionOf group = "" -> bestUrlOf group <> "" ->
        urlCellTrimmed representative = bestUrlOf group)
    /\ (bestDescriptionOf group = "" -> bestUrlOf group = "" ->
        representative = hd [] group).
Proof.
  intros group Hne representative. subst representative. unfold representativeOf. cbv zeta.
  destruct (bestDescriptionOf_spec group Hne) as ((rd & Hrd & Hd) & _).
  destruct (bestUrlOf_spec group Hne) as ((ru & Hru & Hu) & _).
  assert (Hhd : In (hd [] group) group) by (destruct group; [congruence | left; reflexivity]).
  destruct (String.eqb_spec (bestDescriptionOf group) "") as [Hdesc | Hdesc]; cbn [negb].
  - destruct (String.eqb_spec (bestUrlOf group) "") as [Hurl | Hurl]; cbn [negb].
    + repeat split; try assumption; try congruence.
    + destruct (find (fun currentRow => (urlCellTrimmed currentRow =? bestUrlOf group)%string) group)
        as [found |] eqn:Hfind.
      * apply find_some in Hfind. destruct Hfind as [Hin He]. apply String.eqb_eq in He.
        repeat split; try assumption; congruence.
      * exfalso. apply (find_none _ _ Hfind) in Hru. rewrite Hu, String.eqb_refl in Hru.
        discriminate.
  - destruct (find (fun currentRow =>
                      (descCellTrimmed currentRow =? bestDescriptionOf group)%string) group)
      as [found |] eqn:Hfind.
    + apply find_some in Hfind. destruct Hfind as [Hin He]. apply String.eqb_eq in He.
      repeat split; try assumption; congruence.
    + exfalso. apply (find_none _ _ Hfind) in Hrd. rewrite Hd, String.eqb_refl in Hrd.
      discriminate.
Qed.

(** X29: the cells of a merged row.  Every data row of the result stands
    for the input rows of its name, in sheet order.  When there is one such
    row, the result row reads like it in every cell.  When there are
    several, the name is that of the first row, trimmed; the description is
    the longest trimmed description of the group; the URL is the trimmed URL
    of a row of the group; and the other cells are those of the
    representative row, which belongs to the group and is a row that gave
    the description whenever the description is not blank. *)
Theorem X29_cells_of_a_merged_row :
  forall (inputData : Dataset) (i : nat) (mergedRow : Row),
    2 <= length inputData ->
    nth_error (tl (Merge.mergedData (performMergeDuplicatesLogic inputData))) i
    = Some mergedRow ->
    let group := rowsNamed (orgNameLCOf mergedRow) (tl inputData) in
    let representative := representativeOf group (bestUrlOf group) (bestDescriptionOf group) in
    group <> []
    /\ (forall single, group = [single] -> forall j, cellOr mergedRow j = cellOr single j)
    /\ (2 <= length group ->
        cellOr mergedRow 0 = Js.trim (cellOr (hd [] group) 0)
        /\ cellOr mergedRow 2 = bestUrlOf group
        /\ cellOr mergedRow 63 = bestDescriptionOf group
        /\ (forall j, j <> 0 -> j <> 2 -> j <> 63 ->
              cellOr mergedRow j = cellOr representative j)
        /\ In representative group
        /\ (bestDescriptionOf group <> "" ->
            descCellTrimmed representative = bestDescriptionOf group)
        /\ (forall r, In r group ->
              String.length (descCellTrimmed r) <= String.length (bestDescriptionOf group))
        /\ (exists r, In r group /\ urlCellTrimmed r = bestUrlOf group)).
Proof.
  intros inputData i mergedRow Hlen Hi group representative.
  destruct inputData as [| headerRowOriginal [| row rest]]; cbn [length] in Hlen; try lia.
  rewrite performMergeDuplicatesLogic_body in Hi.
  cbn [tl] in group. set (dataRows := row :: rest) in *.
  cbn [Merge.mergedData tl] in Hi.
  set (maxCols := maxColsOf _ _) in Hi.
  rewrite nth_error_map in Hi. rewrite nth_error_map in Hi.
  destruct (nth_error (map fst (groupByOrgName dataRows)) i) as [k |] eqn:Hk;
    [| discriminate].
  cbn [option_map] in Hi.
  assert (Hrow : padTo maxCols (mergeGroup headerRowOriginal (rowsNamed k dataRows))
                 = mergedRow) by (injection Hi as Hi; exact Hi).
  clear Hi.
  destruct (groupByOrgName_spec dataRows) as (_ & _ & _ & Hkeys).
  apply nth_error_In, Hkeys in Hk. destruct Hk as [_ Hk].
  assert (Hne : rowsNamed k dataRows <> []) by (apply rowsNamed_nonempty; exact Hk).
  assert (Hkey : orgNameLCOf mergedRow = k).
  { rewrite <- Hrow, orgNameLCOf_padTo. apply mergeGroup_key. exact Hne. }
  subst representative group. rewrite Hkey. clear Hkey.
  split; [exact Hne |]. split.
  - intros single Hsingle j. rewrite <- Hrow, Hsingle, mergeGroup_single. apply cellOr_padTo.
  - intros Hseveral.
    destruct (rowsNamed k dataRows) as [| first [| second others]] eqn:Hg;
      cbn [length] in Hseveral; try lia.
    destruct (mergeGroup_several headerRowOriginal first second others)
      as (_ & H0 & H2 & H63 & Hother).
    cbv zeta in *.
    set (group := first :: second :: others) in *.
    assert (Hgne : group <> []) by discriminate.
    destruct (representativeOf_spec group Hgne) as (Hin & Hdesc & _).
    destruct (bestDescriptionOf_spec group Hgne) as (_ & Hlongest).
    destruct (bestUrlOf_spec group Hgne) as (Hurl & _).
    rewrite <- Hrow. rewrite !cellOr_padTo.
    split; [exact H0 |]. split; [exact H2 |]. split; [exact H63 |].
    split; [intros j Hj0 Hj2 Hj63; rewrite cellOr_padTo; apply Hother; assumption |].
    split; [exact Hin |]. split; [exact Hdesc |]. split; [exact Hlongest | exact Hurl].
Qed.

(** X30: how the merge chooses the URL of a group of several rows.  The
    URL cell of the merged row is the trimmed URL cell of some row of the
    group; no plausible URL of the group is longer than it; when no row has
    a plausible URL it is a longest URL cell of the group; and when the
    first row of the group has a plausible URL the merged URL is
    plausible. *)
Theorem X30_url_of_a_merged_group :
  forall (headerRowOriginal : Row) (group : list Row),
    2 <= length group ->
    let mergedUrl := cellOr (mergeGroup headerRowOriginal group) URL_COL_INDEX in
    (exists r, In r group /\ urlCellTrimmed r = mergedUrl)
    /\ (forall r, In r group -> isPlausibleUrl (urlCellTrimmed r) = true ->
          String.length (urlCellTrimmed r) <= String.length mergedUrl)
    /\ ((forall r, In r group -> isPlausibleUrl (urlCellTrimmed r) = false) ->
        forall r, In r group ->
          String.length (urlCellTrimmed r) <= String.length mergedUrl)
    /\ (isPlausibleUrl (urlCellTrimmed (hd [] group)) = true ->
        isPlausibleUrl mergedUrl = true).
Proof.
  intros headerRowOriginal group Hlen mergedUrl. subst mergedUrl.
  destruct group as [| first [| second others]]; cbn [length] in Hlen; try lia.
  destruct (mergeGroup_several headerRowOriginal first second others) as (_ & _ & H2 & _).
  cbv zeta in H2. unfold URL_COL_INDEX. rewrite H2.
  apply bestUrlOf_spec. discriminate.
Qed.

Lemma X30_url_of_a_merged_group_witness :
  let mergedUrl :=
    cellOr (mergeGroup sampleHeader
              [ ["Acme"; "a"; "acme.org"]; ["acme"; "b"; "https://www.acme.org/about"] ])
      URL_COL_INDEX in
  (exists r,
     In r [ ["Acme"; "a"; "acme.org"]; ["acme"; "b"; "https://www.acme.org/about"] ]
     /\ urlCellTrimmed r = mergedUrl)
  /\ (forall r,
        In r [ ["Acme"; "a"; "acme.org"]; ["acme"; "b"; "https://www.acme.org/about"] ] ->
        isPlausibleUrl (urlCellTrimmed r) = true ->
        String.length (urlCellTrimmed r) <= String.length mergedUrl)
  /\ ((forall r,
         In r [ ["Acme"; "a"; "acme.org"]; ["acme"; "b"; "https://www.acme.org/about"] ] ->
         isPlausibleUrl (urlCellTrimmed r) = false) ->
      forall r,
        In r [ ["Acme"; "a"; "acme.org"]; ["acme"; "b"; "https://www.acme.org/about"] ] ->
        String.length (urlCellTrimmed r) <= String.length mergedUrl)
  /\ (isPlausibleUrl
        (urlCellTrimmed
           (hd [] [ ["Acme"; "a"; "acme.org"]; ["acme"; "b"; "https://www.acme.org/about"] ]))
      = true ->
      isPlausibleUrl mergedUrl = true).
Proof.
  apply (X30_url_of_a_merged_group sampleHeader
           [ ["Acme"; "a"; "acme.org"]; ["acme"; "b"; "https://www.acme.org/about"] ]).
  cbn. lia.
Defined.
Lemma X29_cells_of_a_merged_row_witness :
  let group := rowsNamed (orgNameLCOf mergedAcme) (tl duplicateSheet) in
  let representative := representativeOf group (bestUrlOf group) (bestDescriptionOf group) in
  group <> []
  /\ (forall single, group = [single] -> forall j, cellOr mergedAcme j = cellOr single j)
  /\ (2 <= length group ->
      cellOr mergedAcme 0 = Js.trim (cellOr (hd [] group) 0)
      /\ cellOr mergedAcme 2 = bestUrlOf group
      /\ cellOr mergedAcme 63 = bestDescriptionOf group
      /\ (forall j, j <> 0 -> j <> 2 -> j <> 63 ->
            cellOr mergedAcme j = cellOr representative j)
      /\ In representative group
      /\ (bestDescriptionOf group <> "" ->
          descCellTrimmed representative = bestDescriptionOf group)
      /\ (forall r, In r group ->
            String.length (descCellTrimmed r) <= String.length (bestDescriptionOf group))
      /\ (exists r, In r group /\ urlCellTrimmed r = bestUrlOf group)).
Proof.
  apply (X29_cells_of_a_merged_row duplicateSheet 0 mergedAcme).
  - cbn. lia.
  - vm_compute. reflexivity.
Defined.
